(** * ollama-evals dashboard: the report parser and its normaliser

    A shallow embedding of [src/app.js] and of its later revision (the
    file that adds sorting and logos), with the properties of the parsing
    pipeline stated in the specification.

    - JavaScript strings are sequences of UTF-16 code units: [list N].
    - JavaScript numbers are IEEE 754 binary64 values: [spec_float] with the
      operations of the Standard Library's [SpecFloat] at precision 53 and
      maximal exponent 1024.
    - Regular expressions are backtracking matchers in continuation-passing
      style, one combinator per construct of the pattern language, as in
      the ECMAScript specification.
    - The [metrics] object of a record is a finite map from strings to
      strings. *)

From Stdlib Require Import ZArith NArith List Bool Lia String Ascii.
From Stdlib Require Import Floats.SpecFloat Floats.PrimFloat Floats.FloatOps.
From stdpp Require Import gmap.

(** ** Strings *)

Module JsString.

(** A string is its sequence of UTF-16 code units. *)
Abbreviation jsstring := (list N).

(** An ASCII literal of the source as a JavaScript string. *)
Definition lit (s : string) : jsstring :=
  map N_of_ascii (list_ascii_of_string s).

Section Classes.
Local Open Scope N_scope.

(** [\d] and [[0-9]] *)
Definition is_digit (c : N) : bool := (48 <=? c) && (c <=? 57).
Definition is_upper (c : N) : bool := (65 <=? c) && (c <=? 90).
Definition is_lower (c : N) : bool := (97 <=? c) && (c <=? 122).

(** [\w]: letters, digits and the underscore *)
Definition is_word_char (c : N) : bool :=
  is_digit c || is_upper c || is_lower c || (c =? 95).

(** LineTerminator: LF, CR, LS, PS. The dot of a pattern excludes them. *)
Definition is_line_terminator (c : N) : bool :=
  (c =? 10) || (c =? 13) || (c =? 8232) || (c =? 8233).

(** What [.] matches (no [s] flag) *)
Definition is_dot (c : N) : bool := negb (is_line_terminator c).

(** [\s] and the characters [trim] removes: WhiteSpace and
    LineTerminator of ECMAScript (TAB, VT, FF, SP, NBSP, ZWNBSP, the
    space separators of Unicode, and the line terminators). *)
Definition is_white_space (c : N) : bool :=
  (c =? 9) || (c =? 11) || (c =? 12) || (c =? 32) || (c =? 160)
  || (c =? 5760) || ((8192 <=? c) && (c <=? 8202)) || (c =? 8239)
  || (c =? 8287) || (c =? 12288) || (c =? 65279)
  || is_line_terminator c.

(** [[A-Za-z0-9._-]], the class of the header pattern *)
Definition is_name_char (c : N) : bool :=
  is_upper c || is_lower c || is_digit c
  || (c =? 46) || (c =? 95) || (c =? 45).

(** [[,^\n]], the class [extractNumberFromText] blanks out *)
Definition is_separator (c : N) : bool :=
  (c =? 44) || (c =? 94) || (c =? 10).

(** A pattern character under the [i] flag (without [u]): code units
    are compared after [toUpperCase], and a code unit above 127 never
    folds onto an ASCII one, so an ASCII letter of a pattern matches
    exactly its two ASCII cases. *)
Definition ci_eq (p c : N) : bool :=
  (c =? p)
  || (is_lower p && (c =? p - 32))
  || (is_upper p && (c =? p + 32)).

(** [toLowerCase] on a code unit below 128 *)
Definition lower_unit (c : N) : N := if is_upper c then c + 32 else c.
End Classes.

(** [String.prototype.toLowerCase] on the strings made of ASCII code
    units, the only ones [loadData] applies it to (a label of the metric
    pattern). *)
Definition toLowerCase (s : jsstring) : jsstring := map lower_unit s.

Fixpoint drop_while (p : N -> bool) (s : jsstring) : jsstring :=
  match s with
  | c :: s' => if p c then drop_while p s' else s
  | [] => []
  end.

Fixpoint take_while (p : N -> bool) (s : jsstring) : jsstring :=
  match s with
  | c :: s' => if p c then c :: take_while p s' else []
  | [] => []
  end.

Definition trimStart (s : jsstring) : jsstring :=
  drop_while is_white_space s.
Definition trimEnd (s : jsstring) : jsstring :=
  reverse (trimStart (reverse s)).
(** [String.prototype.trim] *)
Definition trim (s : jsstring) : jsstring := trimEnd (trimStart s).

(** [String.prototype.startsWith] *)
Fixpoint startsWith (p s : jsstring) : bool :=
  match p, s with
  | [], _ => true
  | a :: p', b :: s' => (a =? b)%N && startsWith p' s'
  | _ :: _, [] => false
  end.

(** [txt.split(/\r?\n/)]: the pieces between the line breaks, a line
    break being LF or CR LF. [acc] is the current piece, reversed. *)
Fixpoint split_lines_from (acc s : jsstring) : list jsstring :=
  match s with
  | [] => [reverse acc]
  | c :: s' =>
      if (c =? 10)%N then reverse acc :: split_lines_from [] s'
      else if (c =? 13)%N then
        match s' with
        | d :: s'' =>
            if (d =? 10)%N then reverse acc :: split_lines_from [] s''
            else split_lines_from (c :: acc) s'
        | [] => split_lines_from (c :: acc) s'
        end
      else split_lines_from (c :: acc) s'
  end.
Definition split_lines (txt : jsstring) : list jsstring :=
  split_lines_from [] txt.

End JsString.
Import JsString.

(** ** Numbers *)

Module JsNumber.

(** A Number is a binary64 value. *)
Abbreviation number := spec_float.

Definition prec : Z := 53.
Definition emax : Z := 1024.

Definition add : number -> number -> number := SFadd prec emax.
Definition sub : number -> number -> number := SFsub prec emax.
Definition mul : number -> number -> number := SFmul prec emax.
Definition div : number -> number -> number := SFdiv prec emax.
Definition neg : number -> number := SFopp.

Definition NaN : number := S754_nan.
Definition zero : number := S754_zero false.

(** [Number.isFinite] and [Number.isNaN] on a Number *)
Definition isFinite (x : number) : bool :=
  match x with
  | S754_zero _ | S754_finite _ _ _ => true
  | S754_infinity _ | S754_nan => false
  end.
Definition isNaN (x : number) : bool :=
  match x with S754_nan => true | _ => false end.

(** ToBoolean on a Number: zero (of either sign) and NaN are falsy. *)
Definition truthy (x : number) : bool :=
  match x with
  | S754_zero _ | S754_nan => false
  | S754_infinity _ | S754_finite _ _ _ => true
  end.

(** [x === y], [x < y] and [x > y] on Numbers *)
Definition strict_eq (x y : number) : bool := SFeqb x y.
Definition lt (x y : number) : bool := SFltb x y.
Definition gt (x y : number) : bool := SFltb y x.

(** The natural number a run of decimal digits denotes. *)
Definition digit_value (c : N) : N := (c - 48)%N.
Definition digits_value (ds : jsstring) : N :=
  fold_left (fun acc c => (10 * acc + digit_value c)%N) ds 0%N.

(** The Number value of the decimal literal [ip.fp] with sign [sg]: the
    rational [digits(ip ++ fp) / 10^|fp|] rounded to the nearest binary64
    value, ties to even. The division of [SpecFloat] rounds the exact
    quotient of two integer mantissas once. *)
Definition of_decimal (sg : bool) (ip fp : jsstring) : number :=
  match digits_value (ip ++ fp) with
  | N0 => S754_zero sg
  | Npos m =>
      div (S754_finite sg m 0)
          (S754_finite false (Z.to_pos (10 ^ Z.of_nat (length fp))) 0)
  end.

(** The shape [-?\d+(\.\d+)?]: sign, integer digits, fraction digits. *)
Definition all_digits (ds : jsstring) : bool :=
  forallb is_digit ds && negb (Nat.eqb (length ds) 0).

Definition parse_unsigned (s : jsstring) : option (jsstring * jsstring) :=
  let ip := take_while is_digit s in
  match drop_while is_digit s with
  | [] => if all_digits ip then Some (ip, []) else None
  | c :: fp =>
      if (c =? 46)%N && all_digits ip && all_digits fp
      then Some (ip, fp) else None
  end.

Definition parse_decimal (s : jsstring) : option (bool * jsstring * jsstring) :=
  match s with
  | c :: s' =>
      if (c =? 45)%N
      then match parse_unsigned s' with
           | Some (ip, fp) => Some (true, ip, fp)
           | None => None
           end
      else match parse_unsigned s with
           | Some (ip, fp) => Some (false, ip, fp)
           | None => None
           end
  | [] => None
  end.

(** [Number(s)] on a string: the value of a decimal literal
    [-?\d+(\.\d+)?], the shape of every string the program converts; any
    other string is NaN here. *)
Definition Number (s : jsstring) : number :=
  match parse_decimal s with
  | Some (sg, ip, fp) => of_decimal sg ip fp
  | None => NaN
  end.

(** [parseFloat(s)] on the same shape, where it agrees with [Number]. *)
Definition parseFloat (s : jsstring) : number := Number s.

(** A numeric literal of the source *)
Definition num (s : string) : number := Number (lit s).

(** Whether the Number of a literal is the binary64 value [f] of the
    kernel's floating-point unit, to test [of_decimal] against it. *)
Definition same_float (s : string) (f : PrimFloat.float) : bool :=
  PrimFloat.eqb (SF2Prim (num s)) f.

End JsNumber.
Import JsNumber.

(** ** Regular expressions

    A pattern is a matcher: it receives the state of the match and a
    continuation (the rest of the pattern) and answers with the final state of
    the first successful way through, trying the alternatives in the order
    ECMAScript fixes (greedy quantifiers take the longest repetition first
    and give characters back on failure). *)

Module Regex.

Record rstate := mk_rstate {
  r_prev : option N;             (* the code unit before the position *)
  r_rest : jsstring;             (* the input from the position on *)
  r_caps : list (nat * jsstring) (* the groups captured so far *)
}.

Definition cont := rstate -> option rstate.
Definition matcher := rstate -> cont -> option rstate.

(** The text between two states of one match. *)
Definition consumed (from to : rstate) : jsstring :=
  take (length (r_rest from) - length (r_rest to)) (r_rest from).

(** The empty pattern *)
Definition re_eps : matcher := fun st k => k st.

(** One code unit of a class *)
Definition re_class (p : N -> bool) : matcher := fun st k =>
  match r_rest st with
  | c :: s' => if p c then k (mk_rstate (Some c) s' (r_caps st)) else None
  | [] => None
  end.

(** A pattern character, and one under the [i] flag *)
Definition re_char (c : N) : matcher := re_class (N.eqb c).
Definition re_char_ci (c : N) : matcher := re_class (ci_eq c).

(** [.] *)
Definition re_dot : matcher := re_class is_dot.

(** Concatenation and alternation *)
Definition re_seq (a b : matcher) : matcher := fun st k =>
  a st (fun st' => b st' k).
Definition re_alt (a b : matcher) : matcher := fun st k =>
  match a st k with
  | Some r => Some r
  | None => b st k
  end.

(** [a?] *)
Definition re_opt (a : matcher) : matcher := re_alt a re_eps.

(** [c*] for a class [c], greedy *)
Fixpoint star_from (p : N -> bool) (prev : option N) (s : jsstring)
    (caps : list (nat * jsstring)) (k : cont) : option rstate :=
  match s with
  | c :: s' =>
      if p c then
        match star_from p (Some c) s' caps k with
        | Some r => Some r
        | None => k (mk_rstate prev s caps)
        end
      else k (mk_rstate prev s caps)
  | [] => k (mk_rstate prev s caps)
  end.
Definition re_star (p : N -> bool) : matcher := fun st k =>
  star_from p (r_prev st) (r_rest st) (r_caps st) k.

(** [c+] and [c{n,}] *)
Definition re_plus (p : N -> bool) : matcher :=
  re_seq (re_class p) (re_star p).
Fixpoint re_at_least (n : nat) (p : N -> bool) : matcher :=
  match n with
  | O => re_star p
  | S n' => re_seq (re_class p) (re_at_least n' p)
  end.

(** A literal string, and one under the [i] flag *)
Fixpoint re_str (s : jsstring) : matcher :=
  match s with
  | [] => re_eps
  | c :: s' => re_seq (re_char c) (re_str s')
  end.
Fixpoint re_str_ci (s : jsstring) : matcher :=
  match s with
  | [] => re_eps
  | c :: s' => re_seq (re_char_ci c) (re_str_ci s')
  end.

(** [^] and [$] (no [m] flag): the two ends of the input *)
Definition re_bol : matcher := fun st k =>
  match r_prev st with None => k st | Some _ => None end.
Definition re_eol : matcher := fun st k =>
  match r_rest st with [] => k st | _ :: _ => None end.

(** [\b]: a word character on exactly one side *)
Definition word_before (st : rstate) : bool :=
  match r_prev st with Some c => is_word_char c | None => false end.
Definition word_after (st : rstate) : bool :=
  match r_rest st with c :: _ => is_word_char c | [] => false end.
Definition re_wordb : matcher := fun st k =>
  if xorb (word_before st) (word_after st) then k st else None.

(** The capturing group number [n] *)
Definition re_group (n : nat) (a : matcher) : matcher := fun st k =>
  a st (fun st' =>
    k (mk_rstate (r_prev st') (r_rest st')
         ((n, consumed st st') :: r_caps st'))).

(** The result of [exec]: where the match starts, its text (group 0), the
    captured groups and the input after it. *)
Record rmatch := mk_rmatch {
  m_index : nat;
  m_text : jsstring;
  m_caps : list (nat * jsstring);
  m_after : jsstring
}.

(** [m[n]] for a group [n >= 1] *)
Fixpoint lookup_cap (n : nat) (caps : list (nat * jsstring)) : option jsstring :=
  match caps with
  | (i, s) :: caps' => if Nat.eqb i n then Some s else lookup_cap n caps'
  | [] => None
  end.
Definition group (n : nat) (m : rmatch) : option jsstring :=
  lookup_cap n (m_caps m).

(** One attempt at a position *)
Definition match_at (r : matcher) (prev : option N) (s : jsstring) : option rstate :=
  r (mk_rstate prev s []) Some.

(** [r.exec(s)] without the [g] flag: the first position, from the left,
    at which the pattern matches. *)
Fixpoint exec_from (r : matcher) (prev : option N) (s : jsstring) (i : nat)
    : option rmatch :=
  match match_at r prev s with
  | Some st =>
      Some (mk_rmatch i (take (length s - length (r_rest st)) s)
              (r_caps st) (r_rest st))
  | None =>
      match s with
      | c :: s' => exec_from r (Some c) s' (S i)
      | [] => None
      end
  end.
Definition exec (r : matcher) (s : jsstring) : option rmatch :=
  exec_from r None s 0.

(** [r.test(s)] *)
Definition test (r : matcher) (s : jsstring) : bool :=
  match exec r s with Some _ => true | None => false end.

(** [s.match(r)] with the [g] flag: the texts of the successive matches,
    each search starting where the previous match ended (one position
    further after an empty match). [skip] counts the positions inside the
    last match that remain to be passed. JavaScript answers [null] where
    this list is empty. *)
Fixpoint match_all_from (r : matcher) (prev : option N) (s : jsstring)
    (skip : nat) : list jsstring :=
  match s with
  | [] =>
      match skip, match_at r prev [] with
      | O, Some _ => [[]]
      | _, _ => []
      end
  | c :: s' =>
      match skip with
      | S n => match_all_from r (Some c) s' n
      | O =>
          match match_at r prev s with
          | Some st =>
              let len := length s - length (r_rest st) in
              take len s :: match_all_from r (Some c) s' (len - 1)
          | None => match_all_from r (Some c) s' 0
          end
      end
  end.
Definition match_all (r : matcher) (s : jsstring) : list jsstring :=
  match_all_from r None s 0.

(** [s.replace(r, by)] without the [g] flag *)
Definition replace_first (r : matcher) (by_ : jsstring) (s : jsstring) : jsstring :=
  match exec r s with
  | Some m => take (m_index m) s ++ by_ ++ m_after m
  | None => s
  end.

(** [s.replace(/[c]/g, by)] for a class [c] and a one-unit replacement *)
Definition replace_class (p : N -> bool) (by_ : N) (s : jsstring) : jsstring :=
  map (fun c => if p c then by_ else c) s.

End Regex.
Import Regex.

(** ** The data model *)

Module Data.

(** The object the loop of [loadData] builds for one header line. *)
Record RawModelRecord := mk_raw {
  name : jsstring;
  answerLine : option jsstring;          (* [null] is [None] *)
  numericAnswer : option number;         (* [null] is [None] *)
  metrics : gmap jsstring jsstring
}.

(** The same object once the second loop of [loadData] has added the typed
    fields. A field holds [null] ([None]) or a Number, which may be NaN. *)
Record ModelRecord := mk_model {
  raw : RawModelRecord;
  totalSeconds : option number;
  loadSeconds : option number;
  promptCount : option number;
  evalCount : option number;
  promptDurationSeconds : option number;
  evalDurationSeconds : option number;
  promptRate : option number;
  evalRate : option number;
  correct : bool
}.

(** The state of the first loop of [loadData] *)
Record loop_state := mk_loop {
  models : list RawModelRecord;
  cur : option RawModelRecord;
  afterHeaderLineCount : nat
}.

(** What [fetch] hands to [loadData] *)
Record Response := mk_response { ok : bool; text : jsstring }.

(** [!s] on a string or [undefined]/[null] *)
Definition falsy (s : option jsstring) : bool :=
  match s with
  | None => true
  | Some [] => true
  | Some (_ :: _) => false
  end.

(** [Number(v)] where [v] is a string or [undefined] *)
Definition Number_of (v : option jsstring) : number :=
  match v with
  | Some s => Number s
  | None => NaN
  end.

(** [parseFloat(v)] where [v] is a string or [undefined] *)
Definition parseFloat_of (v : option jsstring) : number :=
  match v with
  | Some s => parseFloat s
  | None => NaN
  end.

End Data.
Import Data.

(** ** src/app.js *)

Module App.

Definition EXPECTED_ANSWER : number := num "3600".

(** [/([0-9]+(?:\.[0-9]+)?)m/], [.../s/] and [.../ms/] *)
Definition re_unit (unit : jsstring) : matcher :=
  re_seq
    (re_group 1
       (re_seq (re_plus is_digit)
          (re_opt (re_seq (re_char 46) (re_plus is_digit)))))
    (re_str unit).

(** The value of [seconds] at the [return] of [parseDurationToSeconds] *)
Definition duration_sum (s : jsstring) : number :=
  let minMatch := exec (re_unit (lit "m")) s in
  let secMatch := exec (re_unit (lit "s")) s in
  let msMatch := exec (re_unit (lit "ms")) s in
  let seconds := zero in
  let seconds :=
    match minMatch with
    | Some m => add seconds (mul (parseFloat_of (group 1 m)) (num "60"))
    | None => seconds
    end in
  let seconds :=
    match secMatch with
    | Some m => add seconds (parseFloat_of (group 1 m))
    | None => seconds
    end in
  let seconds :=
    match secMatch, msMatch with
    | None, Some m => add seconds (div (parseFloat_of (group 1 m)) (num "1000"))
    | _, _ => seconds
    end in
  seconds.

Definition parseDurationToSeconds (raw : option jsstring) : option number :=
  if falsy raw then None
  else
    let s := trim (default [] raw) in
    let seconds := duration_sum s in
    if truthy seconds then Some seconds else None.

(** [/-?\d+(?:\.\d+)?/] *)
Definition re_number : matcher :=
  re_seq (re_opt (re_char 45))
    (re_seq (re_plus is_digit)
       (re_opt (re_seq (re_char 46) (re_plus is_digit)))).

(** [/^-?\d{3,}$/] *)
Definition re_big_int : matcher :=
  re_seq re_bol
    (re_seq (re_opt (re_char 45))
       (re_seq (re_at_least 3 is_digit) re_eol)).

Definition extractNumberFromText (text : option jsstring) : option number :=
  if falsy text then None
  else
    let nums := match_all re_number
                  (replace_class is_separator 32 (default [] text)) in
    match nums with
    | [] => None
    | _ :: _ =>
        let bigInt := List.filter (test re_big_int) (map (fun n => n) nums) in
        let chosen :=
          match bigInt with
          | b :: _ => b
          | [] => List.last nums []
          end in
        let num := Number chosen in
        if isFinite num then Some num else None
    end.

(** [/^[A-Za-z0-9._-]+:[A-Za-z0-9._-]+/] *)
Definition re_header : matcher :=
  re_seq re_bol
    (re_seq (re_plus is_name_char)
       (re_seq (re_char 58) (re_plus is_name_char))).

Definition isModelHeader (line : jsstring) : bool :=
  test re_header (trim line).

(** [/\s+$/] *)
Definition re_trailing_space : matcher :=
  re_seq (re_plus is_white_space) re_eol.

(** [/Step\s*5:/i], [/answer/i] and [/The\s+trains/i] *)
Definition re_step5 : matcher :=
  re_seq (re_str_ci (lit "Step"))
    (re_seq (re_star is_white_space) (re_str_ci (lit "5:"))).
Definition re_answer : matcher := re_str_ci (lit "answer").
Definition re_the_trains : matcher :=
  re_seq (re_str_ci (lit "The"))
    (re_seq (re_plus is_white_space) (re_str_ci (lit "trains"))).

(** The metric pattern,
    [/^(total duration|load duration|prompt eval count|prompt eval duration|prompt eval rate|eval count|eval duration|eval rate):\s*(.+)$/i] *)
Definition re_label : matcher :=
  re_alt (re_str_ci (lit "total duration"))
 (re_alt (re_str_ci (lit "load duration"))
 (re_alt (re_str_ci (lit "prompt eval count"))
 (re_alt (re_str_ci (lit "prompt eval duration"))
 (re_alt (re_str_ci (lit "prompt eval rate"))
 (re_alt (re_str_ci (lit "eval count"))
 (re_alt (re_str_ci (lit "eval duration"))
         (re_str_ci (lit "eval rate")))))))).
Definition re_metric : matcher :=
  re_seq re_bol
    (re_seq (re_group 1 re_label)
       (re_seq (re_char 58)
          (re_seq (re_star is_white_space)
             (re_seq (re_group 2 (re_plus is_dot))
                re_eol)))).

(** [/\b(\d{3,})\b/] and [/duration|count|rate/i] *)
Definition re_standalone : matcher :=
  re_seq re_wordb (re_seq (re_group 1 (re_at_least 3 is_digit)) re_wordb).
Definition re_metric_word : matcher :=
  re_alt (re_str_ci (lit "duration"))
    (re_alt (re_str_ci (lit "count")) (re_str_ci (lit "rate"))).

Definition early_answer (line : jsstring) : bool :=
  test re_step5 line || test re_answer line || test re_the_trains line.

Definition with_answer (c : RawModelRecord) (raw : jsstring) : RawModelRecord :=
  let answer := trim raw in
  mk_raw (name c) (Some answer) (extractNumberFromText (Some answer)) (metrics c).

(** One turn of the loop over the lines: [raw] is [lines[i]]. *)
Definition loop_body (st : loop_state) (raw : jsstring) : loop_state :=
  let line := trim raw in
  if falsy (Some line) then st
  else if startsWith (lit "```") line then st
  else if isModelHeader line then
    mk_loop
      (match cur st with
       | Some c => models st ++ [c]
       | None => models st
       end)
      (Some (mk_raw (replace_first re_trailing_space [] line) None None ∅))
      0
  else
    match cur st with
    | None => st
    | Some c =>
        let count := S (afterHeaderLineCount st) in
        if falsy (answerLine c) && (count <=? 6) && early_answer line then
          mk_loop (models st) (Some (with_answer c raw)) count
        else
          match exec re_metric raw with
          | Some m =>
              let key := toLowerCase (default [] (group 1 m)) in
              let val := trim (default [] (group 2 m)) in
              mk_loop (models st)
                (Some (mk_raw (name c) (answerLine c) (numericAnswer c)
                         (<[key := val]> (metrics c))))
                count
          | None =>
              if falsy (answerLine c) && test re_standalone line
                 && negb (test re_metric_word line)
              then mk_loop (models st) (Some (with_answer c raw)) count
              else mk_loop (models st) (Some c) count
          end
    end.

(** The first loop and the [push] after it *)
Definition scan (lines : list jsstring) : list RawModelRecord :=
  let st := fold_left loop_body lines (mk_loop [] None 0) in
  match cur st with
  | Some c => models st ++ [c]
  | None => models st
  end.

(** [md[k] ? Number(String(md[k]).match(/\d+/)?.[0]) : null] *)
Definition count_of (v : option jsstring) : option number :=
  if falsy v then None
  else Some (Number_of (m_text <$> exec (re_plus is_digit) (default [] v))).

(** [md[k] ? Number(String(md[k]).match(/(-?\d+(?:\.\d+)?)/)?.[1]) : null] *)
Definition rate_of (v : option jsstring) : option number :=
  if falsy v then None
  else Some (Number_of (exec (re_group 1 re_number) (default [] v) ≫= group 1)).

(** [Number(m.numericAnswer)]: [null] converts to 0 *)
Definition Number_of_answer (a : option number) : number :=
  match a with
  | Some x => x
  | None => zero
  end.

(** One turn of the second loop *)
Definition normalize (m : RawModelRecord) : ModelRecord :=
  let md := metrics m in
  mk_model m
    (parseDurationToSeconds (md !! lit "total duration"))
    (parseDurationToSeconds (md !! lit "load duration"))
    (count_of (md !! lit "prompt eval count"))
    (count_of (md !! lit "eval count"))
    (parseDurationToSeconds (md !! lit "prompt eval duration"))
    (parseDurationToSeconds (md !! lit "eval duration"))
    (rate_of (md !! lit "prompt eval rate"))
    (rate_of (md !! lit "eval rate"))
    (strict_eq (Number_of_answer (numericAnswer m)) EXPECTED_ANSWER).

(** [loadData] from the text of the report on *)
Definition parse_report (txt : jsstring) : list ModelRecord :=
  map normalize (scan (split_lines txt)).

(** [loadData]: the error it throws, or the records it resolves to *)
Definition loadData (res : Response) : string + list ModelRecord :=
  if negb (ok res) then inl "Failed to load data.md"%string
  else inr (parse_report (text res)).

End App.

(** ** The later revision of app.js (sorting, logos, view toggles)

    The parsing functions are translated again from this file. *)

Module Part000.


Definition EXPECTED_ANSWER : number := num "3600".

(** [/([0-9]+(?:\.[0-9]+)?)m/], [.../s/] and [.../ms/] *)
Definition re_unit (unit : jsstring) : matcher :=
  re_seq
    (re_group 1
       (re_seq (re_plus is_digit)
          (re_opt (re_seq (re_char 46) (re_plus is_digit)))))
    (re_str unit).

(** The value of [seconds] at the [return] of [parseDurationToSeconds] *)
Definition duration_sum (s : jsstring) : number :=
  let minMatch := exec (re_unit (lit "m")) s in
  let secMatch := exec (re_unit (lit "s")) s in
  let msMatch := exec (re_unit (lit "ms")) s in
  let seconds := zero in
  let seconds :=
    match minMatch with
    | Some m => add seconds (mul (parseFloat_of (group 1 m)) (num "60"))
    | None => seconds
    end in
  let seconds :=
    match secMatch with
    | Some m => add seconds (parseFloat_of (group 1 m))
    | None => seconds
    end in
  let seconds :=
    match secMatch, msMatch with
    | None, Some m => add seconds (div (parseFloat_of (group 1 m)) (num "1000"))
    | _, _ => seconds
    end in
  seconds.

Definition parseDurationToSeconds (raw : option jsstring) : option number :=
  if falsy raw then None
  else
    let s := trim (default [] raw) in
    let seconds := duration_sum s in
    if truthy seconds then Some seconds else None.

(** [/-?\d+(?:\.\d+)?/] *)
Definition re_number : matcher :=
  re_seq (re_opt (re_char 45))
    (re_seq (re_plus is_digit)
       (re_opt (re_seq (re_char 46) (re_plus is_digit)))).

(** [/^-?\d{3,}$/] *)
Definition re_big_int : matcher :=
  re_seq re_bol
    (re_seq (re_opt (re_char 45))
       (re_seq (re_at_least 3 is_digit) re_eol)).

Definition extractNumberFromText (text : option jsstring) : option number :=
  if falsy text then None
  else
    let nums := match_all re_number
                  (replace_class is_separator 32 (default [] text)) in
    match nums with
    | [] => None
    | _ :: _ =>
        let bigInt := List.filter (test re_big_int) (map (fun n => n) nums) in
        let chosen :=
          match bigInt with
          | b :: _ => b
          | [] => List.last nums []
          end in
        let num := Number chosen in
        if isFinite num then Some num else None
    end.

(** [/^[A-Za-z0-9._-]+:[A-Za-z0-9._-]+/] *)
Definition re_header : matcher :=
  re_seq re_bol
    (re_seq (re_plus is_name_char)
       (re_seq (re_char 58) (re_plus is_name_char))).

Definition isModelHeader (line : jsstring) : bool :=
  test re_header (trim line).

(** [/\s+$/] *)
Definition re_trailing_space : matcher :=
  re_seq (re_plus is_white_space) re_eol.

(** [/Step\s*5:/i], [/answer/i] and [/The\s+trains/i] *)
Definition re_step5 : matcher :=
  re_seq (re_str_ci (lit "Step"))
    (re_seq (re_star is_white_space) (re_str_ci (lit "5:"))).
Definition re_answer : matcher := re_str_ci (lit "answer").
Definition re_the_trains : matcher :=
  re_seq (re_str_ci (lit "The"))
    (re_seq (re_plus is_white_space) (re_str_ci (lit "trains"))).

(** The metric pattern,
    [/^(total duration|load duration|prompt eval count|prompt eval duration|prompt eval rate|eval count|eval duration|eval rate):\s*(.+)$/i] *)
Definition re_label : matcher :=
  re_alt (re_str_ci (lit "total duration"))
 (re_alt (re_str_ci (lit "load duration"))
 (re_alt (re_str_ci (lit "prompt eval count"))
 (re_alt (re_str_ci (lit "prompt eval duration"))
 (re_alt (re_str_ci (lit "prompt eval rate"))
 (re_alt (re_str_ci (lit "eval count"))
 (re_alt (re_str_ci (lit "eval duration"))
         (re_str_ci (lit "eval rate")))))))).
Definition re_metric : matcher :=
  re_seq re_bol
    (re_seq (re_group 1 re_label)
       (re_seq (re_char 58)
          (re_seq (re_star is_white_space)
             (re_seq (re_group 2 (re_plus is_dot))
                re_eol)))).

(** [/\b(\d{3,})\b/] and [/duration|count|rate/i] *)
Definition re_standalone : matcher :=
  re_seq re_wordb (re_seq (re_group 1 (re_at_least 3 is_digit)) re_wordb).
Definition re_metric_word : matcher :=
  re_alt (re_str_ci (lit "duration"))
    (re_alt (re_str_ci (lit "count")) (re_str_ci (lit "rate"))).

Definition early_answer (line : jsstring) : bool :=
  test re_step5 line || test re_answer line || test re_the_trains line.

Definition with_answer (c : RawModelRecord) (raw : jsstring) : RawModelRecord :=
  let answer := trim raw in
  mk_raw (name c) (Some answer) (extractNumberFromText (Some answer)) (metrics c).

(** One turn of the loop over the lines: [raw] is [lines[i]]. *)
Definition loop_body (st : loop_state) (raw : jsstring) : loop_state :=
  let line := trim raw in
  if falsy (Some line) then st
  else if startsWith (lit "```") line then st
  else if isModelHeader line then
    mk_loop
      (match cur st with
       | Some c => models st ++ [c]
       | None => models st
       end)
      (Some (mk_raw (replace_first re_trailing_space [] line) None None ∅))
      0
  else
    match cur st with
    | None => st
    | Some c =>
        let count := S (afterHeaderLineCount st) in
        if falsy (answerLine c) && (count <=? 6) && early_answer line then
          mk_loop (models st) (Some (with_answer c raw)) count
        else
          match exec re_metric raw with
          | Some m =>
              let key := toLowerCase (default [] (group 1 m)) in
              let val := trim (default [] (group 2 m)) in
              mk_loop (models st)
                (Some (mk_raw (name c) (answerLine c) (numericAnswer c)
                         (<[key := val]> (metrics c))))
                count
          | None =>
              if falsy (answerLine c) && test re_standalone line
                 && negb (test re_metric_word line)
              then mk_loop (models st) (Some (with_answer c raw)) count
              else mk_loop (models st) (Some c) count
          end
    end.

(** The first loop and the [push] after it *)
Definition scan (lines : list jsstring) : list RawModelRecord :=
  let st := fold_left loop_body lines (mk_loop [] None 0) in
  match cur st with
  | Some c => models st ++ [c]
  | None => models st
  end.

(** [md[k] ? Number(String(md[k]).match(/\d+/)?.[0]) : null] *)
Definition count_of (v : option jsstring) : option number :=
  if falsy v then None
  else Some (Number_of (m_text <$> exec (re_plus is_digit) (default [] v))).

(** [md[k] ? Number(String(md[k]).match(/(-?\d+(?:\.\d+)?)/)?.[1]) : null] *)
Definition rate_of (v : option jsstring) : option number :=
  if falsy v then None
  else Some (Number_of (exec (re_group 1 re_number) (default [] v) ≫= group 1)).

(** [Number(m.numericAnswer)]: [null] converts to 0 *)
Definition Number_of_answer (a : option number) : number :=
  match a with
  | Some x => x
  | None => zero
  end.

(** One turn of the second loop *)
Definition normalize (m : RawModelRecord) : ModelRecord :=
  let md := metrics m in
  mk_model m
    (parseDurationToSeconds (md !! lit "total duration"))
    (parseDurationToSeconds (md !! lit "load duration"))
    (count_of (md !! lit "prompt eval count"))
    (count_of (md !! lit "eval count"))
    (parseDurationToSeconds (md !! lit "prompt eval duration"))
    (parseDurationToSeconds (md !! lit "eval duration"))
    (rate_of (md !! lit "prompt eval rate"))
    (rate_of (md !! lit "eval rate"))
    (strict_eq (Number_of_answer (numericAnswer m)) EXPECTED_ANSWER).

(** [loadData] from the text of the report on *)
Definition parse_report (txt : jsstring) : list ModelRecord :=
  map normalize (scan (split_lines txt)).

(** [loadData]: the error it throws, or the records it resolves to *)
Definition loadData (res : Response) : string + list ModelRecord :=
  if negb (ok res) then inl "Failed to load data.md"%string
  else inr (parse_report (text res)).


(** [SORT], the sort key and direction the handlers mutate *)
Record SortState := mk_sort { sort_by : jsstring; sort_dir : jsstring }.
Definition SORT : SortState := mk_sort (lit "total") (lit "asc").

(** [a === b] on strings *)
Definition str_eq (a b : jsstring) : bool := bool_decide (a = b).

(** [s.includes(q)] *)
Fixpoint includes (s q : jsstring) : bool :=
  startsWith q s ||
  match s with
  | _ :: s' => includes s' q
  | [] => false
  end.

(** ToNumber on [null] or a Number, as the subtraction applies it *)
Definition ToNumber (v : option number) : number :=
  match v with
  | Some x => x
  | None => zero
  end.

(** [Array.prototype.sort] with a comparator: the stable sort that leaves
    [x] before [y] unless the comparator answers a Number above zero (NaN
    counts as zero). For a consistent comparator every conforming
    implementation yields this order. *)
Fixpoint sort_insert {A} (cmp : A -> A -> number) (x : A) (l : list A) : list A :=
  match l with
  | [] => [x]
  | y :: l' => if gt (cmp x y) zero then y :: sort_insert cmp x l' else x :: l
  end.
Definition sort {A} (cmp : A -> A -> number) (l : list A) : list A :=
  fold_right (sort_insert cmp) [] l.

Section RenderGrid.

(** [String.prototype.toLowerCase] with the case tables of Unicode, which
    the development leaves open. *)
Variable toLowerCaseUnicode : jsstring -> jsstring.

Definition getVal (cfg : SortState) (m : ModelRecord) : option number :=
  if str_eq (sort_by cfg) (lit "total") then totalSeconds m
  else if str_eq (sort_by cfg) (lit "genDuration") then evalDurationSeconds m
  else if str_eq (sort_by cfg) (lit "promptRate") then promptRate m
  else if str_eq (sort_by cfg) (lit "evalRate") then evalRate m
  else if str_eq (sort_by cfg) (lit "evalCount") then evalCount m
  else totalSeconds m.

(** [v == null || Number.isNaN(v)] *)
Definition absent (v : option number) : bool :=
  match v with
  | None => true
  | Some x => isNaN x
  end.

(** The comparator handed to [filtered.sort] *)
Definition compare_models (cfg : SortState) (a b : ModelRecord) : number :=
  let va := getVal cfg a in
  let vb := getVal cfg b in
  let na := absent va in
  let nb := absent vb in
  if na && nb then num "0"
  else if na then num "1"
  else if nb then neg (num "1")
  else
    let diff := sub (ToNumber va) (ToNumber vb) in
    if str_eq (sort_dir cfg) (lit "asc") then diff else neg diff.

(** [filtered] after the sort: the records whose cards [renderGrid] appends
    to the grid, in that order. *)
Definition renderGrid (cfg : SortState) (models : list ModelRecord)
    (filter : jsstring) : list ModelRecord :=
  let q := toLowerCaseUnicode (trim filter) in
  let filtered :=
    if falsy (Some q) then models
    else List.filter (fun m => includes (toLowerCaseUnicode (name (raw m))) q) models in
  sort (compare_models cfg) filtered.

End RenderGrid.

End Part000.

(** ** The notions of the specification, read off the loop of [loadData]

    The specification describes the loop as a segmenter followed by a record
    builder. The definitions below make the two stages explicit; the
    refinement lemmas relate them to [App.scan]. *)

Module Stages.

Definition fence : jsstring := lit "```".

(** The three tests at the head of the loop body *)
Definition is_blank (raw : jsstring) : bool := falsy (Some (trim raw)).
Definition is_fenced (raw : jsstring) : bool := startsWith fence (trim raw).
Definition is_header (raw : jsstring) : bool := App.isModelHeader (trim raw).

(** A line that is exactly the fence marker *)
Definition is_fence_marker (raw : jsstring) : bool := bool_decide (trim raw = fence).

(** The name a header line gives to its record *)
Definition header_name (raw : jsstring) : jsstring :=
  replace_first App.re_trailing_space [] (trim raw).

Inductive line_kind := Skipped | Header | Content.

Definition classify (raw : jsstring) : line_kind :=
  if is_blank raw then Skipped
  else if is_fenced raw then Skipped
  else if is_header raw then Header
  else Content.

Record segment := mk_segment { seg_name : jsstring; bodyLines : list jsstring }.

(** The loop of [loadData] with the record builder taken out: a header
    line closes the open segment and opens the next, a content line joins
    the open segment, if any. *)
Definition segment_step (st : list segment * option segment) (raw : jsstring)
    : list segment * option segment :=
  match classify raw with
  | Skipped => st
  | Header => (fst st ++ option_list (snd st), Some (mk_segment (header_name raw) []))
  | Content =>
      match snd st with
      | None => st
      | Some s => (fst st, Some (mk_segment (seg_name s) (bodyLines s ++ [raw])))
      end
  end.

Definition segments (lines : list jsstring) : list segment :=
  let st := fold_left segment_step lines ([], None) in
  fst st ++ option_list (snd st).

(** The record builder: what the loop body does with a content line, [count]
    being [afterHeaderLineCount] after its increment. *)
Definition build_line (c : RawModelRecord) (count : nat) (raw : jsstring) : RawModelRecord :=
  let line := trim raw in
  if falsy (answerLine c) && (count <=? 6) && App.early_answer line then
    App.with_answer c raw
  else
    match exec App.re_metric raw with
    | Some m =>
        mk_raw (name c) (answerLine c) (numericAnswer c)
          (<[toLowerCase (default [] (group 1 m)) := trim (default [] (group 2 m))]> (metrics c))
    | None =>
        if falsy (answerLine c) && test App.re_standalone line
           && negb (test App.re_metric_word line)
        then App.with_answer c raw
        else c
    end.

Definition build_step (st : RawModelRecord * nat) (raw : jsstring) : RawModelRecord * nat :=
  (build_line (fst st) (S (snd st)) raw, S (snd st)).

Definition build (s : segment) : RawModelRecord :=
  fst (fold_left build_step (bodyLines s) (mk_raw (seg_name s) None None ∅, 0)).

(** The tokens [extractNumberFromText] finds in a text *)
Definition numeric_tokens (text : jsstring) : list jsstring :=
  match_all App.re_number (replace_class is_separator 32 text).

(** An optional minus sign and three or more digits, nothing else *)
Definition unsigned_part (t : jsstring) : jsstring :=
  match t with
  | c :: t' => if (c =? 45)%N then t' else t
  | [] => []
  end.
Definition is_big_integer (t : jsstring) : bool :=
  forallb is_digit (unsigned_part t) && (3 <=? length (unsigned_part t)).

(** [null] unless the Number is finite *)
Definition finite_or_null (x : number) : option number :=
  if isFinite x then Some x else None.

(** The first maximal run of digits of a string *)
Definition first_digit_run (s : jsstring) : jsstring :=
  take_while is_digit (drop_while (fun c => negb (is_digit c)) s).

(** The preference rule in the words of the specification: the integer
    part of a token, sign and fraction set aside, has three digits or more. *)
Definition integer_digits (t : jsstring) : nat :=
  length (take_while is_digit (unsigned_part t)).
Definition spec_chosen (toks : list jsstring) : jsstring :=
  match List.filter (fun t => 3 <=? integer_digits t) toks with
  | b :: _ => b
  | [] => List.last toks []
  end.

(** The lines of a segment body among lines without a header *)
Definition kept (l : jsstring) : bool := negb (is_blank l) && negb (is_fenced l).

Definition is_content (raw : jsstring) : bool :=
  match classify raw with Content => true | _ => false end.
Definition headed (raw : jsstring) : bool :=
  match classify raw with Header => true | _ => false end.

(** The Number of the first run of digits of a string, NaN without one *)
Definition digits_number (s : jsstring) : number :=
  match first_digit_run s with
  | [] => NaN
  | ds => of_decimal false ds []
  end.

(** A count field: [null] for a missing or empty metric string *)
Definition count_field (v : option jsstring) : option number :=
  match v with
  | None | Some [] => None
  | Some s => Some (digits_number s)
  end.

(** The keys a [metrics] object can hold: the labels of the metric pattern *)
Definition labels : list jsstring :=
  [lit "total duration"; lit "load duration"; lit "prompt eval count";
   lit "prompt eval duration"; lit "prompt eval rate"; lit "eval count";
   lit "eval duration"; lit "eval rate"].

(** The line feed, to write a report of several lines *)
Definition LF : jsstring := [10%N].

(** A record that only has a name and a total duration *)
Definition sample (n : string) (total : option number) : ModelRecord :=
  mk_model (mk_raw (lit n) None None ∅) total None None None None None None None false.

End Stages.
Import Stages.

(** ** Predicates of the proofs *)

Module Predicates.

(** A Number that is zero, positive or plus infinity: neither NaN, nor
    negative, nor minus zero. *)
Definition nonneg (x : number) : Prop :=
  match x with
  | S754_zero false | S754_infinity false | S754_finite false _ _ => True
  | _ => False
  end.

(** A positive finite Number *)
Definition positive_finite (x : number) : Prop :=
  match x with
  | S754_finite false _ _ => True
  | _ => False
  end.

Definition is_some {A} (o : option A) : bool :=
  match o with Some _ => true | None => false end.

(** [consumes r L]: every successful way through the pattern [r] reads a
    word of [L] off the input, leaves the captures alone and goes on with
    the continuation. *)
Definition consumes (r : matcher) (L : jsstring -> Prop) : Prop :=
  forall st k res, r st k = Some res ->
    exists w st', r_rest st = w ++ r_rest st' /\ r_caps st' = r_caps st
                  /\ L w /\ k st' = Some res.

(** The words of [[0-9]+(?:\.[0-9]+)?] *)
Definition decimal_word (w : jsstring) : Prop :=
  exists ip fp, all_digits ip = true
    /\ ((fp = [] /\ w = ip) \/ (all_digits fp = true /\ w = ip ++ 46%N :: fp)).

(** The words of [-?\d+(?:\.\d+)?] *)
Definition signed_decimal_word (w : jsstring) : Prop :=
  decimal_word w \/ exists d, w = 45%N :: d /\ decimal_word d.

(** The state of the loop of [loadData] that stands for a state of the
    segmenter: the closed segments built, the open one built so far, and
    the number of its body lines. *)
Definition loop_of (sst : list segment * option segment) : loop_state :=
  mk_loop (map build (fst sst)) (build <$> snd sst)
    (match snd sst with Some s => length (bodyLines s) | None => 0 end).

(** A record without a value for the sort key *)
Definition missing (cfg : Part000.SortState) (m : ModelRecord) : bool :=
  Part000.absent (Part000.getVal cfg m).

(** Once a record without a sort value occurs, only such records follow. *)
Fixpoint missing_last (cfg : Part000.SortState) (l : list ModelRecord) : Prop :=
  match l with
  | [] => True
  | m :: l' => (missing cfg m = true -> Forall (fun b => missing cfg b = true) l')
               /\ missing_last cfg l'
  end.

End Predicates.
Import Predicates.

(** ** Shapes of the lines and strings the patterns accept *)

Module Shapes.

(** The code unit before the position once the word [w] has been read *)
Fixpoint prev_after (prev : option N) (w : jsstring) : option N :=
  match w with
  | [] => prev
  | c :: w' => prev_after (Some c) w'
  end.

(** A string that opens with a run of name characters, a colon and one
    more name character: what [/^[A-Za-z0-9._-]+:[A-Za-z0-9._-]+/] accepts. *)
Definition is_header_shape (x : jsstring) : bool :=
  match take_while is_name_char x with
  | [] => false
  | _ :: _ =>
      match drop_while is_name_char x with
      | c :: d :: _ => (c =? 58)%N && is_name_char d
      | _ => false
      end
  end.

(** A line that opens with white space *)
Definition indented (raw : jsstring) : bool :=
  match raw with
  | c :: _ => is_white_space c
  | [] => false
  end.

Definition is_letter (c : N) : bool := is_upper c || is_lower c.

(** Whether a string holds a digit *)
Definition has_digit (s : jsstring) : bool := existsb is_digit s.

(** The text with every line feed written as carriage return, line feed *)
Fixpoint to_crlf (s : jsstring) : jsstring :=
  match s with
  | [] => []
  | c :: s' => if (c =? 10)%N then 13%N :: 10%N :: to_crlf s' else c :: to_crlf s'
  end.

(** The text without the carriage returns that stand before a line feed *)
Fixpoint strip_cr (s : jsstring) : jsstring :=
  match s with
  | [] => []
  | c :: s' =>
      match s' with
      | d :: _ => if (c =? 13)%N && (d =? 10)%N then strip_cr s' else c :: strip_cr s'
      | [] => [c]
      end
  end.

(** The lines put together again, a line feed between two of them *)
Fixpoint join_lines (ls : list jsstring) : jsstring :=
  match ls with
  | [] => []
  | l :: ls' =>
      match ls' with
      | [] => l
      | _ :: _ => l ++ 10%N :: join_lines ls'
      end
  end.

Definition has_cr (s : jsstring) : bool := existsb (N.eqb 13) s.
Definition has_lf (s : jsstring) : bool := existsb (N.eqb 10) s.

(** Whether a string ends with a carriage return *)
Definition ends_with_cr (s : jsstring) : bool :=
  match reverse s with
  | c :: _ => (c =? 13)%N
  | [] => false
  end.

(** A digit or the decimal point *)
Definition is_decimal_char (c : N) : bool := is_digit c || (c =? 46)%N.

(** An unsigned decimal: digits, or digits, a point and digits *)
Definition is_decimal (w : jsstring) : bool := is_some (parse_unsigned w).

(** Whether a string opens with a digit *)
Definition starts_with_digit (s : jsstring) : bool :=
  match s with
  | c :: _ => is_digit c
  | [] => false
  end.

(** The unsigned decimal a string opens with: the leading digits and, when
    a point and a digit follow them, the point and the digits after it *)
Definition leading_decimal (s : jsstring) : jsstring :=
  let ip := take_while is_digit s in
  match drop_while is_digit s with
  | c :: fp =>
      if (c =? 46)%N && starts_with_digit fp
      then ip ++ c :: take_while is_digit fp
      else ip
  | [] => ip
  end.

(** The first signed decimal of a string: it starts at the first digit, or
    at a minus sign that stands right before a digit *)
Fixpoint first_signed_decimal (s : jsstring) : option jsstring :=
  match s with
  | [] => None
  | c :: s' =>
      if is_digit c then Some (leading_decimal s)
      else if (c =? 45)%N && starts_with_digit s' then Some (c :: leading_decimal s')
      else first_signed_decimal s'
  end.

(** A rate field: [null] for a missing or empty metric string, otherwise
    the Number of its first signed decimal, NaN without one *)
Definition rate_field (v : option jsstring) : option number :=
  match v with
  | None => None
  | Some [] => None
  | Some (c :: s) =>
      Some (match first_signed_decimal (c :: s) with
            | Some t => Number t
            | None => NaN
            end)
  end.

(** A character that is neither a digit, nor a point, nor a minus sign: no
    numeric token goes across it *)
Definition breaks (c : N) : bool :=
  negb (is_digit c) && negb (c =? 46)%N && negb (c =? 45)%N.

(** [x || null] on a Number *)
Definition or_null (x : number) : option number :=
  if truthy x then Some x else None.

End Shapes.
Import Shapes.

(** ** What a content line means to the record builder *)

Module Lines.

(** The key and the value a line gives to [metrics] when the metric
    pattern matches it *)
Definition metric_of (raw : jsstring) : option (jsstring * jsstring) :=
  match exec App.re_metric raw with
  | Some m => Some (toLowerCase (default [] (group 1 m)), trim (default [] (group 2 m)))
  | None => None
  end.

(** A record whose answer fields agree: the answer line is a trimmed string
    that is not empty, and the numeric answer is what the extractor finds in
    it, a finite Number or [null]; without an answer line there is no
    numeric answer. *)
Definition answer_consistent (c : RawModelRecord) : Prop :=
  match answerLine c with
  | Some a =>
      a <> [] /\ trim a = a
      /\ numericAnswer c = App.extractNumberFromText (Some a)
      /\ match numericAnswer c with Some x => isFinite x = true | None => True end
  | None => numericAnswer c = None
  end.

(** Every key of [metrics] is a label and every value is trimmed. *)
Definition metrics_wellformed (c : RawModelRecord) : Prop :=
  forall k v, metrics c !! k = Some v -> In k labels /\ trim v = v.

(** How a line becomes the answer line: by one of the three markers, or by
    a standalone number of three digits or more without a metric word *)
Definition answer_rule (a : jsstring) : Prop :=
  App.early_answer a = true
  \/ (test App.re_standalone a = true /\ test App.re_metric_word a = false).

(** A record whose answer line and metrics come from the lines [L] *)
Definition from_lines (L : list jsstring) (c : RawModelRecord) : Prop :=
  (forall a, answerLine c = Some a ->
             exists l, In l L /\ a = trim l /\ answer_rule a)
  /\ (forall k v, metrics c !! k = Some v ->
                  exists l, In l L /\ metric_of l = Some (k, v)).

(** The words of the three markers of an early answer line,
    [/Step\s*5:/i], [/answer/i] and [/The\s+trains/i]: the letters in
    either case *)
Definition step5_word (w : jsstring) : Prop :=
  exists u ws, w = u ++ ws ++ lit "5:" /\ toLowerCase u = lit "step"
               /\ forallb is_white_space ws = true.
Definition answer_word (w : jsstring) : Prop := toLowerCase w = lit "answer".
Definition trains_word (w : jsstring) : Prop :=
  exists u ws v, w = u ++ ws ++ v /\ toLowerCase u = lit "the"
                 /\ ws <> [] /\ forallb is_white_space ws = true
                 /\ toLowerCase v = lit "trains".

(** A string that holds a word of [L] somewhere *)
Definition holds (L : jsstring -> Prop) (x : jsstring) : Prop :=
  exists a w b, x = a ++ w ++ b /\ L w.

(** The shape of a line that sets the metric [k] to [val]: a label in
    either case, a colon, white space or none, and a value without line
    terminators, which is stored trimmed *)
Definition metric_line (raw k val : jsstring) : Prop :=
  exists lab ws v, raw = lab ++ 58%N :: ws ++ v
    /\ toLowerCase lab = k /\ In k labels
    /\ forallb is_white_space ws = true
    /\ v <> [] /\ forallb is_dot v = true
    /\ val = trim v.

End Lines.
Import Lines.

(** ** What the page shows

    The rendering functions build DOM nodes. The model keeps what they put
    into the nodes: the texts, the classes and the order. The conversions
    of a Number to a string ([toFixed], template literals, [textContent])
    and [Math.floor] are built-ins of the engine, and [toLowerCase] goes by
    the case tables of Unicode; the development leaves them open. *)

Module View.

(** The dash shown for a missing value, and [' • '] *)
Definition dash : jsstring := [8212%N].
Definition bullet : jsstring := [32%N; 8226%N; 32%N].

Definition Infinity : number := S754_infinity false.

(** [v ?? d] on a Number or [null] *)
Definition nullish (v : option number) (d : number) : number :=
  match v with
  | Some x => x
  | None => d
  end.

(** [s || '—'] on a string or [null] *)
Definition or_dash (s : option jsstring) : jsstring :=
  match s with
  | Some (c :: s') => c :: s'
  | _ => dash
  end.

(** [Number.isFinite(v)] on a Number or [null] *)
Definition isFinite_of (v : option number) : bool :=
  match v with
  | Some x => isFinite x
  | None => false
  end.

(** [sec == null || isNaN(sec)] *)
Definition is_missing (v : option number) : bool :=
  match v with
  | Some x => isNaN x
  | None => true
  end.

(** [bits.join(sep)] *)
Fixpoint join (sep : jsstring) (bits : list jsstring) : jsstring :=
  match bits with
  | [] => []
  | b :: bits' =>
      match bits' with
      | [] => b
      | _ :: _ => b ++ sep ++ join sep bits'
      end
  end.

(** The logo element of a card or chip: left as in the template, given a
    source and an alternative text, or hidden *)
Inductive Logo :=
| Untouched
| Shown (src alt : jsstring)
| Hidden.

(** The texts of a card *)
Record Card := mk_card {
  card_name : jsstring;
  card_logo : Logo;
  card_badge : jsstring;
  card_badge_class : jsstring;
  card_answer : jsstring;
  card_total : jsstring;
  card_load : jsstring;
  card_prompt : jsstring;
  card_gen : jsstring
}.

(** What [renderGrid] leaves in the grid, with the two numbers of the
    counter *)
Inductive GridView :=
| NoMatch (shown total : nat)
| Cards (shown total : nat) (cards : list Card).

(** One side of a row of the comparison *)
Record Cell := mk_cell {
  cell_title : option jsstring;
  cell_label : jsstring;
  cell_value : jsstring;
  cell_better : bool
}.
Record Row := mk_row { row_a : Cell; row_b : Cell }.

(** A row without the titles of its cells *)
Definition without_titles (r : Row) : Row :=
  mk_row (mk_cell None (cell_label (row_a r)) (cell_value (row_a r)) (cell_better (row_a r)))
         (mk_cell None (cell_label (row_b r)) (cell_value (row_b r)) (cell_better (row_b r))).

(** What [renderCompare] leaves in the box: the invitation to pick two
    models, or the chips and the rows *)
Inductive CompareView :=
| PickTwo
| Compared (chips : list (Logo * jsstring)) (rows : list Row).

(** The answers of [betterFn] on a duration row, [(a ?? Infinity) - (b ??
    Infinity)], and on a token row, [(b ?? 0) - (a ?? 0)] *)
Definition duration_better (a b : option number) : number :=
  sub (nullish a Infinity) (nullish b Infinity).
Definition count_better (a b : option number) : number :=
  sub (nullish b zero) (nullish a zero).

(** [betterFn]'s answer turned into the two marks of [compareRow] *)
Definition marks (betterFn : option number) : bool * bool :=
  match betterFn with
  | Some c =>
      if lt c zero then (true, false)
      else if gt c zero then (false, true)
      else (false, false)
  | None => (false, false)
  end.

End View.
Import View.

(** *** app.js *)

Module AppView.

Section Render.

Variable toFixed : number -> nat -> jsstring.
Variable floor : number -> number.
Variable ToString : number -> jsstring.
Variable toLowerCaseUnicode : jsstring -> jsstring.

Definition fmtSeconds (sec : option number) : jsstring :=
  if is_missing sec then dash
  else
    let sec := nullish sec NaN in
    if lt sec (num "1") then toFixed (mul sec (num "1000")) 0 ++ lit " ms"
    else if lt sec (num "60") then toFixed sec 2 ++ lit " s"
    else
      let m := floor (div sec (num "60")) in
      let s := sub sec (mul m (num "60")) in
      ToString m ++ lit "m " ++ toFixed s 1 ++ lit "s".

(** [promptBits] and [genBits] *)
Definition bits (count duration : option number) : list jsstring :=
  (if isFinite_of count then [ToString (nullish count NaN) ++ lit " tok"] else [])
  ++ (if isFinite_of duration then [fmtSeconds duration] else []).

Definition createCard (model : ModelRecord) : Card :=
  mk_card (name (raw model)) Untouched
    (if correct model then lit "Correct" else lit "Incorrect")
    (if correct model then lit "correct" else lit "incorrect")
    (or_dash (answerLine (raw model)))
    (fmtSeconds (totalSeconds model))
    (fmtSeconds (loadSeconds model))
    (or_dash (Some (join bullet (bits (promptCount model) (promptDurationSeconds model)))))
    (or_dash (Some (join bullet (bits (evalCount model) (evalDurationSeconds model))))).

Definition renderGrid (models : list ModelRecord) (filter : jsstring) : GridView :=
  let q := toLowerCaseUnicode (trim filter) in
  let filtered :=
    if falsy (Some q) then models
    else List.filter (fun m => Part000.includes (toLowerCaseUnicode (name (raw m))) q)
           models in
  match filtered with
  | [] => NoMatch (length filtered) (length models)
  | _ :: _ => Cards (length filtered) (length models) (map createCard filtered)
  end.

Definition compareRow (label aVal bVal : jsstring) (betterFn : option number) : Row :=
  mk_row (mk_cell (Some (lit "Model A")) label aVal (fst (marks betterFn)))
         (mk_cell (Some (lit "Model B")) label bVal (snd (marks betterFn))).

(** [v ?? '—'] as [textContent] shows it *)
Definition count_text (v : option number) : jsstring :=
  match v with
  | Some x => ToString x
  | None => dash
  end.

(** The eight rows [renderCompare] pushes for the records [A] and [B] *)
Definition compare_rows (row : jsstring -> jsstring -> jsstring -> option number -> Row)
    (A B : ModelRecord) : list Row :=
  [ row (lit "Total duration") (fmtSeconds (totalSeconds A)) (fmtSeconds (totalSeconds B))
      (Some (duration_better (totalSeconds A) (totalSeconds B)));
    row (lit "Load duration") (fmtSeconds (loadSeconds A)) (fmtSeconds (loadSeconds B))
      (Some (duration_better (loadSeconds A) (loadSeconds B)));
    row (lit "Prompt tokens") (count_text (promptCount A)) (count_text (promptCount B))
      (Some (count_better (promptCount A) (promptCount B)));
    row (lit "Prompt duration") (fmtSeconds (promptDurationSeconds A))
      (fmtSeconds (promptDurationSeconds B))
      (Some (duration_better (promptDurationSeconds A) (promptDurationSeconds B)));
    row (lit "Generate tokens") (count_text (evalCount A)) (count_text (evalCount B))
      (Some (count_better (evalCount A) (evalCount B)));
    row (lit "Generate duration") (fmtSeconds (evalDurationSeconds A))
      (fmtSeconds (evalDurationSeconds B))
      (Some (duration_better (evalDurationSeconds A) (evalDurationSeconds B)));
    row (lit "Answer") (or_dash (answerLine (raw A))) (or_dash (answerLine (raw B))) None;
    row (lit "Correct?") (if correct A then lit "Correct" else lit "Incorrect")
      (if correct B then lit "Correct" else lit "Incorrect") None ].

(** [renderCompare]; [nameA] and [nameB] are the values of the two
    selection controls. *)
Definition renderCompare (models : list ModelRecord) (nameA nameB : jsstring)
    : CompareView :=
  let A := List.find (fun m => Part000.str_eq (name (raw m)) nameA) models in
  let B := List.find (fun m => Part000.str_eq (name (raw m)) nameB) models in
  match A, B with
  | Some A, Some B => Compared [] (compare_rows compareRow A B)
  | _, _ => PickTwo
  end.

End Render.

End AppView.

(** *** The later revision *)

Module Part000View.

Section Render.

Variable toFixed : number -> nat -> jsstring.
Variable floor : number -> number.
Variable ToString : number -> jsstring.
Variable toLowerCaseUnicode : jsstring -> jsstring.

Definition getLogoForName (modelName : option jsstring) : jsstring :=
  let n := toLowerCaseUnicode (match modelName with
                               | Some (c :: s) => c :: s
                               | _ => []
                               end) in
  if Part000.includes n (lit "qwen") then lit "public/qwen-icon-seeklogo.png"
  else if Part000.includes n (lit "llama")
  then lit "public/meta-icon-new-facebook-2021-logo-png_seeklogo-424014.png"
  else if Part000.includes n (lit "deepseek") then lit "public/deepseek-ai-icon-seeklogo.png"
  else if Part000.includes n (lit "devstral")
  then lit "public/mistral-ai-icon-logo-png_seeklogo-515008.png"
  else if Part000.includes n (lit "gpt-oss") then lit "public/chatgpt-seeklogo.png"
  else if Part000.includes n (lit "gemma")
  then lit "public/google-new-logo-png_seeklogo-622426.png"
  else [].

(** The logo of a card or chip of the record named [n] *)
Definition logo_of (n : jsstring) : Logo :=
  match getLogoForName (Some n) with
  | [] => Hidden
  | src => Shown src n
  end.

Definition fmtSeconds (sec : option number) : jsstring :=
  if is_missing sec then dash
  else
    let sec := nullish sec NaN in
    if lt sec (num "1") then toFixed (mul sec (num "1000")) 0 ++ lit " ms"
    else if lt sec (num "60") then toFixed sec 2 ++ lit " s"
    else
      let m := floor (div sec (num "60")) in
      let s := sub sec (mul m (num "60")) in
      ToString m ++ lit "m " ++ toFixed s 1 ++ lit "s".

Definition bits (count duration : option number) : list jsstring :=
  (if isFinite_of count then [ToString (nullish count NaN) ++ lit " tok"] else [])
  ++ (if isFinite_of duration then [fmtSeconds duration] else []).

Definition createCard (model : ModelRecord) : Card :=
  mk_card (name (raw model)) (logo_of (name (raw model)))
    (if correct model then lit "Correct" else lit "Incorrect")
    (if correct model then lit "correct" else lit "incorrect")
    (or_dash (answerLine (raw model)))
    (fmtSeconds (totalSeconds model))
    (fmtSeconds (loadSeconds model))
    (or_dash (Some (join bullet (bits (promptCount model) (promptDurationSeconds model)))))
    (or_dash (Some (join bullet (bits (evalCount model) (evalDurationSeconds model))))).

(** [renderGrid] with the cards, [cfg] being [SORT] at the time of the call *)
Definition renderGrid (cfg : Part000.SortState) (models : list ModelRecord)
    (filter : jsstring) : GridView :=
  let filtered := Part000.renderGrid toLowerCaseUnicode cfg models filter in
  match filtered with
  | [] => NoMatch (length filtered) (length models)
  | _ :: _ => Cards (length filtered) (length models) (map createCard filtered)
  end.

Definition compareRow (label aVal bVal : jsstring) (betterFn : option number) : Row :=
  mk_row (mk_cell None label aVal (fst (marks betterFn)))
         (mk_cell None label bVal (snd (marks betterFn))).

Definition makeChip (m : ModelRecord) : Logo * jsstring :=
  (logo_of (name (raw m)), name (raw m)).

Definition renderCompare (models : list ModelRecord) (nameA nameB : jsstring)
    : CompareView :=
  let A := List.find (fun m => Part000.str_eq (name (raw m)) nameA) models in
  let B := List.find (fun m => Part000.str_eq (name (raw m)) nameB) models in
  match A, B with
  | Some A, Some B =>
      Compared [makeChip A; makeChip B]
        (AppView.compare_rows toFixed floor ToString compareRow A B)
  | _, _ => PickTwo
  end.

(** The two handlers of [init] that write [SORT] *)
Definition on_sortBy_change (cfg : Part000.SortState) (value : jsstring)
    : Part000.SortState :=
  Part000.mk_sort value (Part000.sort_dir cfg).
Definition on_sortDir_click (cfg : Part000.SortState) : Part000.SortState :=
  Part000.mk_sort (Part000.sort_by cfg)
    (if Part000.str_eq (Part000.sort_dir cfg) (lit "asc") then lit "desc" else lit "asc").

(** The text the direction button shows once the click has set the
    direction of [cfg] *)
Definition sortDir_text (cfg : Part000.SortState) : jsstring :=
  if Part000.str_eq (Part000.sort_dir cfg) (lit "asc") then lit "Asc" else lit "Desc".

End Render.

(** The values [SORT] takes while the handlers run *)
Inductive reachable : Part000.SortState -> Prop :=
| reach_init : reachable Part000.SORT
| reach_by cfg value : reachable cfg -> reachable (on_sortBy_change cfg value)
| reach_dir cfg : reachable cfg -> reachable (on_sortDir_click cfg).

End Part000View.

(** ** Facts about Numbers *)

Module NumberFacts.

Lemma shr_1_nonneg mrs : (0 <= shr_m mrs)%Z -> (0 <= shr_m (shr_1 mrs))%Z.
Proof.
  destruct mrs as [m r s]; simpl. intros Hm.
  destruct m as [|p|p]; [simpl; lia| |lia].
  destruct p; simpl; lia.
Qed.

Lemma iter_shr_1_nonneg p mrs :
  (0 <= shr_m mrs)%Z -> (0 <= shr_m (SpecFloat.iter_pos shr_1 p mrs))%Z.
Proof.
  revert mrs. induction p as [p IH|p IH|]; intros mrs Hm; simpl.
  - apply IH, IH, shr_1_nonneg, Hm.
  - apply IH, IH, Hm.
  - apply shr_1_nonneg, Hm.
Qed.

Lemma shr_fexp_nonneg m e l :
  (0 <= m)%Z -> (0 <= shr_m (fst (shr_fexp prec emax m e l)))%Z.
Proof.
  intros Hm. unfold shr_fexp, shr.
  assert (H0 : (0 <= shr_m (shr_record_of_loc m l))%Z).
  { destruct l as [|[]]; simpl; exact Hm. }
  destruct (fexp prec emax (Zdigits2 m + e) - e)%Z; simpl; auto.
  apply iter_shr_1_nonneg, H0.
Qed.

Lemma round_nearest_even_nonneg m l :
  (0 <= m)%Z -> (0 <= round_nearest_even m l)%Z.
Proof.
  intros Hm. destruct l as [|[]]; simpl; try lia.
  destruct (Z.even m); lia.
Qed.

(** Rounding a mantissa that is not negative keeps the sign and never
    yields NaN. *)
Lemma binary_round_aux_sign sx mx ex lx :
  (0 <= mx)%Z ->
  match binary_round_aux prec emax sx mx ex lx with
  | S754_zero s | S754_infinity s | S754_finite s _ _ => s = sx
  | S754_nan => False
  end.
Proof.
  intros Hm. unfold binary_round_aux.
  pose proof (shr_fexp_nonneg mx ex lx Hm) as H1.
  destruct (shr_fexp prec emax mx ex lx) as [mrs' e'] eqn:E1. simpl in H1.
  pose proof (shr_fexp_nonneg _ e' loc_Exact
                (round_nearest_even_nonneg _ (loc_of_shr_record mrs') H1)) as H2.
  destruct (shr_fexp prec emax _ e' loc_Exact) as [mrs'' e''] eqn:E2. simpl in H2.
  destruct (shr_m mrs'') as [|p|p]; [reflexivity| |lia].
  destruct (e'' <=? emax - prec)%Z; reflexivity.
Qed.

Lemma binary_round_aux_nonneg mx ex lx :
  (0 <= mx)%Z -> nonneg (binary_round_aux prec emax false mx ex lx).
Proof.
  intros Hm. pose proof (binary_round_aux_sign false mx ex lx Hm) as H.
  unfold nonneg. destruct (binary_round_aux prec emax false mx ex lx); subst; auto.
Qed.

Lemma mul_nonneg x y : nonneg x -> positive_finite y -> nonneg (mul x y).
Proof.
  destruct y as [| | |[] m e]; simpl; try tauto.
  destruct x as [[]|[]| |[] mx ex]; simpl; try tauto. intros _ _.
  apply binary_round_aux_nonneg. lia.
Qed.

Lemma div_nonneg x y : nonneg x -> positive_finite y -> nonneg (div x y).
Proof.
  destruct y as [| | |[] m e]; simpl; try tauto.
  destruct x as [[]|[]| |[] mx ex]; simpl; try tauto. intros _ _.
  unfold SFdiv_core_binary.
  set (m' := match _ with Z0 => _ | Zpos _ => _ | Zneg _ => _ end).
  assert (Hm' : (0 <= m')%Z).
  { subst m'. destruct (_ - _ - _)%Z; try lia. apply Z.shiftl_nonneg. lia. }
  pose proof (Z.div_eucl_eq m' (Z.pos m) ltac:(lia)) as Hq.
  pose proof (Z.mod_pos_bound m' (Z.pos m) ltac:(lia)) as Hr.
  unfold Z.modulo in Hr.
  destruct (Z.div_eucl m' (Z.pos m)) as [q r].
  apply binary_round_aux_nonneg. nia.
Qed.

Lemma add_nonneg x y : nonneg x -> nonneg y -> nonneg (add x y).
Proof.
  destruct x as [[]|[]| |[] mx ex]; simpl; try tauto;
  destruct y as [[]|[]| |[] my ey]; simpl; try tauto.
  intros _ _. unfold binary_normalize, binary_round.
  destruct (shl_align _ _ _) as [mz ez].
  apply binary_round_aux_nonneg. lia.
Qed.

Lemma of_decimal_nonneg ip fp : nonneg (of_decimal false ip fp).
Proof.
  unfold of_decimal. destruct (digits_value (ip ++ fp)); [exact I|].
  apply div_nonneg; exact I.
Qed.

Lemma div_not_nan sx mx ex my ey :
  isNaN (div (S754_finite sx mx ex) (S754_finite false my ey)) = false.
Proof.
  simpl. unfold SFdiv_core_binary.
  set (m' := match _ with Z0 => _ | Zpos _ => _ | Zneg _ => _ end).
  assert (Hm' : (0 <= m')%Z).
  { subst m'. destruct (_ - _ - _)%Z; try lia. apply Z.shiftl_nonneg. lia. }
  pose proof (Z.div_eucl_eq m' (Z.pos my) ltac:(lia)) as Hq.
  pose proof (Z.mod_pos_bound m' (Z.pos my) ltac:(lia)) as Hr.
  unfold Z.modulo in Hr.
  destruct (Z.div_eucl m' (Z.pos my)) as [q r].
  assert (Hq0 : (0 <= q)%Z) by nia.
  pose proof (binary_round_aux_sign (xorb sx false) q
                (Z.min (fexp prec emax (Zdigits2 (Z.pos mx) + ex - (Zdigits2 (Z.pos my) + ey)))
                   (ex - ey))
                (new_location (Z.pos my) r) Hq0) as H.
  destruct (binary_round_aux _ _ _ _ _ _); try reflexivity. contradiction.
Qed.

Lemma of_decimal_not_nan sg ip fp : isNaN (of_decimal sg ip fp) = false.
Proof.
  unfold of_decimal. destruct (digits_value (ip ++ fp)); [reflexivity|].
  apply div_not_nan.
Qed.

Lemma nonneg_truthy x : nonneg x -> truthy x = negb (strict_eq x zero).
Proof. destruct x as [[]|[]| |[] mx ex]; simpl; tauto. Qed.

End NumberFacts.
Import NumberFacts.

(** ** Facts about the matchers *)

Module RegexFacts.

Lemma consumes_weaken r (L L' : jsstring -> Prop) :
  consumes r L -> (forall w, L w -> L' w) -> consumes r L'.
Proof.
  intros Hr HL st k res H. destruct (Hr st k res H) as (w & st' & ? & ? & ? & ?).
  exists w, st'. auto.
Qed.

Lemma consumes_eps : consumes re_eps (fun w => w = []).
Proof. intros st k res H. exists [], st. auto. Qed.

Lemma consumes_class p :
  consumes (re_class p) (fun w => exists c, w = [c] /\ p c = true).
Proof.
  intros st k res H. unfold re_class in H.
  destruct (r_rest st) as [|c s'] eqn:E; [discriminate|].
  destruct (p c) eqn:Ep; [|discriminate].
  exists [c], (mk_rstate (Some c) s' (r_caps st)). simpl.
  repeat split; eauto.
Qed.

Lemma consumes_seq a b (La Lb : jsstring -> Prop) :
  consumes a La -> consumes b Lb ->
  consumes (re_seq a b) (fun w => exists u v, w = u ++ v /\ La u /\ Lb v).
Proof.
  intros Ha Hb st k res H. unfold re_seq in H.
  destruct (Ha _ _ _ H) as (u & st1 & E1 & C1 & Lu & H1).
  destruct (Hb _ _ _ H1) as (v & st2 & E2 & C2 & Lv & H2).
  exists (u ++ v), st2. rewrite E1, E2, C2, C1, app_assoc.
  repeat split; eauto.
Qed.

Lemma consumes_alt a b (La Lb : jsstring -> Prop) :
  consumes a La -> consumes b Lb ->
  consumes (re_alt a b) (fun w => La w \/ Lb w).
Proof.
  intros Ha Hb st k res H. unfold re_alt in H.
  destruct (a st k) as [r|] eqn:E.
  - injection H as ->. destruct (Ha _ _ _ E) as (w & st' & ? & ? & ? & ?).
    exists w, st'. auto.
  - destruct (Hb _ _ _ H) as (w & st' & ? & ? & ? & ?).
    exists w, st'. auto.
Qed.

Lemma consumes_opt a (La : jsstring -> Prop) :
  consumes a La -> consumes (re_opt a) (fun w => La w \/ w = []).
Proof. intros Ha. apply consumes_alt; [exact Ha | apply consumes_eps]. Qed.

Lemma star_from_sound p prev s caps k res :
  star_from p prev s caps k = Some res ->
  exists w prev' s', s = w ++ s' /\ forallb p w = true
                     /\ k (mk_rstate prev' s' caps) = Some res.
Proof.
  revert prev. induction s as [|c s IH]; intros prev H; simpl in H.
  - exists [], prev, []. auto.
  - destruct (p c) eqn:Ep.
    + destruct (star_from p (Some c) s caps k) as [r|] eqn:E.
      * injection H as ->.
        destruct (IH _ E) as (w & prev' & s' & -> & Hw & Hk).
        exists (c :: w), prev', s'. simpl. rewrite Ep, Hw. auto.
      * exists [], prev, (c :: s). auto.
    + exists [], prev, (c :: s). auto.
Qed.

Lemma consumes_star p : consumes (re_star p) (fun w => forallb p w = true).
Proof.
  intros st k res H. unfold re_star in H.
  destruct (star_from_sound _ _ _ _ _ _ H) as (w & prev' & s' & E & Hw & Hk).
  exists w, (mk_rstate prev' s' (r_caps st)). auto.
Qed.

Lemma consumes_plus p :
  consumes (re_plus p) (fun w => forallb p w = true /\ w <> []).
Proof.
  eapply consumes_weaken.
  - apply consumes_seq; [apply consumes_class | apply consumes_star].
  - intros w (u & v & -> & (c & -> & Hc) & Hv). simpl. rewrite Hc, Hv. auto.
Qed.

Lemma consumes_str s : consumes (re_str s) (fun w => w = s).
Proof.
  induction s as [|c s IH]; simpl; [apply consumes_eps|].
  eapply consumes_weaken.
  - apply consumes_seq; [apply consumes_class | exact IH].
  - intros w (u & v & -> & (d & -> & Hd) & ->).
    apply N.eqb_eq in Hd. subst. reflexivity.
Qed.

(** The text a group records is the word its pattern read. *)
Lemma consumed_app st st' w :
  r_rest st = w ++ r_rest st' -> consumed st st' = w.
Proof.
  intros E. unfold consumed. rewrite E, length_app.
  replace (length w + length (r_rest st') - length (r_rest st')) with (length w) by lia.
  apply take_app_length.
Qed.

Lemma group_sound n r (L : jsstring -> Prop) :
  consumes r L ->
  forall st k res, re_group n r st k = Some res ->
    exists w st', r_rest st = w ++ r_rest st' /\ L w
                  /\ r_caps st' = (n, w) :: r_caps st /\ k st' = Some res.
Proof.
  intros Hr st k res H. unfold re_group in H.
  destruct (Hr _ _ _ H) as (w & st' & E & C & Lw & Hk).
  exists w, (mk_rstate (r_prev st') (r_rest st') ((n, consumed st st') :: r_caps st')).
  simpl. rewrite (consumed_app _ _ _ E) in *. rewrite C in *. repeat split; auto.
Qed.

(** [exec] answers with what one attempt found. *)
Lemma exec_from_sound r prev s i m :
  exec_from r prev s i = Some m ->
  exists pre prev' s' st,
    s = pre ++ s' /\ m_index m = i + length pre
    /\ match_at r prev' s' = Some st
    /\ m_text m = take (length s' - length (r_rest st)) s'
    /\ m_caps m = r_caps st /\ m_after m = r_rest st.
Proof.
  revert prev i. induction s as [|c s IH]; intros prev i H; simpl in H.
  - destruct (match_at r prev []) as [st|] eqn:E; [|discriminate].
    injection H as <-. exists [], prev, [], st. simpl. rewrite Nat.add_0_r.
    repeat split; auto.
  - destruct (match_at r prev (c :: s)) as [st|] eqn:E.
    + injection H as <-. exists [], prev, (c :: s), st. simpl.
      rewrite Nat.add_0_r. repeat split; auto.
    + destruct (IH _ _ H) as (pre & prev' & s' & st & -> & Hi & Hm & Ht & Hc & Ha).
      exists (c :: pre), prev', s', st. simpl. rewrite Hi.
      split; [reflexivity|]. split; [lia|]. repeat split; auto.
Qed.

End RegexFacts.
Import RegexFacts.

(** ** Facts about strings *)

Module StringFacts.

Lemma drop_while_idem p s : drop_while p (drop_while p s) = drop_while p s.
Proof.
  induction s as [|c s IH]; simpl; [reflexivity|].
  destruct (p c) eqn:E; [exact IH|]. simpl. rewrite E. reflexivity.
Qed.

Lemma drop_while_head p s c s' : drop_while p s = c :: s' -> p c = false.
Proof.
  induction s as [|d s IH]; simpl; [discriminate|].
  destruct (p d) eqn:E; [exact IH|]. intros [= -> _]. exact E.
Qed.

Lemma drop_while_snoc p l c :
  p c = false -> drop_while p (l ++ [c]) = drop_while p l ++ [c].
Proof.
  intros Hc. induction l as [|a l IH]; simpl; [rewrite Hc; reflexivity|].
  destruct (p a); [exact IH | reflexivity].
Qed.

Lemma drop_while_all p (a b : jsstring) :
  forallb p a = true -> drop_while p (a ++ b) = drop_while p b.
Proof.
  induction a as [|c a IH]; simpl; [reflexivity|].
  intros H. apply andb_true_iff in H as [-> H]. exact (IH H).
Qed.

Lemma drop_while_length p s : length (drop_while p s) <= length s.
Proof.
  induction s as [|c s IH]; simpl; [lia|]. destruct (p c); simpl; lia.
Qed.

Lemma take_drop_while p s : take_while p s ++ drop_while p s = s.
Proof.
  induction s as [|c s IH]; simpl; [reflexivity|].
  destruct (p c); simpl; [rewrite IH|]; reflexivity.
Qed.

Lemma take_while_take p s :
  take (length s - length (drop_while p s)) s = take_while p s.
Proof.
  rewrite <- (take_drop_while p s) at 1 3.
  rewrite length_app.
  replace (length (take_while p s) + length (drop_while p s) - length (drop_while p s))
    with (length (take_while p s)) by lia.
  apply take_app_length.
Qed.

Lemma trimEnd_cons c s :
  is_white_space c = false -> trimEnd (c :: s) = c :: trimEnd s.
Proof.
  intros Hc. unfold trimEnd, trimStart. rewrite reverse_cons.
  rewrite (drop_while_snoc _ _ _ Hc), reverse_app. reflexivity.
Qed.

Lemma trimEnd_idem s : trimEnd (trimEnd s) = trimEnd s.
Proof.
  unfold trimEnd, trimStart. rewrite reverse_involutive, drop_while_idem. reflexivity.
Qed.

(** A trimmed string is empty or begins with a code unit that is not white
    space. *)
Lemma trim_head s :
  match trim s with
  | [] => True
  | c :: _ => is_white_space c = false
  end.
Proof.
  unfold trim. destruct (trimStart s) as [|c t] eqn:E; [exact I|].
  pose proof (drop_while_head _ _ _ _ E) as Hc.
  rewrite (trimEnd_cons _ _ Hc). exact Hc.
Qed.

Lemma trimStart_trim s : trimStart (trim s) = trim s.
Proof.
  pose proof (trim_head s) as H. destruct (trim s) as [|c t]; [reflexivity|].
  unfold trimStart. simpl. rewrite H. reflexivity.
Qed.

Lemma trimEnd_trim s : trimEnd (trim s) = trim s.
Proof. unfold trim. apply trimEnd_idem. Qed.

Lemma trim_idem s : trim (trim s) = trim s.
Proof. unfold trim at 1. rewrite trimStart_trim. apply trimEnd_trim. Qed.

(** No white space is left at the end: a suffix made of white space only
    is empty. *)
Lemma trimEnd_fixed_suffix x pre w :
  trimEnd x = x -> x = pre ++ w -> forallb is_white_space w = true -> w = [].
Proof.
  intros Hx -> Hw.
  assert (Hlen : length (trimEnd (pre ++ w)) <= length pre).
  { unfold trimEnd, trimStart. rewrite length_reverse, reverse_app.
    rewrite drop_while_all.
    - etransitivity; [apply drop_while_length|]. rewrite length_reverse. lia.
    - clear Hx. rewrite forallb_forall in *. intros c Hc. apply Hw.
      apply list_elem_of_In. apply list_elem_of_In in Hc.
      rewrite elem_of_reverse in Hc. exact Hc. }
  rewrite Hx, length_app in Hlen. destruct w; [reflexivity|simpl in Hlen; lia].
Qed.

Lemma startsWith_refl s : startsWith s s = true.
Proof. induction s as [|c s IH]; simpl; [reflexivity|]. rewrite N.eqb_refl. exact IH. Qed.

End StringFacts.
Import StringFacts.

(** ** Facts about the patterns of the program *)

Module DurationFacts.

Lemma all_digits_plus w :
  forallb is_digit w = true /\ w <> [] -> all_digits w = true.
Proof.
  intros [H Hne]. unfold all_digits. rewrite H. destruct w; [congruence|reflexivity].
Qed.

Lemma consumes_decimal :
  consumes (re_seq (re_plus is_digit) (re_opt (re_seq (re_char 46) (re_plus is_digit))))
           decimal_word.
Proof.
  eapply consumes_weaken.
  - apply consumes_seq; [apply consumes_plus|].
    apply consumes_opt, consumes_seq; [apply consumes_class | apply consumes_plus].
  - intros w (ip & v & -> & Hip & Hv). exists ip.
    destruct Hv as [(d & fp & -> & (c & -> & Hc) & Hfp) | ->].
    + apply N.eqb_eq in Hc. subst c. exists fp. split; [apply all_digits_plus, Hip|].
      right. split; [apply all_digits_plus, Hfp | reflexivity].
    + exists []. split; [apply all_digits_plus, Hip|]. left. rewrite app_nil_r. auto.
Qed.

(** The first group of a match of a unit pattern is a decimal literal. *)
Lemma unit_capture u s m :
  exec (App.re_unit u) s = Some m ->
  exists w, group 1 m = Some w /\ decimal_word w.
Proof.
  intros H. apply exec_from_sound in H.
  destruct H as (pre & prev' & s' & st & _ & _ & Hm & _ & Hc & _).
  unfold match_at, App.re_unit, re_seq in Hm.
  destruct (group_sound 1 _ _ consumes_decimal _ _ _ Hm) as (w & st' & _ & Lw & Hcaps & Hk).
  destruct (consumes_str u _ _ _ Hk) as (_ & st'' & _ & Hcaps' & _ & Hres).
  injection Hres as <-. exists w. split; [|exact Lw].
  unfold group. rewrite Hc, Hcaps', Hcaps. reflexivity.
Qed.

Lemma take_drop_while_stop p (w rest : jsstring) :
  forallb p w = true ->
  match rest with [] => True | c :: _ => p c = false end ->
  take_while p (w ++ rest) = w /\ drop_while p (w ++ rest) = rest.
Proof.
  intros Hw Hr. induction w as [|c w IH]; simpl in *.
  - destruct rest as [|c rest]; simpl; [auto|]. rewrite Hr. auto.
  - apply andb_true_iff in Hw as [Hc Hw]. rewrite Hc.
    destruct (IH Hw) as [-> ->]. auto.
Qed.

Lemma digit_not_minus c : is_digit c = true -> (c =? 45)%N = false.
Proof. unfold is_digit. intros H. apply andb_true_iff in H as [H _].
  apply N.leb_le in H. apply N.eqb_neq. lia. Qed.

Lemma parse_unsigned_word w :
  decimal_word w -> exists ip fp, parse_unsigned w = Some (ip, fp).
Proof.
  intros (ip & fp & Hip & Hw). exists ip, fp.
  assert (Hip' := Hip). unfold all_digits in Hip'.
  apply andb_true_iff in Hip' as [Hd Hn].
  unfold parse_unsigned. destruct Hw as [[-> ->] | [Hfp ->]].
  - destruct (take_drop_while_stop is_digit ip [] Hd I) as [E1 E2].
    rewrite app_nil_r in E1, E2. rewrite E1, E2, Hip. reflexivity.
  - destruct (take_drop_while_stop is_digit ip (46%N :: fp) Hd eq_refl) as [E1 E2].
    rewrite E1, E2, Hip, Hfp. reflexivity.
Qed.

Lemma decimal_word_head w :
  decimal_word w -> exists c w', w = c :: w' /\ is_digit c = true.
Proof.
  intros (ip & fp & Hip & Hw). unfold all_digits in Hip.
  apply andb_true_iff in Hip as [Hd Hn].
  destruct ip as [|d ip]; [discriminate|]. simpl in Hd.
  apply andb_true_iff in Hd as [Hd0 _].
  destruct Hw as [[_ ->]|[_ ->]]; simpl; eauto.
Qed.

Lemma parse_decimal_word w :
  decimal_word w -> exists ip fp, parse_decimal w = Some (false, ip, fp).
Proof.
  intros Hw. destruct (parse_unsigned_word _ Hw) as (ip & fp & Hu).
  destruct (decimal_word_head _ Hw) as (c & w' & -> & Hc).
  exists ip, fp. unfold parse_decimal.
  rewrite (digit_not_minus _ Hc), Hu. reflexivity.
Qed.

Lemma parse_signed_word w :
  signed_decimal_word w -> exists sg ip fp, parse_decimal w = Some (sg, ip, fp).
Proof.
  intros [Hw | (d & -> & Hd)].
  - destruct (parse_unsigned_word _ Hw) as (ip & fp & Hu).
    destruct (decimal_word_head _ Hw) as (c & w' & -> & Hc).
    exists false, ip, fp. unfold parse_decimal.
    rewrite (digit_not_minus _ Hc), Hu. reflexivity.
  - destruct (parse_unsigned_word _ Hd) as (ip & fp & Hu).
    exists true, ip, fp. unfold parse_decimal. rewrite N.eqb_refl, Hu. reflexivity.
Qed.

Lemma consumes_number : consumes App.re_number signed_decimal_word.
Proof.
  eapply consumes_weaken.
  - apply consumes_seq; [apply consumes_opt, consumes_class | apply consumes_decimal].
  - intros w (u & v & -> & Hu & Hv).
    destruct Hu as [(c & -> & Hc) | ->].
    + apply N.eqb_eq in Hc. subst c. right. exists v. auto.
    + left. exact Hv.
Qed.

Lemma match_at_consumed r (L : jsstring -> Prop) prev s st :
  consumes r L -> match_at r prev s = Some st ->
  L (take (length s - length (r_rest st)) s).
Proof.
  intros Hr H. unfold match_at in H.
  destruct (Hr _ _ _ H) as (w & st' & E & _ & Lw & Hk). injection Hk as ->.
  simpl in E. rewrite E, length_app.
  replace (length w + length (r_rest st) - length (r_rest st)) with (length w) by lia.
  rewrite take_app_length. exact Lw.
Qed.

(** Every text [match] collects is the text of one match. *)
Lemma match_all_sound r (L : jsstring -> Prop) prev s skip :
  consumes r L -> Forall L (match_all_from r prev s skip).
Proof.
  intros Hr. revert prev skip. induction s as [|c s IH]; intros prev skip.
  - simpl. destruct skip; [|constructor].
    destruct (match_at r prev []) as [st|] eqn:E; constructor; [|constructor].
    exact (match_at_consumed _ _ _ _ _ Hr E).
  - cbn [match_all_from]. destruct skip as [|n]; [|apply IH].
    destruct (match_at r prev (c :: s)) as [st|] eqn:E; [|apply IH].
    constructor; [|apply IH]. exact (match_at_consumed _ _ _ _ _ Hr E).
Qed.

Lemma token_number_not_nan text :
  Forall (fun t => isNaN (Number t) = false) (numeric_tokens text).
Proof.
  unfold numeric_tokens, match_all.
  eapply Forall_impl; [apply (match_all_sound _ _ _ _ _ consumes_number)|].
  intros t Ht. destruct (parse_signed_word _ Ht) as (sg & ip & fp & Hp).
  unfold Number. rewrite Hp. apply of_decimal_not_nan.
Qed.

Lemma parseFloat_capture_nonneg u s m :
  exec (App.re_unit u) s = Some m -> nonneg (parseFloat_of (group 1 m)).
Proof.
  intros H. destruct (unit_capture _ _ _ H) as (w & -> & Hw).
  destruct (parse_decimal_word _ Hw) as (ip & fp & Hp).
  simpl. unfold parseFloat, Number. rewrite Hp. apply of_decimal_nonneg.
Qed.

(** The sum [parseDurationToSeconds] returns is never NaN nor negative. *)
Lemma duration_sum_nonneg s : nonneg (App.duration_sum s).
Proof.
  unfold App.duration_sum.
  assert (H0 : nonneg zero) by exact I.
  destruct (exec (App.re_unit (lit "m")) s) as [mm|] eqn:Em;
  destruct (exec (App.re_unit (lit "s")) s) as [ms|] eqn:Es;
  destruct (exec (App.re_unit (lit "ms")) s) as [mms|] eqn:Ems;
  repeat first
    [ exact H0
    | apply add_nonneg
    | apply mul_nonneg; [|exact I]
    | apply div_nonneg; [|exact I]
    | eapply parseFloat_capture_nonneg; eassumption ].
Qed.

End DurationFacts.
Import DurationFacts.

Module PatternFacts.

Lemma eol_sound st k res :
  re_eol st k = Some res -> r_rest st = [] /\ k st = Some res.
Proof. unfold re_eol. destruct (r_rest st); [auto | discriminate]. Qed.

(** A pattern that opens with [^] matches at the start or nowhere. *)
Lemma exec_from_bol_later r c s i :
  exec_from (re_seq re_bol r) (Some c) s i = None.
Proof.
  revert c i. induction s as [|d s IH]; intros c i; simpl; [reflexivity|]. apply IH.
Qed.

Lemma test_bol r s :
  test (re_seq re_bol r) s = is_some (r (mk_rstate None s []) Some).
Proof.
  unfold test, exec. destruct s as [|c s]; cbn [exec_from].
  - unfold match_at, re_seq, re_bol. cbn [r_prev]. destruct (r _ Some); reflexivity.
  - unfold match_at at 1, re_seq at 1, re_bol at 1. cbn [r_prev].
    destruct (r _ Some); [reflexivity|]. rewrite exec_from_bol_later. reflexivity.
Qed.

(** With nothing after it, a greedy star takes the whole run. *)
Lemma star_from_greedy p prev s caps :
  exists prev', star_from p prev s caps Some
                = Some (mk_rstate prev' (drop_while p s) caps).
Proof.
  revert prev. induction s as [|c s IH]; intros prev; simpl; [eauto|].
  destruct (p c); [|eauto].
  destruct (IH (Some c)) as [prev' ->]. eauto.
Qed.

(** Before [$], a star succeeds exactly on a run that reaches the end. *)
Lemma star_from_eol p prev s caps :
  is_some (star_from p prev s caps (fun st => re_eol st Some)) = forallb p s.
Proof.
  revert prev. induction s as [|c s IH]; intros prev; simpl; [reflexivity|].
  destruct (p c); [|reflexivity].
  specialize (IH (Some c)).
  destruct (star_from p (Some c) s caps _); simpl in *; [exact IH|].
  rewrite <- IH. reflexivity.
Qed.

(** [/\s+$/] finds nothing in a string that [trimEnd] leaves alone. *)
Lemma trailing_space_none x :
  trimEnd x = x -> exec App.re_trailing_space x = None.
Proof.
  intros Hx. destruct (exec App.re_trailing_space x) as [m|] eqn:E; [|reflexivity].
  apply exec_from_sound in E.
  destruct E as (pre & prev' & s' & st & Hs & _ & Hm & _).
  unfold match_at, App.re_trailing_space, re_seq in Hm.
  destruct (consumes_plus is_white_space _ _ _ Hm) as (w & st' & Hr & _ & [Hw Hne] & Hk).
  apply eol_sound in Hk as [Hnil _]. simpl in Hr. rewrite Hnil, app_nil_r in Hr.
  subst s'. pose proof (trimEnd_fixed_suffix _ _ _ Hx Hs Hw). contradiction.
Qed.

Lemma header_name_trim raw : header_name raw = trim raw.
Proof.
  unfold header_name, replace_first.
  rewrite (trailing_space_none _ (trimEnd_trim raw)). reflexivity.
Qed.

(** A header line begins with a character of the name class. *)
Lemma header_head line :
  test App.re_header line = true ->
  exists c s, line = c :: s /\ is_name_char c = true.
Proof.
  unfold App.re_header. rewrite test_bol.
  destruct (re_seq _ _ _ Some) as [res|] eqn:E; [|discriminate]. intros _.
  unfold re_seq, re_plus, re_seq, re_class in E. simpl in E.
  destruct line as [|c s]; [discriminate|].
  destruct (is_name_char c) eqn:Hc; [|discriminate]. eauto.
Qed.

Lemma name_char_not_space c : is_name_char c = true -> is_white_space c = false.
Proof.
  unfold is_name_char, is_white_space, is_upper, is_lower, is_digit, is_line_terminator.
  rewrite !orb_true_iff, !andb_true_iff, !N.leb_le, !N.eqb_eq.
  intros H. rewrite !orb_false_iff, !andb_false_iff, !N.leb_gt, !N.eqb_neq. lia.
Qed.

Lemma name_char_not_backtick c : is_name_char c = true -> (96 =? c)%N = false.
Proof.
  unfold is_name_char, is_upper, is_lower, is_digit.
  rewrite !orb_true_iff, !andb_true_iff, !N.leb_le, !N.eqb_eq.
  intros H. rewrite N.eqb_neq. lia.
Qed.

Lemma header_classify raw :
  classify raw = Header <-> is_header raw = true.
Proof.
  unfold classify, is_blank, is_fenced, is_header, App.isModelHeader.
  rewrite trim_idem.
  destruct (test App.re_header (trim raw)) eqn:E.
  - destruct (header_head _ E) as (c & s & -> & Hc).
    unfold fence. change (lit "```") with [96; 96; 96]%N. cbn [falsy startsWith].
    rewrite (name_char_not_backtick _ Hc). cbn [andb]. tauto.
  - destruct (falsy (Some (trim raw))), (startsWith fence (trim raw)); split; discriminate.
Qed.

(** [/^-?\d{3,}$/] *)
Lemma at_least_eol n p st :
  is_some (re_at_least n p st (fun st' => re_eol st' Some))
  = forallb p (r_rest st) && (n <=? length (r_rest st)).
Proof.
  destruct st as [prev s caps]. simpl.
  revert prev s. induction n as [|n IH]; intros prev s; simpl.
  - unfold re_star. simpl. rewrite star_from_eol, andb_true_r. reflexivity.
  - unfold re_seq, re_class. simpl. destruct s as [|c s]; simpl; [reflexivity|].
    destruct (p c); simpl; [|reflexivity]. apply IH.
Qed.

Lemma big_int_test t : test App.re_big_int t = is_big_integer t.
Proof.
  unfold App.re_big_int. rewrite test_bol.
  pose proof (at_least_eol 3 is_digit) as HA.
  assert (Hminus : forall prev s caps k,
             re_at_least 3 is_digit (mk_rstate prev (45%N :: s) caps) k = None)
    by reflexivity.
  remember (re_at_least 3 is_digit) as A eqn:EA.
  unfold is_big_integer, unsigned_part.
  unfold re_seq, re_opt, re_alt, re_char, re_class, re_eps. cbn [r_rest r_caps].
  destruct t as [|c t'].
  - exact (HA (mk_rstate None [] [])).
  - rewrite (N.eqb_sym 45 c). destruct (c =? 45)%N eqn:E.
    + apply N.eqb_eq in E. subst c.
      specialize (HA (mk_rstate (Some 45%N) t' [])). cbn [r_rest] in HA.
      destruct (A (mk_rstate (Some 45%N) t' []) _) eqn:E1; [exact HA|].
      rewrite Hminus. exact HA.
    + exact (HA (mk_rstate None (c :: t') [])).
Qed.

(** [/\d+/]: the first match is the first maximal run of digits. *)
Lemma exec_digits_from prev s i :
  m_text <$> exec_from (re_plus is_digit) prev s i
  = match first_digit_run s with [] => None | ds => Some ds end.
Proof.
  revert prev i. induction s as [|c s IH]; intros prev i; [reflexivity|].
  unfold first_digit_run. simpl.
  unfold match_at, re_plus, re_seq, re_class, re_star. simpl.
  destruct (is_digit c) eqn:Hc; simpl.
  - destruct (star_from_greedy is_digit (Some c) s []) as [prev' ->]. simpl.
    rewrite Hc. f_equal. f_equal.
    pose proof (drop_while_length is_digit s).
    replace (S (length s) - length (drop_while is_digit s))
      with (S (length s - length (drop_while is_digit s))) by lia.
    simpl. f_equal. apply take_while_take.
  - apply IH.
Qed.

Lemma exec_digits s :
  m_text <$> exec (re_plus is_digit) s
  = match first_digit_run s with [] => None | ds => Some ds end.
Proof. apply exec_digits_from. Qed.

Lemma first_digit_run_digits s : forallb is_digit (first_digit_run s) = true.
Proof.
  unfold first_digit_run. generalize (drop_while (fun c => negb (is_digit c)) s).
  intros l. induction l as [|c l IH]; simpl; [reflexivity|].
  destruct (is_digit c) eqn:E; simpl; [rewrite E; exact IH | reflexivity].
Qed.

(** The Number of a run of digits is the rounding of the integer it
    denotes. *)
Lemma Number_digits ds :
  forallb is_digit ds = true -> ds <> [] -> Number ds = of_decimal false ds [].
Proof.
  intros Hd Hne.
  assert (Hw : decimal_word ds).
  { exists ds, []. split; [apply all_digits_plus; auto | left; auto]. }
  unfold Number. unfold parse_decimal, parse_unsigned.
  destruct ds as [|c ds]; [congruence|].
  assert (Hc : is_digit c = true) by (simpl in Hd; apply andb_true_iff in Hd; tauto).
  rewrite (digit_not_minus _ Hc).
  destruct (take_drop_while_stop is_digit (c :: ds) [] Hd I) as [E1 E2].
  rewrite app_nil_r in E1, E2. rewrite E1, E2.
  unfold all_digits. rewrite Hd. reflexivity.
Qed.

Lemma ci_eq_lower p c :
  is_upper p = false -> ci_eq p c = true -> lower_unit c = p.
Proof.
  unfold ci_eq, lower_unit. intros Hp H. rewrite Hp in H. simpl in H.
  rewrite orb_false_r in H. apply orb_true_iff in H as [H|H].
  - apply N.eqb_eq in H. subst c. rewrite Hp. reflexivity.
  - apply andb_true_iff in H as [Hl H]. apply N.eqb_eq in H.
    unfold is_lower in Hl. apply andb_true_iff in Hl as [H1 H2].
    apply N.leb_le in H1, H2.
    assert (Hu : is_upper c = true).
    { unfold is_upper. apply andb_true_iff. split; apply N.leb_le; lia. }
    rewrite Hu. lia.
Qed.

Lemma consumes_str_ci s :
  forallb (fun p => negb (is_upper p)) s = true ->
  consumes (re_str_ci s) (fun w => toLowerCase w = s).
Proof.
  induction s as [|p s IH]; intros Hs; simpl in *.
  { eapply consumes_weaken; [apply consumes_eps|]. intros w ->. reflexivity. }
  apply andb_true_iff in Hs as [Hp Hs]. apply negb_true_iff in Hp.
  eapply consumes_weaken.
  - apply consumes_seq; [apply consumes_class | exact (IH Hs)].
  - intros w (u & v & -> & (d & -> & Hd) & Hv). simpl.
    rewrite (ci_eq_lower _ _ Hp Hd), Hv. reflexivity.
Qed.

Lemma consumes_label : consumes App.re_label (fun w => In (toLowerCase w) labels).
Proof.
  unfold App.re_label. eapply consumes_weaken.
  - repeat (apply consumes_alt; [apply consumes_str_ci; reflexivity|]).
    apply consumes_str_ci; reflexivity.
  - intros w H. unfold labels.
    repeat (destruct H as [H|H];
            [rewrite H; repeat first [left; reflexivity | right]|]).
    rewrite H; repeat first [left; reflexivity | right].
Qed.

Lemma bol_sound st k res : re_bol st k = Some res -> k st = Some res.
Proof. unfold re_bol. destruct (r_prev st); [discriminate | auto]. Qed.

(** A match of the metric pattern records a label in its first group and
    a value, not empty and free of line terminators, in its second. *)
Lemma metric_groups raw m :
  exec App.re_metric raw = Some m ->
  exists k v, group 1 m = Some k /\ group 2 m = Some v
              /\ In (toLowerCase k) labels
              /\ v <> [] /\ forallb is_dot v = true.
Proof.
  intros H. apply exec_from_sound in H.
  destruct H as (pre & prev' & s' & st & _ & _ & Hm & _ & Hc & _).
  unfold match_at, App.re_metric in Hm. unfold re_seq at 1 in Hm.
  apply bol_sound in Hm. unfold re_seq at 1 in Hm.
  destruct (group_sound 1 _ _ consumes_label _ _ _ Hm) as (k & st1 & _ & Lk & C1 & H1).
  unfold re_seq at 1 in H1.
  destruct (consumes_class _ _ _ _ H1) as (_ & st2 & _ & C2 & _ & H2).
  unfold re_seq at 1 in H2.
  destruct (consumes_star _ _ _ _ H2) as (_ & st3 & _ & C3 & _ & H3).
  unfold re_seq at 1 in H3.
  destruct (group_sound 2 _ _ (consumes_plus is_dot) _ _ _ H3) as (v & st4 & _ & [Lv Hne] & C4 & H4).
  apply eol_sound in H4 as [_ H4]. injection H4 as <-.
  exists k, v. unfold group. rewrite Hc, C4, C3, C2, C1. simpl.
  repeat split; auto.
Qed.

End PatternFacts.
Import PatternFacts.

(** ** The loop of [loadData] as segmenter and record builder *)

Module LoopFacts.

Lemma build_step_count ls st :
  snd (fold_left build_step ls st) = length ls + snd st.
Proof.
  revert st. induction ls as [|l ls IH]; intros st; simpl; [reflexivity|].
  rewrite IH. simpl. lia.
Qed.

Lemma build_snoc n ls raw :
  build (mk_segment n (ls ++ [raw]))
  = build_line (build (mk_segment n ls)) (S (length ls)) raw.
Proof.
  unfold build. simpl. rewrite fold_left_app. simpl.
  rewrite build_step_count. simpl. rewrite Nat.add_0_r. reflexivity.
Qed.

Lemma build_line_name c n raw : name (build_line c n raw) = name c.
Proof.
  unfold build_line, App.with_answer.
  repeat match goal with
         | |- context [if ?b then _ else _] => destruct b
         | |- context [match ?o with Some _ => _ | None => _ end] => destruct o
         end; reflexivity.
Qed.

Lemma build_name s : name (build s) = seg_name s.
Proof.
  destruct s as [n ls]. simpl.
  induction ls as [|l ls IH] using rev_ind; [reflexivity|].
  rewrite build_snoc, build_line_name. exact IH.
Qed.

(** One turn of the loop is one step of the segmenter followed by the
    record builder on the line, if it is a content line. *)
Lemma loop_body_refines sst raw :
  App.loop_body (loop_of sst) raw = loop_of (segment_step sst raw).
Proof.
  destruct sst as [done cur]. unfold App.loop_body, segment_step, classify.
  unfold is_blank, is_fenced, is_header. fold fence.
  destruct (falsy (Some (trim raw))); [reflexivity|].
  destruct (startsWith fence (trim raw)); [reflexivity|].
  destruct (App.isModelHeader (trim raw)).
  - unfold loop_of. simpl. f_equal.
    destruct cur as [s|]; simpl; [rewrite map_app|rewrite app_nil_r]; reflexivity.
  - destruct cur as [[n ls]|]; [|reflexivity].
    unfold loop_of. cbn [fst snd cur models afterHeaderLineCount fmap option_fmap option_map
                          bodyLines seg_name].
    rewrite build_snoc, length_app. simpl length. rewrite Nat.add_1_r.
    unfold build_line.
    set (c := build (mk_segment n ls)).
    destruct (falsy (answerLine c) && (S (length ls) <=? 6) && App.early_answer (trim raw));
      [reflexivity|].
    destruct (exec App.re_metric raw); [reflexivity|].
    destruct (falsy (answerLine c) && test App.re_standalone (trim raw)
              && negb (test App.re_metric_word (trim raw))); reflexivity.
Qed.

Lemma fold_loop_refines lines sst :
  fold_left App.loop_body lines (loop_of sst)
  = loop_of (fold_left segment_step lines sst).
Proof.
  revert sst. induction lines as [|l lines IH]; intros sst; simpl; [reflexivity|].
  rewrite loop_body_refines. apply IH.
Qed.

(** The loop of [loadData] is the segmenter followed by the record
    builder. *)
Lemma scan_segments lines : App.scan lines = map build (segments lines).
Proof.
  unfold App.scan, segments.
  change (mk_loop [] None 0) with (loop_of ([], None)).
  rewrite fold_loop_refines.
  destruct (fold_left segment_step lines ([], None)) as [done cur].
  unfold loop_of. simpl. destruct cur; simpl; [rewrite map_app|rewrite app_nil_r]; reflexivity.
Qed.

Lemma segment_step_skipped st l : classify l = Skipped -> segment_step st l = st.
Proof. unfold segment_step. intros ->. reflexivity. Qed.

Lemma segment_step_content done s l :
  classify l = Content ->
  segment_step (done, Some s) l
  = (done, Some (mk_segment (seg_name s) (bodyLines s ++ [l]))).
Proof. unfold segment_step. intros ->. reflexivity. Qed.

Lemma segment_step_content_none done l :
  classify l = Content -> segment_step (done, None) l = (done, None).
Proof. unfold segment_step. intros ->. reflexivity. Qed.

Lemma segment_fold_content ls done s :
  Forall (fun l => headed l = false) ls ->
  fold_left segment_step ls (done, Some s)
  = (done, Some (mk_segment (seg_name s) (bodyLines s ++ List.filter is_content ls))).
Proof.
  revert s. induction ls as [|l ls IH]; intros s H.
  - simpl. rewrite app_nil_r. destruct s; reflexivity.
  - inversion H as [|? ? Hl Hls]; subst. cbn [fold_left List.filter].
    unfold headed, is_content in *.
    destruct (classify l) eqn:E; try discriminate.
    + rewrite (segment_step_skipped _ _ E). apply IH, Hls.
    + rewrite (segment_step_content _ _ _ E), (IH _ Hls). simpl.
      rewrite <- app_assoc. reflexivity.
Qed.

Lemma segment_fold_before ls done :
  Forall (fun l => headed l = false) ls ->
  fold_left segment_step ls (done, None) = (done, None).
Proof.
  induction ls as [|l ls IH]; intros H; [reflexivity|].
  inversion H as [|? ? Hl Hls]; subst. cbn [fold_left].
  unfold headed in *.
  destruct (classify l) eqn:E; try discriminate.
  - rewrite (segment_step_skipped _ _ E). apply IH, Hls.
  - rewrite (segment_step_content_none _ _ E). apply IH, Hls.
Qed.

Lemma segment_step_header done cur h :
  headed h = true ->
  segment_step (done, cur) h = (done ++ option_list cur, Some (mk_segment (trim h) [])).
Proof.
  unfold headed, segment_step. destruct (classify h); try discriminate.
  intros _. simpl. rewrite header_name_trim. reflexivity.
Qed.

(** The names of the segments are the trimmed header lines, in order. *)
Lemma segment_names_fold lines done cur :
  map seg_name (fst (fold_left segment_step lines (done, cur))
                ++ option_list (snd (fold_left segment_step lines (done, cur))))
  = map seg_name (done ++ option_list cur) ++ map trim (List.filter headed lines).
Proof.
  revert done cur. induction lines as [|l lines IH]; intros done cur.
  - simpl. rewrite app_nil_r. reflexivity.
  - cbn [fold_left List.filter]. destruct (headed l) eqn:Hl.
    + rewrite (segment_step_header _ _ _ Hl), IH. simpl.
      rewrite !map_app. simpl. rewrite <- !app_assoc. reflexivity.
    + unfold headed in Hl. destruct (classify l) eqn:E; try discriminate.
      * rewrite (segment_step_skipped _ _ E). apply IH.
      * destruct cur as [s|].
        -- rewrite (segment_step_content _ _ _ E), IH. simpl.
           rewrite !map_app. reflexivity.
        -- rewrite (segment_step_content_none _ _ E). apply IH.
Qed.

Lemma segment_names lines :
  map seg_name (segments lines) = map trim (List.filter headed lines).
Proof. exact (segment_names_fold lines [] None). Qed.

Lemma headed_is_header raw : headed raw = is_header raw.
Proof.
  pose proof (header_classify raw) as H. unfold headed.
  destruct (classify raw), (is_header raw); try reflexivity;
    try (destruct H as [H1 H2]; try (specialize (H1 eq_refl)); try (specialize (H2 eq_refl));
         discriminate).
Qed.

Lemma header_nonempty raw : is_header raw = true -> trim raw <> [].
Proof.
  unfold is_header, App.isModelHeader. rewrite trim_idem. intros H.
  destruct (header_head _ H) as (c & s & -> & _). discriminate.
Qed.

End LoopFacts.
Import LoopFacts.

(** ** Facts about the sort of [renderGrid] *)

Module SortFacts.

Import Part000.

Lemma sort_insert_perm {A} (cmp : A -> A -> number) x l :
  Permutation (sort_insert cmp x l) (x :: l).
Proof.
  induction l as [|y l IH]; simpl; [reflexivity|].
  destruct (gt (cmp x y) zero); [|reflexivity].
  rewrite IH. apply perm_swap.
Qed.

Lemma sort_perm {A} (cmp : A -> A -> number) l : Permutation (sort cmp l) l.
Proof.
  induction l as [|x l IH]; simpl; [reflexivity|].
  unfold sort in IH. rewrite sort_insert_perm, IH. reflexivity.
Qed.

Section Order.
Variable cfg : SortState.

Lemma compare_missing_left a b :
  missing cfg a = true -> missing cfg b = false ->
  gt (compare_models cfg a b) zero = true.
Proof. unfold missing, compare_models. intros -> ->. reflexivity. Qed.

Lemma compare_missing_right a b :
  missing cfg a = false -> gt (compare_models cfg a b) zero = true -> missing cfg b = false.
Proof.
  unfold missing, compare_models. intros ->. simpl.
  destruct (absent (getVal cfg b)); [discriminate|reflexivity].
Qed.

Lemma compare_missing_both a b :
  missing cfg a = true -> missing cfg b = true ->
  gt (compare_models cfg a b) zero = false.
Proof. unfold missing, compare_models. intros -> ->. reflexivity. Qed.

Lemma sort_insert_missing_last x l :
  missing_last cfg l -> missing_last cfg (sort_insert (compare_models cfg) x l).
Proof.
  induction l as [|y l IH]; simpl.
  - intros _. split; [intros _; constructor | exact I].
  - intros [Hy Hl].
    destruct (gt (compare_models cfg x y) zero) eqn:E.
    + simpl. split; [|apply IH, Hl].
      intros My. destruct (missing cfg x) eqn:Mx.
      * rewrite (compare_missing_both _ _ Mx My) in E. discriminate.
      * rewrite (compare_missing_right _ _ Mx E) in My. discriminate.
    + simpl. split; [|split; [exact Hy | exact Hl]].
      intros Mx. destruct (missing cfg y) eqn:My.
      * constructor; [exact My | apply Hy; reflexivity].
      * rewrite (compare_missing_left _ _ Mx My) in E. discriminate.
Qed.

Lemma sort_missing_last l : missing_last cfg (sort (compare_models cfg) l).
Proof.
  induction l as [|x l IH]; simpl; [exact I|].
  apply sort_insert_missing_last, IH.
Qed.

Lemma missing_last_lookup l i j a b :
  missing_last cfg l -> l !! i = Some a -> l !! j = Some b ->
  missing cfg a = true -> missing cfg b = false -> j < i.
Proof.
  revert i j. induction l as [|m l IH]; intros i j Hl Hi Hj Ma Mb; [discriminate|].
  destruct Hl as [Hm Hl]. destruct j as [|j]; destruct i as [|i]; simpl in *.
  - congruence.
  - lia.
  - injection Hi as ->. specialize (Hm Ma).
    rewrite Forall_lookup in Hm. rewrite (Hm _ _ Hj) in Mb. discriminate.
  - assert (j < i) by (eapply IH; eauto). lia.
Qed.

Lemma compare_present_absent a b :
  missing cfg b = false -> missing cfg a = true ->
  lt (compare_models cfg b a) zero = true.
Proof. unfold missing, compare_models. intros -> ->. reflexivity. Qed.

(** The sort order of ECMAScript: whatever the comparator puts below zero
    comes first. *)
Lemma ordered_lookup (out : list ModelRecord) i j a b :
  (forall i j a b, out !! i = Some a -> out !! j = Some b ->
                   lt (compare_models cfg a b) zero = true -> i < j) ->
  out !! i = Some a -> out !! j = Some b ->
  missing cfg a = true -> missing cfg b = false -> j < i.
Proof.
  intros Hs Hi Hj Ma Mb. exact (Hs _ _ _ _ Hj Hi (compare_present_absent _ _ Mb Ma)).
Qed.

(** The order any conforming sort produces has the same shape: no pair in
    the order [i < j] is compared above zero. *)
Lemma sorted_lookup (out : list ModelRecord) i j a b :
  (forall i j a b, i < j -> out !! i = Some a -> out !! j = Some b ->
                   gt (compare_models cfg a b) zero = false) ->
  out !! i = Some a -> out !! j = Some b ->
  missing cfg a = true -> missing cfg b = false -> j < i.
Proof.
  intros Hs Hi Hj Ma Mb.
  destruct (Nat.lt_trichotomy i j) as [Hlt|[->|Hgt]]; [| |exact Hgt].
  - pose proof (Hs _ _ _ _ Hlt Hi Hj) as H1.
    pose proof (compare_missing_left _ _ Ma Mb) as H2. congruence.
  - congruence.
Qed.

End Order.

End SortFacts.
Import SortFacts.


(** ** The claims of the specification *)

(** *** Duration parser *)

(** C1. The first test vector holds: ["10m16.674888625s"] gives the Number
    616.674888625. The second does not: in ["79.06375ms"] the minutes
    pattern matches ["79.06375m"], the seconds pattern matches nothing, and
    the result is 79.06375 * 60 + 79.06375 / 1000 = 4743.90406375, not
    0.07906375. *)
Theorem parseDuration_vectors :
  App.parseDurationToSeconds (Some (lit "10m16.674888625s")) = Some (num "616.674888625")
  /\ (group 1 <$> exec (App.re_unit (lit "m")) (lit "79.06375ms"))
     = Some (Some (lit "79.06375"))
  /\ exec (App.re_unit (lit "s")) (lit "79.06375ms") = None
  /\ App.parseDurationToSeconds (Some (lit "79.06375ms"))
     = Some (add (mul (num "79.06375") (num "60")) (div (num "79.06375") (num "1000")))
  /\ App.parseDurationToSeconds (Some (lit "79.06375ms")) = Some (num "4743.90406375")
  /\ App.parseDurationToSeconds (Some (lit "79.06375ms")) <> Some (num "0.07906375").
Proof.
  repeat split; try (vm_compute; reflexivity).
  vm_compute. discriminate.
Qed.

(** C8. [parseDurationToSeconds] answers [null] exactly when its argument
    is empty or absent, or the sum of the components is zero; it is a total
    function, so it never throws; a string in which no unit pattern matches
    gives [null]; so do the empty string and ["0s"]. *)
Theorem parseDuration_null_iff :
  (forall raw : option jsstring,
     App.parseDurationToSeconds raw = None <->
     falsy raw = true
     \/ strict_eq (App.duration_sum (trim (default [] raw))) zero = true)
  /\ (forall raw : option jsstring,
        exec (App.re_unit (lit "m")) (trim (default [] raw)) = None ->
        exec (App.re_unit (lit "s")) (trim (default [] raw)) = None ->
        exec (App.re_unit (lit "ms")) (trim (default [] raw)) = None ->
        App.parseDurationToSeconds raw = None)
  /\ App.parseDurationToSeconds None = None
  /\ App.parseDurationToSeconds (Some (lit "")) = None
  /\ App.parseDurationToSeconds (Some (lit "0s")) = None.
Proof.
  split; [|split; [|repeat split; reflexivity]].
  - intros raw. unfold App.parseDurationToSeconds.
    destruct (falsy raw); [tauto|].
    rewrite (nonneg_truthy _ (duration_sum_nonneg _)).
    destruct (strict_eq _ zero); simpl; split; intros H; try discriminate; auto.
    destruct H; discriminate.
  - intros raw Hm Hs Hms. unfold App.parseDurationToSeconds, App.duration_sum.
    rewrite Hm, Hs, Hms. destruct (falsy raw); reflexivity.
Qed.

Lemma parseDuration_null_iff_witness :
  App.parseDurationToSeconds (Some (lit "about ten minutes")) = None.
Proof.
  apply (proj1 (proj2 parseDuration_null_iff)); vm_compute; reflexivity.
Defined.

(** *** Numeric extractor *)

Lemma find_filter {A} (f : A -> bool) l :
  List.find f l = match List.filter f l with b :: _ => Some b | [] => None end.
Proof.
  induction l as [|x l IH]; simpl; [reflexivity|]. destruct (f x); [reflexivity|exact IH].
Qed.

Lemma extractNumber_chosen (text : jsstring) :
  App.extractNumberFromText (Some text)
  = match numeric_tokens text with
    | [] => None
    | toks =>
        finite_or_null
          (Number (match List.find is_big_integer toks with
                   | Some b => b
                   | None => List.last toks []
                   end))
    end.
Proof.
  unfold App.extractNumberFromText, numeric_tokens.
  destruct text as [|c text]; [reflexivity|].
  cbn [falsy]. change (default [] (Some (c :: text))) with (c :: text).
  destruct (match_all App.re_number _) as [|t ts]; [reflexivity|].
  rewrite map_id, (List.filter_ext _ _ big_int_test), find_filter.
  destruct (List.filter is_big_integer (t :: ts)); reflexivity.
Qed.

(** C2, as amended. [extractNumberFromText] answers [null] when the text
    holds no numeric token. Otherwise it picks the first token that is an
    integer of three digits or more (an optional minus sign, the digits, no
    fraction), or the last token when there is none, and answers its Number,
    or [null] if that Number is not finite. The Number of a token is never
    NaN, so [null] then means that the token is too large for a finite
    binary64 value. *)
Theorem extractNumber_rule (text : jsstring) :
  App.extractNumberFromText (Some text)
  = match numeric_tokens text with
    | [] => None
    | toks =>
        finite_or_null
          (Number (match List.find is_big_integer toks with
                   | Some b => b
                   | None => List.last toks []
                   end))
    end
  /\ Forall (fun t => isNaN (Number t) = false) (numeric_tokens text)
  /\ App.extractNumberFromText None = None.
Proof.
  split; [apply extractNumber_chosen|]. split; [apply token_number_not_nan|reflexivity].
Qed.

(** C2 as stated fails on ["3600.5 then 7"]: the integer part of the first
    token has four digits, yet the program answers 7. *)
Lemma extractNumber_decimal_counterexample :
  numeric_tokens (lit "3600.5 then 7") = [lit "3600.5"; lit "7"]
  /\ spec_chosen (numeric_tokens (lit "3600.5 then 7")) = lit "3600.5"
  /\ App.extractNumberFromText (Some (lit "3600.5 then 7")) = Some (num "7")
  /\ App.extractNumberFromText (Some (lit "3600.5 then 7"))
     <> finite_or_null (Number (spec_chosen (numeric_tokens (lit "3600.5 then 7")))).
Proof.
  repeat split; try (vm_compute; reflexivity). vm_compute. discriminate.
Qed.

(** The test vectors of the specification for the extractor *)
Example extractNumber_vectors :
  App.extractNumberFromText (Some (lit "Step 5: 3600 trains collide")) = Some (num "3600")
  /\ App.extractNumberFromText (Some (lit "no numbers here")) = None
  /\ App.extractNumberFromText (Some (lit "12 then 3450")) = Some (num "3450")
  /\ App.extractNumberFromText None = None.
Proof. repeat split; vm_compute; reflexivity. Qed.

(** *** Records *)

Lemma parsed_names txt :
  map (fun m => name (raw m)) (App.parse_report txt)
  = map trim (List.filter is_header (split_lines txt)).
Proof.
  unfold App.parse_report. rewrite scan_segments, !map_map.
  rewrite <- (List.filter_ext _ _ headed_is_header (split_lines txt)).
  rewrite <- (segment_names (split_lines txt)).
  apply map_ext. intros s. simpl. apply build_name.
Qed.

(** C3, as amended. The names of the parsed records are the trimmed header
    lines of the report, in the order of the report; every name is not
    empty; the names are pairwise distinct exactly when the trimmed header
    lines are. *)
Theorem names_follow_headers (txt : jsstring) :
  map (fun m => name (raw m)) (App.parse_report txt)
  = map trim (List.filter is_header (split_lines txt))
  /\ Forall (fun m => name (raw m) <> []) (App.parse_report txt)
  /\ (NoDup (map (fun m => name (raw m)) (App.parse_report txt))
      <-> NoDup (map trim (List.filter is_header (split_lines txt)))).
Proof.
  pose proof (parsed_names txt) as E. split; [exact E|]. split; [|rewrite E; reflexivity].
  assert (H : Forall (fun n : jsstring => n <> [])
                (map (fun m => name (raw m)) (App.parse_report txt))).
  { rewrite E. apply Forall_map. apply Forall_forall. intros l Hl.
    apply list_elem_of_In, filter_In in Hl as [_ Hl]. simpl.
    apply header_nonempty, Hl. }
  rewrite Forall_map in H. exact H.
Qed.

(** C3 as stated fails on a report that repeats a header line: two
    records carry the same name. *)
Lemma duplicate_names_counterexample :
  map (fun m => name (raw m)) (App.parse_report (lit "m:a" ++ LF ++ lit "m:a"))
  = [lit "m:a"; lit "m:a"]
  /\ ~ NoDup (map (fun m => name (raw m))
               (App.parse_report (lit "m:a" ++ LF ++ lit "m:a"))).
Proof.
  assert (E : map (fun m => name (raw m))
                (App.parse_report (lit "m:a" ++ LF ++ lit "m:a"))
              = [lit "m:a"; lit "m:a"]) by (vm_compute; reflexivity).
  split; [exact E|]. rewrite E. intros H. apply NoDup_cons in H as [H _].
  apply H. left.
Qed.

(** *** Segmenter *)

Lemma loop_body_skipped st l :
  is_blank l || is_fence_marker l = true -> App.loop_body st l = st.
Proof.
  unfold App.loop_body, is_blank, is_fence_marker. intros H.
  destruct (falsy (Some (trim l))); [reflexivity|]. simpl in H.
  apply bool_decide_eq_true in H. rewrite H.
  change (lit "```") with fence. rewrite startsWith_refl. reflexivity.
Qed.

(** Blank lines and fence markers can be struck from a report. *)
Lemma scan_skip lines :
  App.scan (List.filter (fun l => negb (is_blank l || is_fence_marker l)) lines)
  = App.scan lines.
Proof.
  unfold App.scan. generalize (mk_loop [] None 0).
  induction lines as [|l lines IH]; intros st; [reflexivity|].
  cbn [List.filter fold_left].
  destruct (is_blank l || is_fence_marker l) eqn:E; simpl negb; cbv iota.
  - rewrite (loop_body_skipped _ _ E). apply IH.
  - cbn [fold_left]. apply IH.
Qed.

Lemma content_kept l : is_header l = false -> is_content l = kept l.
Proof.
  rewrite <- headed_is_header. unfold headed, is_content, kept, classify.
  destruct (is_blank l); [reflexivity|]. destruct (is_fenced l); [reflexivity|].
  destruct (is_header l); [discriminate|reflexivity].
Qed.

Lemma filter_content_kept ls :
  Forall (fun l => is_header l = false) ls ->
  List.filter is_content ls = List.filter kept ls.
Proof.
  induction 1 as [|l ls Hl _ IH]; [reflexivity|]. simpl.
  rewrite (content_kept _ Hl), IH. reflexivity.
Qed.

Lemma kept_not_marker l :
  kept l = true -> is_blank l = false /\ is_fence_marker l = false.
Proof.
  unfold kept, is_fenced, is_fence_marker. intros H.
  apply andb_true_iff in H as [H1 H2].
  apply negb_true_iff in H1, H2. split; [exact H1|].
  apply bool_decide_eq_false. intros E. rewrite E, startsWith_refl in H2. discriminate.
Qed.

Lemma scan_before_header pre rest :
  Forall (fun l => is_header l = false) pre ->
  App.scan (pre ++ rest) = App.scan rest.
Proof.
  intros Hpre. unfold App.scan. rewrite fold_left_app. f_equal.
  change (mk_loop [] None 0) with (loop_of ([], None)).
  rewrite fold_loop_refines, segment_fold_before; [reflexivity|].
  eapply Forall_impl; [exact Hpre|]. intros l. rewrite headed_is_header. auto.
Qed.

Lemma two_segments (pre b1 b2 : list jsstring) (h1 h2 : jsstring) :
  is_header h1 = true -> is_header h2 = true ->
  Forall (fun l => is_header l = false) (pre ++ b1 ++ b2) ->
  segments (pre ++ h1 :: b1 ++ h2 :: b2)
  = [mk_segment (trim h1) (List.filter kept b1); mk_segment (trim h2) (List.filter kept b2)].
Proof.
  intros H1 H2 Hall.
  apply Forall_app in Hall as [Hpre Hall]. apply Forall_app in Hall as [Hb1 Hb2].
  assert (Hh : forall ls, Forall (fun l => is_header l = false) ls ->
                          Forall (fun l => headed l = false) ls).
  { intros ls Hls. eapply Forall_impl; [exact Hls|].
    intros l. rewrite headed_is_header. auto. }
  unfold segments. rewrite fold_left_app, (segment_fold_before _ _ (Hh _ Hpre)).
  cbn [fold_left]. rewrite segment_step_header by (rewrite headed_is_header; exact H1).
  rewrite fold_left_app, (segment_fold_content _ _ _ (Hh _ Hb1)).
  cbn [fold_left]. rewrite segment_step_header by (rewrite headed_is_header; exact H2).
  rewrite (segment_fold_content _ _ _ (Hh _ Hb2)). simpl.
  rewrite !filter_content_kept by assumption. reflexivity.
Qed.

(** C4, as amended. Striking the blank lines and the fence markers from a
    report changes nothing of what the loop of [loadData] builds: they are
    no body content and neither open nor close a segment. A report with two
    header lines [h1] and [h2], and no other, yields exactly two segments,
    from which the loop builds its two records; the body of each holds the
    lines between its header and the next (or the end) that are neither
    blank nor fenced, a fenced line being one that, once trimmed, starts
    with three backticks: the fence marker itself and every line that
    opens with it. So no blank line and no fence marker is a body line.
    The lines before the first header line are discarded. *)
Theorem segmentation :
  (forall lines : list jsstring,
     App.scan (List.filter (fun l => negb (is_blank l || is_fence_marker l)) lines)
     = App.scan lines)
  /\ (forall (pre b1 b2 : list jsstring) (h1 h2 : jsstring),
        is_header h1 = true -> is_header h2 = true ->
        Forall (fun l => is_header l = false) (pre ++ b1 ++ b2) ->
        segments (pre ++ h1 :: b1 ++ h2 :: b2)
        = [mk_segment (trim h1) (List.filter kept b1);
           mk_segment (trim h2) (List.filter kept b2)]
        /\ App.scan (pre ++ h1 :: b1 ++ h2 :: b2)
           = [build (mk_segment (trim h1) (List.filter kept b1));
              build (mk_segment (trim h2) (List.filter kept b2))]
        /\ Forall (fun l => is_blank l = false /\ is_fence_marker l = false)
             (List.filter kept b1 ++ List.filter kept b2))
  /\ (forall pre rest : list jsstring,
        Forall (fun l => is_header l = false) pre ->
        App.scan (pre ++ rest) = App.scan rest)
  /\ (forall lines : list jsstring, App.scan lines = map build (segments lines)).
Proof.
  split; [exact scan_skip|]. split; [|split; [exact scan_before_header|exact scan_segments]].
  intros pre b1 b2 h1 h2 H1 H2 Hall.
  pose proof (two_segments pre b1 b2 h1 h2 H1 H2 Hall) as E.
  split; [exact E|]. split; [rewrite scan_segments, E; reflexivity|].
  apply Forall_forall. intros l Hl. apply kept_not_marker.
  apply list_elem_of_In, in_app_or in Hl.
  destruct Hl as [Hl|Hl]; apply filter_In in Hl; tauto.
Qed.

Lemma segmentation_witness :
  segments [lit "preface 1234"; lit "modelA:v1"; lit "```"; lit "Step 5: 3600"; lit "";
            lit "modelB:v1  "; lit "  "; lit "eval count: 512"]
  = [mk_segment (lit "modelA:v1") [lit "Step 5: 3600"];
     mk_segment (lit "modelB:v1") [lit "eval count: 512"]].
Proof.
  refine (proj1 (proj1 (proj2 segmentation) [lit "preface 1234"]
                   [lit "```"; lit "Step 5: 3600"; lit ""]
                   [lit "  "; lit "eval count: 512"] (lit "modelA:v1") (lit "modelB:v1  ")
                   _ _ _)).
  - vm_compute; reflexivity.
  - vm_compute; reflexivity.
  - repeat constructor.
Defined.

(** C4 as stated fails on a line that opens with three backticks and goes
    on: such a line is neither blank, nor exactly the fence marker, nor a
    header, and still it is no body line. The body of the first segment is
    not the intervening lines without the blank lines and the fence
    markers, and the answer that stands on such a line is not captured. *)
Lemma fence_prefix_counterexample :
  segments [lit "modelA:v1"; lit "```json"; lit "```Step 5: 3600"; lit "x"; lit "modelB:v1"]
  = [mk_segment (lit "modelA:v1") [lit "x"]; mk_segment (lit "modelB:v1") []]
  /\ Forall (fun l => is_blank l = false /\ is_fence_marker l = false
                      /\ is_header l = false)
       [lit "```json"; lit "```Step 5: 3600"]
  /\ List.filter (fun l => negb (is_blank l || is_fence_marker l))
       [lit "```json"; lit "```Step 5: 3600"; lit "x"]
     = [lit "```json"; lit "```Step 5: 3600"; lit "x"]
  /\ segments [lit "modelA:v1"; lit "```json"; lit "```Step 5: 3600"; lit "x";
               lit "modelB:v1"]
     <> [mk_segment (lit "modelA:v1")
           (List.filter (fun l => negb (is_blank l || is_fence_marker l))
              [lit "```json"; lit "```Step 5: 3600"; lit "x"]);
         mk_segment (lit "modelB:v1") []]
  /\ map answerLine
       (App.scan [lit "modelA:v1"; lit "```json"; lit "```Step 5: 3600"; lit "x";
                  lit "modelB:v1"])
     = [None; None].
Proof.
  split; [vm_compute; reflexivity|].
  split; [repeat constructor|].
  split; [vm_compute; reflexivity|].
  split; [vm_compute; discriminate | vm_compute; reflexivity].
Qed.

(** *** Record builder *)

(** C5, as amended. With a record open that has no answer line yet, and
    the counter of content lines, this line included, at most 6, a content
    line that matches one of the three early answer patterns is captured:
    [answerLine] is the line with the white space at both ends trimmed
    off, [numericAnswer] is what the numeric extractor finds in it, and
    the metrics and everything else stay as they are (the line reaches
    neither the metric pattern nor the fallback rule). *)
Theorem early_answer_capture (st : loop_state) (c : RawModelRecord) (raw : jsstring) :
  cur st = Some c ->
  classify raw = Content ->
  answerLine c = None ->
  S (afterHeaderLineCount st) <= 6 ->
  App.early_answer (trim raw) = true ->
  App.loop_body st raw
  = mk_loop (models st)
      (Some (mk_raw (name c) (Some (trim raw))
               (App.extractNumberFromText (Some (trim raw))) (metrics c)))
      (S (afterHeaderLineCount st)).
Proof.
  intros Hc Hk Ha Hn He. unfold App.loop_body.
  unfold classify, is_blank, is_fenced, is_header in Hk. fold fence.
  destruct (falsy (Some (trim raw))); [discriminate|].
  destruct (startsWith fence (trim raw)); [discriminate|].
  destruct (App.isModelHeader (trim raw)); [discriminate|].
  rewrite Hc, Ha, He. apply Nat.leb_le in Hn. rewrite Hn. reflexivity.
Qed.

Lemma early_answer_capture_witness :
  App.loop_body (mk_loop [] (Some (mk_raw (lit "m:a") None None ∅)) 5)
    (lit "  eval count: the answer is 3600 ")
  = mk_loop []
      (Some (mk_raw (lit "m:a") (Some (lit "eval count: the answer is 3600"))
               (Some (num "3600")) ∅))
      6.
Proof.
  exact (early_answer_capture (mk_loop [] (Some (mk_raw (lit "m:a") None None ∅)) 5)
           (mk_raw (lit "m:a") None None ∅) (lit "  eval count: the answer is 3600 ")
           eq_refl eq_refl eq_refl (le_n 6) eq_refl).
Defined.

(** C5 as stated fails on a line with white space in front: the answer
    line stored is not the original line. *)
Lemma answer_line_trimmed_counterexample :
  (cur (App.loop_body (mk_loop [] (Some (mk_raw (lit "m:a") None None ∅)) 0)
          (lit "  Step 5: 3600")) ≫= answerLine)
  = Some (lit "Step 5: 3600")
  /\ (cur (App.loop_body (mk_loop [] (Some (mk_raw (lit "m:a") None None ∅)) 0)
             (lit "  Step 5: 3600")) ≫= answerLine)
     <> Some (lit "  Step 5: 3600").
Proof. split; [vm_compute; reflexivity | vm_compute; discriminate]. Qed.

(** *** Metric normaliser *)

Lemma count_of_field v : App.count_of v = count_field v.
Proof.
  unfold App.count_of, count_field. destruct v as [[|c s]|]; try reflexivity.
  cbn [falsy]. change (default [] (Some (c :: s))) with (c :: s).
  rewrite exec_digits. unfold digits_number.
  pose proof (first_digit_run_digits (c :: s)) as Hd.
  destruct (first_digit_run (c :: s)) as [|d ds] eqn:E; [reflexivity|].
  simpl Number_of. rewrite Number_digits; [reflexivity|exact Hd|discriminate].
Qed.

Lemma digits_number_nan s :
  isNaN (digits_number s) = bool_decide (first_digit_run s = []).
Proof.
  unfold digits_number. destruct (first_digit_run s) as [|d ds]; [reflexivity|].
  pose proof (of_decimal_nonneg (d :: ds) []) as H.
  destruct (of_decimal false (d :: ds) []) as [[]|[]| |[] ? ?]; simpl in *; tauto.
Qed.

(** C6, as amended. [promptCount] and [evalCount] are [null] when the label
    is missing or its value is empty. Otherwise they are the Number of the
    first run of digits of the metric string (the integer it denotes,
    rounded to binary64), and NaN exactly when the string holds no digit.
    The conversion is a total function: nothing is thrown. *)
Theorem count_fields (r : RawModelRecord) :
  promptCount (App.normalize r) = count_field (metrics r !! lit "prompt eval count")
  /\ evalCount (App.normalize r) = count_field (metrics r !! lit "eval count")
  /\ (forall s, isNaN (digits_number s) = bool_decide (first_digit_run s = [])).
Proof.
  unfold App.normalize; simpl. rewrite !count_of_field.
  split; [reflexivity|]. split; [reflexivity|]. exact digits_number_nan.
Qed.

(** C6 as stated fails on a count without digits: the field is NaN, not
    [null]. *)
Lemma count_nan_counterexample :
  map evalCount (App.parse_report (lit "m:a" ++ LF ++ lit "eval count: n/a")) = [Some NaN]
  /\ first_digit_run (lit "n/a") = []
  /\ isFinite NaN = false
  /\ map evalCount (App.parse_report (lit "m:a" ++ LF ++ lit "eval count: n/a")) <> [None].
Proof. repeat split; try (vm_compute; reflexivity). vm_compute; discriminate. Qed.

(** [x === 3600] holds of the Number 3600 alone. *)
Lemma strict_eq_expected x :
  strict_eq x App.EXPECTED_ANSWER = true <-> x = num "3600".
Proof.
  change App.EXPECTED_ANSWER with (num "3600").
  replace (num "3600") with (S754_finite false 7916483719987200 (-41))
    by (vm_compute; reflexivity).
  unfold strict_eq, SFeqb.
  destruct x as [s|s| |s m e]; cbn [SFcompare].
  - split; discriminate.
  - destruct s; split; discriminate.
  - split; discriminate.
  - destruct s; [split; discriminate|].
    destruct (Z.compare_spec e (-41)) as [->| |];
      try (split; [discriminate | intros [= ? ?]; lia]).
    rewrite Pos.compare_cont_spec. cbn [Pos.switch_Eq].
    destruct (Pos.compare_spec m 7916483719987200) as [->|Hlt|Hlt];
      split; try discriminate; try reflexivity;
      intros [= ->]; exfalso; exact (Pos.lt_irrefl _ Hlt).
Qed.

(** C7. [correct] is a boolean of every parsed record; it is [true] exactly
    when [numericAnswer] is the Number 3600, and [false] in particular when
    there is no [numericAnswer]. *)
Theorem correct_iff_expected (txt : jsstring) :
  Forall (fun m => (correct m = true <-> numericAnswer (raw m) = Some (num "3600"))
                   /\ (numericAnswer (raw m) = None -> correct m = false))
    (App.parse_report txt).
Proof.
  unfold App.parse_report. apply Forall_map, Forall_forall. intros r _.
  unfold App.normalize; simpl. split.
  - rewrite strict_eq_expected. destruct (numericAnswer r) as [x|]; simpl.
    + split; [intros ->; reflexivity | intros [= ->]; reflexivity].
    + split; [intros H; vm_compute in H; discriminate | discriminate].
  - intros ->. reflexivity.
Qed.

(** *** Sorting *)

(** C9. Whatever the sort key, the direction, the records and the filter,
    in the order [renderGrid] shows, a record whose sort value is [null] or
    NaN comes after every record whose sort value is a Number other than
    NaN. The records shown are those that pass the filter, none lost. The
    same holds of any order that puts first whatever the comparator puts
    below zero, which is the sort order ECMAScript asks of every sorting
    algorithm. *)
Theorem absent_values_last (lower : jsstring -> jsstring) (cfg : Part000.SortState)
    (models : list ModelRecord) (filter : jsstring) :
  (forall i j a b,
     Part000.renderGrid lower cfg models filter !! i = Some a ->
     Part000.renderGrid lower cfg models filter !! j = Some b ->
     Part000.absent (Part000.getVal cfg a) = true ->
     Part000.absent (Part000.getVal cfg b) = false -> j < i)
  /\ Permutation (Part000.renderGrid lower cfg models filter)
       (if falsy (Some (lower (trim filter))) then models
        else List.filter (fun m => Part000.includes (lower (name (raw m)))
                                     (lower (trim filter))) models)
  /\ (forall out : list ModelRecord,
        (forall i j a b, out !! i = Some a -> out !! j = Some b ->
                         lt (Part000.compare_models cfg a b) zero = true -> i < j) ->
        forall i j a b, out !! i = Some a -> out !! j = Some b ->
          Part000.absent (Part000.getVal cfg a) = true ->
          Part000.absent (Part000.getVal cfg b) = false -> j < i).
Proof.
  split; [|split].
  - intros i j a b. apply missing_last_lookup. unfold Part000.renderGrid.
    apply sort_missing_last.
  - unfold Part000.renderGrid. apply sort_perm.
  - intros out Hs i j a b. apply ordered_lookup. exact Hs.
Qed.

Lemma absent_values_last_witness :
  Part000.renderGrid toLowerCase (Part000.mk_sort (lit "total") (lit "desc"))
    [sample "m:a" None; sample "m:b" (Some (num "2")); sample "m:c" (Some NaN);
     sample "m:d" (Some (num "7"))] (lit "M:")
  = [sample "m:d" (Some (num "7")); sample "m:b" (Some (num "2"));
     sample "m:a" None; sample "m:c" (Some NaN)]
  /\ 1 < 2.
Proof.
  split; [vm_compute; reflexivity|].
  exact (proj1 (absent_values_last toLowerCase
                  (Part000.mk_sort (lit "total") (lit "desc"))
                  [sample "m:a" None; sample "m:b" (Some (num "2"));
                   sample "m:c" (Some NaN); sample "m:d" (Some (num "7"))] (lit "M:"))
           2 1 (sample "m:a" None) (sample "m:b" (Some (num "2")))
           eq_refl eq_refl eq_refl eq_refl).
Defined.

(** *** The two revisions *)

(** C10. The parsing functions of the two revisions agree on every input:
    the duration parser, the numeric extractor, the loop over the lines,
    the normaliser, and [loadData] as a whole. *)
Theorem revisions_agree :
  (forall raw, App.parseDurationToSeconds raw = Part000.parseDurationToSeconds raw)
  /\ (forall text, App.extractNumberFromText text = Part000.extractNumberFromText text)
  /\ (forall st line, App.loop_body st line = Part000.loop_body st line)
  /\ (forall lines, App.scan lines = Part000.scan lines)
  /\ (forall m, App.normalize m = Part000.normalize m)
  /\ (forall txt, App.parse_report txt = Part000.parse_report txt)
  /\ (forall res, App.loadData res = Part000.loadData res).
Proof. repeat split. Qed.

(** *** End to end *)

(** The example of the specification: one model block with a total
    duration, an evaluation count and an answer line. *)
Example end_to_end :
  map (fun m => (name (raw m), totalSeconds m, evalCount m,
                 numericAnswer (raw m), correct m))
    (App.parse_report (lit "llama3:8b" ++ LF ++ lit "Step 5: 3600" ++ LF
                       ++ lit "total duration: 10m16.674888625s" ++ LF
                       ++ lit "eval count: 512"))
  = [(lit "llama3:8b", Some (num "616.674888625"), Some (num "512"),
      Some (num "3600"), true)].
Proof. vm_compute. reflexivity. Qed.

(** *** The decimal conversion against the floating-point unit

    [of_decimal] is meant to be the correctly rounded conversion that
    [Number] and [parseFloat] perform. The literals on the right are read by
    the kernel's own binary64 parser. *)

#[warnings="-inexact-float"]
Example decimal_conversion_checked :
  same_float "616.674888625" 616.674888625
  && same_float "16.674888625" 16.674888625
  && same_float "79.06375" 79.06375
  && same_float "0.07906375" 0.07906375
  && same_float "4743.90406375" 4743.90406375
  && same_float "36.477755333" 36.477755333
  && same_float "0.1" 0.1
  && same_float "9007199254740993" 9007199254740993
  && same_float "123456789012345678901234567890" 123456789012345678901234567890
  && same_float "0.1234567890123456789012345678901234567890"
       0.1234567890123456789012345678901234567890
  && same_float "2.2250738585072011" 2.2250738585072011
  = true.
Proof. vm_compute. reflexivity. Qed.

(** * Further properties of the code

    The lemmas come first, module by module; the properties follow. *)

(** ** More facts about the matchers *)

Module MatchFacts.

Lemma prev_after_app prev a b :
  prev_after prev (a ++ b) = prev_after (prev_after prev a) b.
Proof. revert prev. induction a as [|c a IH]; intros prev; simpl; auto. Qed.

(** When the rest of the pattern cannot start on a character of the class,
    a star gives nothing back: it stops at the end of the run. *)
Lemma star_from_longest p prev s caps k :
  (forall pv c s', p c = true -> k (mk_rstate pv (c :: s') caps) = None) ->
  star_from p prev s caps k
  = k (mk_rstate (prev_after prev (take_while p s)) (drop_while p s) caps).
Proof.
  intros Hk. revert prev. induction s as [|c s IH]; intros prev; simpl; [reflexivity|].
  destruct (p c) eqn:Hc; [|reflexivity]. simpl. rewrite IH.
  destruct (k _) eqn:E; [reflexivity|]. apply Hk, Hc.
Qed.

(** [exec] passes over the positions at which the pattern fails. *)
Lemma exec_from_skip r prev pre s i :
  (forall a b, pre = a ++ b -> b <> [] ->
               match_at r (prev_after prev a) (b ++ s) = None) ->
  exec_from r prev (pre ++ s) i = exec_from r (prev_after prev pre) s (i + length pre).
Proof.
  revert prev i. induction pre as [|c pre IH]; intros prev i H.
  - simpl. rewrite Nat.add_0_r. reflexivity.
  - pose proof (H [] (c :: pre) eq_refl ltac:(discriminate)) as H0.
    cbn [prev_after] in H0. rewrite <- app_comm_cons in *. cbn [exec_from].
    rewrite H0. cbn [prev_after]. rewrite IH.
    + f_equal. simpl. lia.
    + intros a b -> Hb. exact (H (c :: a) b eq_refl Hb).
Qed.

Lemma exec_from_here r prev s i st :
  match_at r prev s = Some st ->
  exec_from r prev s i
  = Some (mk_rmatch i (take (length s - length (r_rest st)) s) (r_caps st) (r_rest st)).
Proof. intros H. destruct s; simpl; rewrite H; reflexivity. Qed.

(** The first text [match] collects under [g] is the text [exec] finds. *)
Lemma match_all_head r prev s i :
  head (match_all_from r prev s 0) = m_text <$> exec_from r prev s i.
Proof.
  revert prev i. induction s as [|c s IH]; intros prev i; simpl.
  - destruct (match_at r prev []); reflexivity.
  - destruct (match_at r prev (c :: s)); [reflexivity|]. apply IH.
Qed.

(** A star followed by a continuation that always succeeds succeeds. *)
Lemma star_from_total p prev s caps (k : cont) :
  (forall st, k st <> None) -> star_from p prev s caps k <> None.
Proof.
  intros Hk. revert prev. induction s as [|c s IH]; intros prev; simpl; [apply Hk|].
  destruct (p c); [|apply Hk].
  destruct (star_from p (Some c) s caps k) eqn:E; [discriminate|]. apply Hk.
Qed.

End MatchFacts.
Import MatchFacts.

Module HeaderFacts.

Lemma name_char_not_colon c : is_name_char c = true -> (58 =? c)%N = false.
Proof.
  unfold is_name_char, is_upper, is_lower, is_digit.
  rewrite !orb_true_iff, !andb_true_iff, !N.leb_le, !N.eqb_eq.
  intros H. rewrite N.eqb_neq. lia.
Qed.

Lemma header_test_shape x : test App.re_header x = is_header_shape x.
Proof.
  unfold App.re_header. rewrite test_bol. unfold is_header_shape.
  unfold re_seq at 1, re_plus at 1, re_seq at 1, re_class at 1. cbn [r_rest r_caps].
  destruct x as [|c s]; [reflexivity|]. cbn [take_while drop_while].
  destruct (is_name_char c) eqn:Hc; [|reflexivity].
  unfold re_star. cbn [r_prev r_rest r_caps].
  rewrite star_from_longest.
  - unfold re_seq, re_char, re_class at 1. cbn [r_rest r_caps].
    destruct (drop_while is_name_char s) as [|c1 [|d s2]]; [reflexivity| |].
    + destruct (58 =? c1)%N; reflexivity.
    + rewrite (N.eqb_sym c1 58). destruct (58 =? c1)%N; [|reflexivity].
      unfold re_plus, re_seq, re_class. cbn [r_rest r_caps andb].
      destruct (is_name_char d); [|reflexivity].
      unfold re_star. cbn [r_prev r_rest r_caps].
      destruct (star_from_greedy is_name_char (Some d) s2 []) as [pv ->]. reflexivity.
  - intros pv c' s' Hc'. unfold re_seq, re_char, re_class. cbn [r_rest].
    rewrite (name_char_not_colon _ Hc'). reflexivity.
Qed.

End HeaderFacts.
Import HeaderFacts.

(** ** Invariants of the record builder *)

Module BuilderFacts.

(** From a property of the record builder to the records of a report *)
Lemma build_invariant (P : RawModelRecord -> Prop) :
  (forall n, P (mk_raw n None None ∅)) ->
  (forall c n raw, P c -> P (build_line c n raw)) ->
  forall s, P (build s).
Proof.
  intros H0 Hstep [n ls]. induction ls as [|l ls IH] using rev_ind.
  - apply H0.
  - rewrite build_snoc. apply Hstep, IH.
Qed.

Lemma scan_invariant (P : RawModelRecord -> Prop) lines :
  (forall s, P (build s)) -> Forall P (App.scan lines).
Proof.
  intros H. rewrite scan_segments. apply Forall_map, Forall_forall. intros s _. apply H.
Qed.

Lemma extract_finite t x :
  App.extractNumberFromText t = Some x -> isFinite x = true.
Proof.
  unfold App.extractNumberFromText. destruct (falsy t); [discriminate|].
  destruct (match_all _ _); [discriminate|].
  match goal with |- context [isFinite ?n] => destruct (isFinite n) eqn:E end;
    [intros [= <-]; exact E | discriminate].
Qed.

Lemma test_nonempty r x : test r [] = false -> test r x = true -> x <> [].
Proof. intros H0 H ->. congruence. Qed.

Lemma early_answer_nonempty x : App.early_answer x = true -> x <> [].
Proof. intros H ->. vm_compute in H. discriminate. Qed.

Lemma standalone_nonempty x : test App.re_standalone x = true -> x <> [].
Proof. intros H ->. vm_compute in H. discriminate. Qed.

Lemma with_answer_consistent c raw :
  trim raw <> [] -> answer_consistent (App.with_answer c raw).
Proof.
  intros Hne. unfold answer_consistent, App.with_answer. cbn [answerLine numericAnswer].
  split; [exact Hne|]. split; [apply trim_idem|]. split; [reflexivity|].
  destruct (App.extractNumberFromText (Some (trim raw))) eqn:E; [|exact I].
  exact (extract_finite _ _ E).
Qed.

Lemma build_line_consistent c n raw :
  answer_consistent c -> answer_consistent (build_line c n raw).
Proof.
  intros Hc. unfold build_line.
  destruct (falsy (answerLine c) && (n <=? 6) && App.early_answer (trim raw)) eqn:E1.
  - apply with_answer_consistent, early_answer_nonempty.
    apply andb_true_iff in E1 as [_ E1]. exact E1.
  - destruct (exec App.re_metric raw); [exact Hc|].
    destruct (falsy (answerLine c) && test App.re_standalone (trim raw)
              && negb (test App.re_metric_word (trim raw))) eqn:E2; [|exact Hc].
    apply with_answer_consistent, standalone_nonempty.
    apply andb_true_iff in E2 as [E2 _]. apply andb_true_iff in E2 as [_ E2]. exact E2.
Qed.

Lemma build_consistent s : answer_consistent (build s).
Proof.
  apply (build_invariant answer_consistent); [reflexivity|].
  intros c n raw. apply build_line_consistent.
Qed.

(** An answer line in place is never replaced. *)
Lemma build_line_keeps_answer c n raw a :
  answerLine c = Some a -> a <> [] ->
  answerLine (build_line c n raw) = Some a
  /\ numericAnswer (build_line c n raw) = numericAnswer c.
Proof.
  intros Ha Hne. unfold build_line. rewrite Ha.
  assert (Hf : falsy (Some a) = false) by (destruct a; [congruence|reflexivity]).
  rewrite Hf. cbn [andb].
  destruct (exec App.re_metric raw); cbn [answerLine numericAnswer]; auto.
Qed.

Lemma build_app_keeps_answer n l1 l2 a :
  answerLine (build (mk_segment n l1)) = Some a ->
  answerLine (build (mk_segment n (l1 ++ l2))) = Some a
  /\ numericAnswer (build (mk_segment n (l1 ++ l2)))
     = numericAnswer (build (mk_segment n l1)).
Proof.
  intros Ha. induction l2 as [|l l2 IH] using rev_ind.
  - rewrite app_nil_r. auto.
  - rewrite app_assoc, build_snoc. destruct IH as [IH1 IH2].
    pose proof (build_consistent (mk_segment n (l1 ++ l2))) as Hc.
    unfold answer_consistent in Hc. rewrite IH1 in Hc. destruct Hc as [Hne _].
    destruct (build_line_keeps_answer _ (S (length (l1 ++ l2))) l a IH1 Hne) as [-> ->].
    auto.
Qed.

(** Metrics *)
Lemma exec_bol r s :
  exec (re_seq re_bol r) s
  = match r (mk_rstate None s []) Some with
    | Some st => Some (mk_rmatch 0 (take (length s - length (r_rest st)) s)
                         (r_caps st) (r_rest st))
    | None => None
    end.
Proof.
  unfold exec. destruct s as [|c s]; cbn [exec_from].
  - unfold match_at, re_seq, re_bol. cbn [r_prev]. destruct (r _ Some); reflexivity.
  - unfold match_at at 1, re_seq at 1, re_bol at 1. cbn [r_prev].
    destruct (r _ Some); [reflexivity|]. apply exec_from_bol_later.
Qed.

(** What a match of the metric pattern reads: a label, a colon, white
    space, and a value that runs to the end of the line. *)
Lemma metric_match raw m :
  exec App.re_metric raw = Some m ->
  exists k ws v,
    raw = k ++ 58%N :: ws ++ v
    /\ group 1 m = Some k /\ group 2 m = Some v
    /\ In (toLowerCase k) labels
    /\ forallb is_white_space ws = true
    /\ v <> [] /\ forallb is_dot v = true.
Proof.
  unfold App.re_metric. rewrite exec_bol.
  destruct (re_seq _ _ _ Some) as [st|] eqn:Hm; [|discriminate]. intros [= <-].
  unfold re_seq at 1 in Hm.
  destruct (group_sound 1 _ _ consumes_label _ _ _ Hm) as (k & st1 & E1 & Lk & C1 & H1).
  unfold re_seq at 1 in H1.
  destruct (consumes_class _ _ _ _ H1) as (w2 & st2 & E2 & C2 & (c & -> & Hc) & H2).
  unfold re_seq at 1 in H2.
  destruct (consumes_star _ _ _ _ H2) as (ws & st3 & E3 & C3 & Hws & H3).
  unfold re_seq at 1 in H3.
  destruct (group_sound 2 _ _ (consumes_plus is_dot) _ _ _ H3)
    as (v & st4 & E4 & [Lv Hne] & C4 & H4).
  apply eol_sound in H4 as [Hnil H4]. injection H4 as <-.
  apply N.eqb_eq in Hc. subst c.
  exists k, ws, v. cbn [r_rest] in E1. rewrite E1, E2, E3, E4, Hnil, app_nil_r.
  unfold group. cbn [m_caps]. rewrite C4, C3, C2, C1. simpl.
  repeat split; auto.
Qed.

Lemma metric_of_wellformed raw k v :
  metric_of raw = Some (k, v) -> In k labels /\ trim v = v.
Proof.
  unfold metric_of. destruct (exec App.re_metric raw) as [m|] eqn:E; [|discriminate].
  intros [= <- <-].
  destruct (metric_match _ _ E) as (k & ws & v & _ & -> & -> & Hk & _).
  split; [exact Hk | apply trim_idem].
Qed.

(** What one content line does to [metrics] *)
Lemma build_line_metrics c n raw :
  metrics (build_line c n raw)
  = if falsy (answerLine c) && (n <=? 6) && App.early_answer (trim raw)
    then metrics c
    else match metric_of raw with
         | Some (k, v) => <[k := v]> (metrics c)
         | None => metrics c
         end.
Proof.
  unfold build_line, metric_of.
  destruct (falsy (answerLine c) && (n <=? 6) && App.early_answer (trim raw));
    [reflexivity|].
  destruct (exec App.re_metric raw); [reflexivity|].
  destruct (falsy (answerLine c) && test App.re_standalone (trim raw)
            && negb (test App.re_metric_word (trim raw))); reflexivity.
Qed.

Lemma build_line_wellformed c n raw :
  metrics_wellformed c -> metrics_wellformed (build_line c n raw).
Proof.
  intros Hc k v. rewrite build_line_metrics.
  destruct (falsy (answerLine c) && (n <=? 6) && App.early_answer (trim raw));
    [apply Hc|].
  destruct (metric_of raw) as [[k' v']|] eqn:E; [|apply Hc].
  destruct (decide (k' = k)) as [->|Hne].
  - rewrite lookup_insert_eq. intros [= <-]. exact (metric_of_wellformed _ _ _ E).
  - rewrite lookup_insert_ne by exact Hne. apply Hc.
Qed.

Lemma build_wellformed s : metrics_wellformed (build s).
Proof.
  apply (build_invariant metrics_wellformed).
  - intros n k v H. cbn [metrics] in H. rewrite lookup_empty in H. discriminate.
  - intros c n raw. apply build_line_wellformed.
Qed.

End BuilderFacts.
Import BuilderFacts.

(** ** Metric lines among the kinds of lines *)

Module MetricLineFacts.

Lemma drop_while_app_stop p (x y : jsstring) c :
  p c = false -> drop_while p (x ++ c :: y) = drop_while p x ++ c :: y.
Proof.
  intros Hc. induction x as [|a x IH]; simpl; [rewrite Hc; reflexivity|].
  destruct (p a); [exact IH | reflexivity].
Qed.

Lemma trimEnd_app_stop a c b :
  is_white_space c = false -> trimEnd (a ++ c :: b) = a ++ c :: trimEnd b.
Proof.
  intros Hc. unfold trimEnd, trimStart.
  rewrite reverse_app, reverse_cons, <- app_assoc. cbn [app].
  rewrite (drop_while_app_stop _ _ _ _ Hc), reverse_app, reverse_cons.
  rewrite reverse_involutive, <- app_assoc. reflexivity.
Qed.

Lemma letter_name_char c : is_letter c = true -> is_name_char c = true.
Proof.
  unfold is_letter, is_name_char. intros H.
  apply orb_true_iff in H as [->| ->]; [reflexivity|].
  rewrite orb_true_r. reflexivity.
Qed.

Lemma lower_unit_letter c :
  is_lower (lower_unit c) = true -> is_letter c = true.
Proof.
  unfold lower_unit, is_letter. destruct (is_upper c); [reflexivity|]. auto.
Qed.

Lemma lower_unit_space c : lower_unit c = 32%N -> c = 32%N.
Proof.
  unfold lower_unit, is_upper. destruct ((65 <=? c)%N && (c <=? 90)%N) eqn:E; [|auto].
  apply andb_true_iff in E as [E _]. apply N.leb_le in E. lia.
Qed.

(** A word that lower-cases to letters, a space and more is letters, a
    space and more. *)
Lemma lowered_word a' b' k :
  forallb is_lower a' = true -> toLowerCase k = a' ++ 32%N :: b' ->
  exists a b, k = a ++ 32%N :: b /\ length a = length a' /\ forallb is_letter a = true.
Proof.
  revert k. induction a' as [|x a' IH]; intros k Ha Hk.
  - destruct k as [|c k]; [discriminate|]. injection Hk as Hc _.
    apply lower_unit_space in Hc. subst c. exists [], k. auto.
  - destruct k as [|c k]; [discriminate|]. injection Hk as Hc Hk.
    simpl in Ha. apply andb_true_iff in Ha as [Hx Ha].
    destruct (IH k Ha Hk) as (a & b & -> & Hl & Hf).
    exists (c :: a), b. simpl. rewrite Hl, Hf.
    rewrite <- Hc in Hx. rewrite (lower_unit_letter _ Hx). auto.
Qed.

Lemma label_word k :
  In (toLowerCase k) labels ->
  exists a b, k = a ++ 32%N :: b /\ a <> [] /\ forallb is_letter a = true.
Proof.
  intros H. unfold labels in H.
  assert (Hw : exists a' b', toLowerCase k = a' ++ 32%N :: b'
                             /\ forallb is_lower a' = true /\ a' <> []).
  { unfold labels in H. simpl in H.
    repeat (destruct H as [H|H];
            [ rewrite <- H;
              first [ exists (lit "total"), (lit "duration");
                      split; [reflexivity|split; [reflexivity|discriminate]]
                    | exists (lit "load"), (lit "duration");
                      split; [reflexivity|split; [reflexivity|discriminate]]
                    | exists (lit "prompt"), (lit "eval count");
                      split; [reflexivity|split; [reflexivity|discriminate]]
                    | exists (lit "prompt"), (lit "eval duration");
                      split; [reflexivity|split; [reflexivity|discriminate]]
                    | exists (lit "prompt"), (lit "eval rate");
                      split; [reflexivity|split; [reflexivity|discriminate]]
                    | exists (lit "eval"), (lit "count");
                      split; [reflexivity|split; [reflexivity|discriminate]]
                    | exists (lit "eval"), (lit "duration");
                      split; [reflexivity|split; [reflexivity|discriminate]]
                    | exists (lit "eval"), (lit "rate");
                      split; [reflexivity|split; [reflexivity|discriminate]] ] |]).
    destruct H. }
  destruct Hw as (a' & b' & Hk & Ha' & Hne).
  destruct (lowered_word _ _ _ Ha' Hk) as (a & b & -> & Hl & Hf).
  exists a, b. repeat split; auto. intros ->. destruct a'; [congruence|discriminate].
Qed.

Lemma letter_not_space c : is_letter c = true -> is_white_space c = false.
Proof. intros H. apply name_char_not_space, letter_name_char, H. Qed.

(** The kind of a line that starts with letters and a space and holds a
    colon further on *)
Lemma word_line_kind a b rest :
  a <> [] -> forallb is_letter a = true ->
  classify (a ++ 32%N :: b ++ 58%N :: rest) = Content.
Proof.
  intros Hne Ha.
  destruct a as [|c a]; [congruence|]. simpl in Ha.
  apply andb_true_iff in Ha as [Hc Ha].
  assert (Htrim : trim ((c :: a) ++ 32%N :: b ++ 58%N :: rest)
                  = (c :: a) ++ 32%N :: b ++ 58%N :: trimEnd rest).
  { unfold trim, trimStart. cbn [app drop_while]. rewrite (letter_not_space _ Hc).
    replace (c :: a ++ 32%N :: b ++ 58%N :: rest)
      with ((c :: a ++ 32%N :: b) ++ 58%N :: rest)
      by (cbn [app]; rewrite <- app_assoc; reflexivity).
    rewrite trimEnd_app_stop by reflexivity.
    cbn [app]. rewrite <- app_assoc. reflexivity. }
  unfold classify, is_blank, is_fenced, is_header, App.isModelHeader.
  rewrite trim_idem, Htrim, header_test_shape. cbn [app falsy].
  unfold fence. change (lit "```") with [96; 96; 96]%N. cbn [startsWith].
  rewrite (name_char_not_backtick _ (letter_name_char _ Hc)). cbn [andb].
  unfold is_header_shape. cbn [take_while drop_while].
  rewrite (letter_name_char _ Hc).
  assert (Hd : forall y, drop_while is_name_char (a ++ 32%N :: y) = 32%N :: y).
  { clear -Ha. intros y. induction a as [|x a IH]; [reflexivity|]. simpl in *.
    apply andb_true_iff in Ha as [Hx Ha]. rewrite (letter_name_char _ Hx). auto. }
  rewrite Hd. destruct b; reflexivity.
Qed.

(** A line the metric pattern matches is a content line: neither blank,
    nor fenced, nor a header. *)
Lemma metric_line_content raw m :
  exec App.re_metric raw = Some m -> classify raw = Content.
Proof.
  intros H. destruct (metric_match _ _ H) as (k & ws & v & -> & _ & _ & Hk & _).
  destruct (label_word _ Hk) as (a & b & -> & Hne & Ha).
  rewrite <- app_assoc. cbn [app]. apply word_line_kind; assumption.
Qed.

End MetricLineFacts.
Import MetricLineFacts.

(** ** The open segment and the text that follows *)

Module GrowthFacts.

(** Reading more lines leaves the closed segments alone and only adds
    lines to the open one. *)
Lemma segment_fold_extends more done cur :
  exists ext tail,
    fst (fold_left segment_step more (done, cur))
    ++ option_list (snd (fold_left segment_step more (done, cur)))
    = done
      ++ match cur with
         | Some s => [mk_segment (seg_name s) (bodyLines s ++ ext)]
         | None => []
         end
      ++ tail.
Proof.
  revert done cur. induction more as [|l more IH]; intros done cur.
  - exists [], []. simpl. destruct cur as [[n ls]|]; simpl; rewrite ?app_nil_r; reflexivity.
  - cbn [fold_left]. unfold segment_step at 2 4. destruct (classify l).
    + cbn [fst snd].
      replace (fst (done, cur), snd (done, cur)) with (done, cur) by reflexivity.
      destruct (IH done cur) as (ext & tail & E).
      exists ext, tail. destruct cur; exact E.
    + cbn [fst snd]. destruct (IH (done ++ option_list cur)
                                 (Some (mk_segment (header_name l) []))) as (ext & tail & E).
      rewrite E. destruct cur as [[n ls]|]; cbn [option_list seg_name bodyLines].
      * exists [], ([mk_segment (header_name l) ([] ++ ext)] ++ tail).
        rewrite app_nil_r, <- !app_assoc. reflexivity.
      * exists [], ([mk_segment (header_name l) ([] ++ ext)] ++ tail).
        rewrite app_nil_r. reflexivity.
    + cbn [fst snd]. destruct cur as [[n ls]|].
      * cbn [seg_name bodyLines].
        destruct (IH done (Some (mk_segment n (ls ++ [l])))) as (ext & tail & E).
        exists (l :: ext), tail. rewrite E. cbn [seg_name bodyLines].
        rewrite <- app_assoc. reflexivity.
      * destruct (IH done None) as (ext & tail & E). exists ext, tail. exact E.
Qed.

(** After a header line a segment is open. *)
Lemma segment_fold_open lines done cur :
  existsb is_header lines = true ->
  exists s, snd (fold_left segment_step lines (done, cur)) = Some s.
Proof.
  induction lines as [|l lines IH] using rev_ind; [discriminate|].
  rewrite existsb_app, fold_left_app. cbn [existsb fold_left]. rewrite orb_false_r.
  intros H. unfold segment_step at 1.
  destruct (classify l) eqn:E.
  - destruct (is_header l) eqn:Hl.
    + rewrite <- headed_is_header in Hl. unfold headed in Hl. rewrite E in Hl. discriminate.
    + rewrite orb_false_r in H. destruct (IH H) as (s & Hs).
      exists s. rewrite <- Hs. destruct (fold_left _ _ _); reflexivity.
  - eexists. reflexivity.
  - destruct (is_header l) eqn:Hl.
    + rewrite <- headed_is_header in Hl. unfold headed in Hl. rewrite E in Hl. discriminate.
    + rewrite orb_false_r in H. destruct (IH H) as (s & Hs).
      rewrite Hs. eexists. reflexivity.
Qed.

Lemma not_header_not_headed ls :
  Forall (fun l => is_header l = false) ls -> Forall (fun l => headed l = false) ls.
Proof.
  intros H. eapply Forall_impl; [exact H|]. intros l. rewrite headed_is_header. auto.
Qed.

(** The last record after a header line and lines that are not headers *)
Lemma scan_open_segment pre body :
  existsb is_header pre = true -> Forall (fun l => is_header l = false) body ->
  exists n ls,
    last (App.scan pre) = Some (build (mk_segment n ls))
    /\ last (App.scan (pre ++ body))
       = Some (build (mk_segment n (ls ++ List.filter is_content body))).
Proof.
  intros Hpre Hbody. rewrite !scan_segments. unfold segments. rewrite fold_left_app.
  destruct (segment_fold_open pre [] None Hpre) as ([n ls] & Hs).
  destruct (fold_left segment_step pre ([], None)) as [done cur]. cbn [snd] in Hs. subst cur.
  rewrite (segment_fold_content _ _ _ (not_header_not_headed _ Hbody)).
  cbn [fst snd option_list seg_name bodyLines].
  exists n, ls. rewrite !map_app. simpl option_list. simpl map. rewrite !last_snoc. auto.
Qed.

(** Within one record, the value of a label is the one of the last line
    that sets it. *)
Lemma build_metric_last n l1 raw l2 k v :
  metric_of raw = Some (k, v) -> App.early_answer (trim raw) = false ->
  Forall (fun l => forall v', metric_of l <> Some (k, v')) l2 ->
  metrics (build (mk_segment n (l1 ++ raw :: l2))) !! k = Some v.
Proof.
  intros Hm He. induction l2 as [|l l2 IH] using rev_ind; intros Hl2.
  - rewrite build_snoc, build_line_metrics, He, andb_false_r, Hm.
    apply lookup_insert_eq.
  - apply Forall_app in Hl2 as [Hl2 Hl]. inversion Hl as [|? ? Hl' _]; subst.
    rewrite app_comm_cons, app_assoc, build_snoc, build_line_metrics.
    destruct (falsy _ && _ && _); [exact (IH Hl2)|].
    destruct (metric_of l) as [[k' v']|] eqn:E; [|exact (IH Hl2)].
    rewrite lookup_insert_ne; [exact (IH Hl2)|].
    intros ->. exact (Hl' _ eq_refl).
Qed.

(** The metric pattern matches no line that opens with white space. *)
Lemma indented_no_metric raw : indented raw = true -> exec App.re_metric raw = None.
Proof.
  intros Hi. destruct (exec App.re_metric raw) as [m|] eqn:E; [|reflexivity].
  destruct (metric_match _ _ E) as (k & ws & v & -> & _ & _ & Hk & _).
  destruct (label_word _ Hk) as (a & b & -> & Hne & Ha).
  destruct a as [|c a]; [congruence|]. simpl in Ha, Hi.
  apply andb_true_iff in Ha as [Hc _]. rewrite (letter_not_space _ Hc) in Hi. discriminate.
Qed.

End GrowthFacts.
Import GrowthFacts.

(** ** Splitting the text into lines *)

Module SplitFacts.

Lemma split_lines_from_cons acc s :
  exists l ls, split_lines_from acc s = l :: ls.
Proof.
  revert acc. induction s as [|c s IH]; intros acc; simpl; [eauto|].
  destruct (c =? 10)%N; [eauto|].
  destruct (c =? 13)%N; [|apply IH].
  destruct s as [|d s']; [apply IH|].
  destruct (d =? 10)%N; [eauto|apply IH].
Qed.

Lemma split_lines_crlf acc s :
  has_cr s = false -> split_lines_from acc (to_crlf s) = split_lines_from acc s.
Proof.
  revert acc. induction s as [|c s IH]; intros acc H; [reflexivity|].
  unfold has_cr in H. cbn [existsb] in H. apply orb_false_iff in H as [Hc Hs]. cbn [to_crlf].
  destruct (c =? 10)%N eqn:E10.
  - cbn [split_lines_from]. rewrite E10. cbn. rewrite (IH [] Hs). reflexivity.
  - cbn [split_lines_from]. rewrite E10. rewrite N.eqb_sym, Hc. apply IH, Hs.
Qed.

Lemma join_lines_cons l ls :
  ls <> [] -> join_lines (l :: ls) = l ++ 10%N :: join_lines ls.
Proof. destruct ls; [congruence|reflexivity]. Qed.

Lemma strip_cr_cons c s :
  strip_cr (c :: s)
  = match s with
    | d :: _ => if (c =? 13)%N && (d =? 10)%N then strip_cr s else c :: strip_cr s
    | [] => [c]
    end.
Proof. reflexivity. Qed.

Lemma join_split_from acc s :
  join_lines (split_lines_from acc s) = reverse acc ++ strip_cr s.
Proof.
  revert acc. induction s as [|c s IH]; intros acc.
  - simpl. rewrite app_nil_r. reflexivity.
  - cbn [split_lines_from]. rewrite strip_cr_cons.
    destruct (c =? 10)%N eqn:E10.
    + apply N.eqb_eq in E10. subst c.
      destruct (split_lines_from_cons [] s) as (l & ls & E).
      rewrite join_lines_cons by (rewrite E; discriminate).
      rewrite (IH []). cbn [reverse rev_append app].
      destruct s; reflexivity.
    + destruct (c =? 13)%N eqn:E13.
      * destruct s as [|d s']; [rewrite IH, reverse_cons, <- app_assoc; reflexivity|].
        destruct (d =? 10)%N eqn:Ed.
        -- cbn [andb]. rewrite <- IH. cbn [split_lines_from]. rewrite Ed. reflexivity.
        -- cbn [andb]. rewrite IH, reverse_cons, <- app_assoc. reflexivity.
      * rewrite IH, reverse_cons, <- app_assoc. cbn [andb].
        destruct s; reflexivity.
Qed.

Lemma split_lines_no_lf acc s :
  has_lf acc = false ->
  Forall (fun l => has_lf l = false) (split_lines_from acc s).
Proof.
  assert (Hrev : forall a, has_lf a = false -> has_lf (reverse a) = false).
  { intros a. unfold has_lf. induction a as [|x a IHa]; [reflexivity|].
    cbn [existsb]. intros H. apply orb_false_iff in H as [Hx Ha].
    rewrite reverse_cons, existsb_app, (IHa Ha). cbn [existsb]. rewrite Hx. reflexivity. }
  revert acc. induction s as [|c s IH]; intros acc Hacc.
  - simpl. constructor; auto.
  - assert (Hpush : (c =? 10)%N = false -> has_lf (c :: acc) = false).
    { intros E. unfold has_lf. cbn [existsb]. rewrite N.eqb_sym, E. exact Hacc. }
    cbn [split_lines_from]. destruct (c =? 10)%N eqn:E10.
    + constructor; auto.
    + destruct (c =? 13)%N; [|auto].
      destruct s as [|d s']; [auto|].
      destruct (d =? 10)%N eqn:Ed; [|auto].
      constructor; auto.
      pose proof (IH [] eq_refl) as Ht. cbn [split_lines_from] in Ht. rewrite Ed in Ht.
      exact (Forall_inv_tail Ht).
Qed.

(** Splitting what [join_lines] built gives the lines back. *)
Lemma split_join_from acc l ls :
  has_lf l = false ->
  Forall (fun x => has_lf x = false) ls ->
  Forall (fun x => ends_with_cr x = false) (removelast ((reverse acc ++ l) :: ls)) ->
  split_lines_from acc (join_lines (l :: ls)) = (reverse acc ++ l) :: ls.
Proof.
  assert (Hline : forall acc l, has_lf l = false ->
            split_lines_from acc l = [reverse acc ++ l]).
  { intros a x. revert a. induction x as [|c x IH]; intros a H.
    - simpl. rewrite app_nil_r. reflexivity.
    - unfold has_lf in H. cbn [existsb] in H. apply orb_false_iff in H as [Hc Hx].
      cbn [split_lines_from].
      rewrite N.eqb_sym, Hc.
      assert (E : split_lines_from (c :: a) x = [reverse a ++ c :: x]).
      { rewrite IH by exact Hx. rewrite reverse_cons, <- app_assoc. reflexivity. }
      destruct (c =? 13)%N; [|exact E].
      destruct x as [|d x']; [exact E|].
      cbn [existsb] in Hx. apply orb_false_iff in Hx as [Hd _]. rewrite N.eqb_sym, Hd. exact E. }
  assert (Hstep : forall acc l rest, has_lf l = false -> ends_with_cr (reverse acc ++ l) = false ->
            split_lines_from acc (l ++ 10%N :: rest)
            = (reverse acc ++ l) :: split_lines_from [] rest).
  { intros a x rest. revert a. induction x as [|c x IH]; intros a H Hcr.
    - simpl. rewrite app_nil_r. reflexivity.
    - unfold has_lf in H. cbn [existsb] in H. apply orb_false_iff in H as [Hc Hx].
      cbn [app split_lines_from]. rewrite N.eqb_sym, Hc.
      assert (E : split_lines_from (c :: a) (x ++ 10%N :: rest)
                  = (reverse a ++ c :: x) :: split_lines_from [] rest).
      { rewrite IH; [rewrite reverse_cons, <- app_assoc; reflexivity | exact Hx |].
        rewrite reverse_cons, <- app_assoc. exact Hcr. }
      destruct (c =? 13)%N eqn:E13; [|exact E].
      destruct x as [|d x'].
      + exfalso. unfold ends_with_cr in Hcr. rewrite reverse_app in Hcr.
        cbn in Hcr. congruence.
      + cbn [app]. cbn [existsb] in Hx. apply orb_false_iff in Hx as [Hd _].
        rewrite N.eqb_sym, Hd. exact E. }
  revert acc l. induction ls as [|m ls IH]; intros acc l Hl Hls Hcr.
  - simpl. apply Hline, Hl.
  - rewrite join_lines_cons by discriminate.
    inversion Hls as [|? ? Hm Hls']; subst.
    change (removelast ((reverse acc ++ l) :: m :: ls))
      with ((reverse acc ++ l) :: removelast (m :: ls)) in Hcr.
    inversion Hcr as [|? ? Hc1 Hc2]; subst.
    rewrite Hstep by assumption. f_equal.
    apply (IH [] m Hm Hls'). exact Hc2.
Qed.

End SplitFacts.
Import SplitFacts.

(** ** Numeric tokens and digits *)

Module TokenFacts.

Lemma has_digit_take n s : has_digit (take n s) = true -> has_digit s = true.
Proof.
  intros H. rewrite <- (take_drop n s). unfold has_digit in *.
  rewrite existsb_app, H. reflexivity.
Qed.

Lemma signed_word_has_digit w : signed_decimal_word w -> has_digit w = true.
Proof.
  intros [H|(d & -> & H)]; destruct (decimal_word_head _ H) as (c & w' & -> & Hc);
    unfold has_digit; cbn [existsb]; rewrite Hc; rewrite ?orb_true_r; reflexivity.
Qed.

Lemma number_no_digit prev s :
  has_digit s = false -> match_at App.re_number prev s = None.
Proof.
  intros H. destruct (match_at App.re_number prev s) as [st|] eqn:E; [|reflexivity].
  pose proof (match_at_consumed _ _ _ _ _ consumes_number E) as Hw.
  apply signed_word_has_digit, has_digit_take in Hw. congruence.
Qed.

Lemma match_all_no_digit prev s skip :
  has_digit s = false -> match_all_from App.re_number prev s skip = [].
Proof.
  revert prev skip. induction s as [|c s IH]; intros prev skip H.
  - cbn [match_all_from]. rewrite (number_no_digit prev [] H). destruct skip; reflexivity.
  - cbn [match_all_from]. rewrite (number_no_digit prev (c :: s) H).
    unfold has_digit in H. cbn [existsb] in H. apply orb_false_iff in H as [_ H].
    destruct skip; apply IH; exact H.
Qed.

(** The number pattern matches wherever a digit stands. *)
Lemma number_at_digit prev c s :
  is_digit c = true -> match_at App.re_number prev (c :: s) <> None.
Proof.
  intros Hc. unfold match_at, App.re_number.
  unfold re_seq at 1, re_opt at 1, re_alt at 1, re_char at 1, re_class at 1.
  cbn [r_rest r_caps]. rewrite N.eqb_sym, (digit_not_minus _ Hc).
  unfold re_eps, re_seq at 1, re_plus at 1, re_seq at 1, re_class at 1.
  cbn [r_rest r_caps]. rewrite Hc. unfold re_star. cbn [r_prev r_rest r_caps].
  apply star_from_total. intros st. unfold re_opt, re_alt.
  destruct (re_seq _ _ st Some); discriminate.
Qed.

Lemma match_all_some prev s :
  has_digit s = true -> match_all_from App.re_number prev s 0 <> [].
Proof.
  revert prev. induction s as [|c s IH]; intros prev H; [discriminate|].
  cbn [match_all_from].
  destruct (match_at App.re_number prev (c :: s)) as [st|] eqn:E; [discriminate|].
  unfold has_digit in H. cbn [existsb] in H.
  destruct (is_digit c) eqn:Hc.
  - exfalso. exact (number_at_digit prev c s Hc E).
  - apply IH. exact H.
Qed.

Lemma separator_not_digit c : is_separator c = true -> is_digit c = false.
Proof.
  unfold is_separator, is_digit. rewrite !orb_true_iff, !N.eqb_eq.
  intros [[->| ->]| ->]; reflexivity.
Qed.

Lemma has_digit_replace s :
  has_digit (replace_class is_separator 32 s) = has_digit s.
Proof.
  unfold has_digit, replace_class. induction s as [|c s IH]; [reflexivity|].
  cbn [map existsb]. rewrite IH. f_equal.
  destruct (is_separator c) eqn:E; [|reflexivity].
  rewrite (separator_not_digit _ E). reflexivity.
Qed.

Lemma tokens_iff_digit text :
  numeric_tokens text = [] <-> has_digit text = false.
Proof.
  unfold numeric_tokens, match_all. rewrite <- (has_digit_replace text). split.
  - intros H. destruct (has_digit _) eqn:E; [|reflexivity].
    exfalso. exact (match_all_some None _ E H).
  - apply match_all_no_digit.
Qed.

(** A Number that is neither zero nor NaN nor negative is above zero. *)
Lemma nonneg_truthy_positive x : nonneg x -> truthy x = true -> lt zero x = true.
Proof. destruct x as [[]|[]| |[] m e]; simpl; intros; try contradiction; try discriminate; reflexivity. Qed.

Lemma parseDuration_positive raw x :
  App.parseDurationToSeconds raw = Some x -> lt zero x = true.
Proof.
  unfold App.parseDurationToSeconds. destruct (falsy raw); [discriminate|].
  destruct (truthy _) eqn:E; [|discriminate]. intros [= <-].
  apply nonneg_truthy_positive; [apply duration_sum_nonneg | exact E].
Qed.

End TokenFacts.
Import TokenFacts.

(** ** The unit patterns on well-formed durations *)

Module UnitFacts.

Lemma is_decimal_word w : is_decimal w = true -> decimal_word w.
Proof.
  unfold is_decimal, parse_unsigned. intros H.
  pose proof (take_drop_while is_digit w) as E.
  destruct (drop_while is_digit w) as [|c fp] eqn:Ed.
  - destruct (all_digits (take_while is_digit w)) eqn:Ha; [|discriminate].
    rewrite app_nil_r in E. exists (take_while is_digit w), []. rewrite E in *. auto.
  - destruct ((c =? 46)%N && all_digits (take_while is_digit w) && all_digits fp) eqn:Hc;
      [|discriminate].
    apply andb_true_iff in Hc as [Hc Hfp]. apply andb_true_iff in Hc as [Hc Hip].
    apply N.eqb_eq in Hc. subst c.
    exists (take_while is_digit w), fp. split; [exact Hip|]. right. auto.
Qed.

Lemma all_digits_cons ds :
  all_digits ds = true ->
  exists d ds', ds = d :: ds' /\ is_digit d = true /\ forallb is_digit ds' = true.
Proof.
  unfold all_digits. destruct ds as [|d ds]; [rewrite andb_false_r; discriminate|].
  cbn [forallb length Nat.eqb negb]. rewrite andb_true_r. intros H.
  apply andb_true_iff in H as [Hd Hds]. eauto.
Qed.

Lemma digit_decimal_char c : is_digit c = true -> is_decimal_char c = true.
Proof. unfold is_decimal_char. intros ->. reflexivity. Qed.

Lemma all_digits_decimal ds : all_digits ds = true -> forallb is_decimal_char ds = true.
Proof.
  unfold all_digits. intros H. apply andb_true_iff in H as [H _].
  rewrite forallb_forall in *. intros c Hc. apply digit_decimal_char, H, Hc.
Qed.

Lemma decimal_word_chars w :
  decimal_word w -> forallb is_decimal_char w = true /\ w <> [].
Proof.
  intros (ip & fp & Hip & [[-> ->]|[Hfp ->]]).
  - split; [apply all_digits_decimal, Hip|].
    destruct (all_digits_cons _ Hip) as (d & ds & -> & _). discriminate.
  - split.
    + rewrite forallb_app. cbn [forallb].
      rewrite (all_digits_decimal _ Hip), (all_digits_decimal _ Hfp). reflexivity.
    + destruct ip; discriminate.
Qed.

Lemma not_decimal_not_digit c : is_decimal_char c = false -> is_digit c = false.
Proof. unfold is_decimal_char. intros H. apply orb_false_iff in H. apply H. Qed.

Lemma not_decimal_not_point c : is_decimal_char c = false -> (46 =? c)%N = false.
Proof.
  unfold is_decimal_char. intros H. apply orb_false_iff in H as [_ H].
  rewrite N.eqb_sym. exact H.
Qed.

(** A literal matches where it stands. *)
Lemma re_str_match u prev rest caps (k : cont) :
  re_str u (mk_rstate prev (u ++ rest) caps) k
  = k (mk_rstate (prev_after prev u) rest caps).
Proof.
  revert prev. induction u as [|c u IH]; intros prev; [reflexivity|].
  cbn [re_str app prev_after]. unfold re_seq, re_char, re_class. cbn [r_rest r_caps].
  rewrite N.eqb_refl. apply IH.
Qed.

Lemma re_str_stop c u prev d rest caps (k : cont) :
  (c =? d)%N = false ->
  re_str (c :: u) (mk_rstate prev (d :: rest) caps) k = None.
Proof.
  intros H. cbn [re_str]. unfold re_seq, re_char, re_class. cbn [r_rest]. rewrite H.
  reflexivity.
Qed.

(** A run of digits is read whole when what follows in the pattern
    cannot start on a digit. *)
Lemma plus_digits_longest ds prev rest caps (k : cont) :
  all_digits ds = true ->
  match rest with [] => True | c :: _ => is_digit c = false end ->
  (forall pv c s', is_digit c = true -> k (mk_rstate pv (c :: s') caps) = None) ->
  re_plus is_digit (mk_rstate prev (ds ++ rest) caps) k
  = k (mk_rstate (prev_after prev ds) rest caps).
Proof.
  intros Hds Hrest Hk. destruct (all_digits_cons _ Hds) as (d & ds' & -> & Hd & Hds').
  unfold re_plus, re_seq, re_class. cbn [app r_rest r_caps]. rewrite Hd.
  unfold re_star. cbn [r_prev r_rest r_caps].
  rewrite (star_from_longest _ _ _ _ _ Hk).
  destruct (take_drop_while_stop is_digit ds' rest Hds' Hrest) as [-> ->]. reflexivity.
Qed.

Lemma digit_not_unit u0 d :
  is_decimal_char u0 = false -> is_digit d = true -> (u0 =? d)%N = false.
Proof.
  intros Hu Hd. apply N.eqb_neq. intros ->.
  rewrite (not_decimal_not_digit _ Hu) in Hd. discriminate.
Qed.

(** At the start of a well-formed number followed by the unit, the unit
    pattern matches and captures the number. *)
Lemma unit_match_here u0 u w prev rest :
  is_decimal w = true -> is_decimal_char u0 = false ->
  exists pv,
    match_at (App.re_unit (u0 :: u)) prev (w ++ (u0 :: u) ++ rest)
    = Some (mk_rstate pv rest [(1, w)]).
Proof.
  intros Hw Hu. destruct (is_decimal_word _ Hw) as (ip & fp & Hip & Hshape).
  unfold match_at, App.re_unit. unfold re_seq at 1, re_group at 1, re_seq at 1.
  set (st0 := mk_rstate prev (w ++ (u0 :: u) ++ rest) []).
  set (K1 := fun st' : rstate =>
               re_str (u0 :: u)
                 (mk_rstate (r_prev st') (r_rest st') ((1, consumed st0 st') :: r_caps st'))
                 Some).
  assert (HK1 : forall pv c s', is_digit c = true -> K1 (mk_rstate pv (c :: s') []) = None).
  { intros pv c s' Hc. unfold K1. cbn [r_prev r_rest r_caps].
    apply re_str_stop, digit_not_unit; assumption. }
  assert (Hend : forall pv, K1 (mk_rstate pv ((u0 :: u) ++ rest) [])
                            = Some (mk_rstate (prev_after pv (u0 :: u)) rest [(1, w)])).
  { intros pv. unfold K1. cbn [r_prev r_rest r_caps].
    rewrite re_str_match. rewrite (consumed_app st0 _ w); reflexivity. }
  destruct Hshape as [[-> ->]|[Hfp ->]].
  - subst st0. rewrite plus_digits_longest; [| exact Hip | | ].
    + unfold re_opt, re_alt, re_seq at 1, re_char at 1, re_class at 1.
      cbn [app r_rest r_caps]. rewrite (not_decimal_not_point _ Hu).
      unfold re_eps. eexists. apply Hend.
    + cbn [app]. apply not_decimal_not_digit, Hu.
    + intros pv c s' Hc. unfold re_opt, re_alt, re_seq at 1, re_char at 1, re_class at 1.
      cbn [r_rest r_caps].
      assert (H46 : (46 =? c)%N = false).
      { apply N.eqb_neq. intros <-. discriminate. }
      rewrite H46. unfold re_eps. apply HK1, Hc.
  - subst st0. rewrite <- app_assoc. cbn [app].
    rewrite plus_digits_longest; [| exact Hip | reflexivity | ].
    + unfold re_opt, re_alt, re_seq at 1, re_char at 1, re_class at 1.
      cbn [r_rest r_caps]. rewrite N.eqb_refl.
      rewrite plus_digits_longest; [| exact Hfp | | exact HK1 ].
      * rewrite Hend. eexists. reflexivity.
      * cbn [app]. apply not_decimal_not_digit, Hu.
    + intros pv c s' Hc. unfold re_opt, re_alt, re_seq at 1, re_char at 1, re_class at 1.
      cbn [r_rest r_caps].
      assert (H46 : (46 =? c)%N = false).
      { apply N.eqb_neq. intros <-. discriminate. }
      rewrite H46. unfold re_eps. apply HK1, Hc.
Qed.

(** What the unit pattern reads: a decimal and the unit. *)
Lemma unit_match_shape u prev s st :
  match_at (App.re_unit u) prev s = Some st ->
  exists w, decimal_word w /\ s = w ++ u ++ r_rest st.
Proof.
  unfold match_at, App.re_unit, re_seq at 1. intros Hm.
  destruct (group_sound 1 _ _ consumes_decimal _ _ _ Hm) as (w & st' & E & Lw & _ & Hk).
  destruct (consumes_str u _ _ _ Hk) as (x & st'' & E' & _ & -> & Hres).
  injection Hres as <-. exists w. split; [exact Lw|].
  cbn [r_rest] in E. rewrite E, E'. reflexivity.
Qed.

Lemma first_stop p (a b : jsstring) c d x y :
  forallb p a = true -> forallb p b = true -> p c = false -> p d = false ->
  a ++ c :: x = b ++ d :: y -> a = b /\ c = d.
Proof.
  intros Ha Hb Hc Hd E.
  destruct (take_drop_while_stop p a (c :: x) Ha Hc) as [Ta Da].
  destruct (take_drop_while_stop p b (d :: y) Hb Hd) as [Tb Db].
  rewrite E in Ta, Da. split; [congruence|]. congruence.
Qed.

(** The unit pattern fails where the number is followed by another letter. *)
Lemma unit_fails_at u0 u prev x c t :
  forallb is_decimal_char x = true -> is_decimal_char c = false ->
  is_decimal_char u0 = false -> c <> u0 ->
  match_at (App.re_unit (u0 :: u)) prev (x ++ c :: t) = None.
Proof.
  intros Hx Hc Hu Hne.
  destruct (match_at _ _ _) as [st|] eqn:E; [|reflexivity]. exfalso.
  destruct (unit_match_shape _ _ _ _ E) as (w & Hw & Hs).
  destruct (decimal_word_chars _ Hw) as [Hwc _]. cbn [app] in Hs.
  destruct (first_stop _ _ _ _ _ _ _ Hx Hwc Hc Hu Hs) as [_ ?]. auto.
Qed.

Lemma unit_fails_short u prev s :
  length s <= length u -> match_at (App.re_unit u) prev s = None.
Proof.
  intros Hl. destruct (match_at _ _ _) as [st|] eqn:E; [|reflexivity]. exfalso.
  destruct (unit_match_shape _ _ _ _ E) as (w & Hw & ->).
  destruct (decimal_word_chars _ Hw) as [_ Hne].
  rewrite !length_app in Hl. destruct w; [congruence|]. simpl in Hl. lia.
Qed.

(** The search walks over a number that is followed by another letter. *)
Lemma unit_skip u0 u prev w c t i :
  forallb is_decimal_char w = true -> is_decimal_char c = false ->
  is_decimal_char u0 = false -> c <> u0 ->
  exec_from (App.re_unit (u0 :: u)) prev ((w ++ [c]) ++ t) i
  = exec_from (App.re_unit (u0 :: u)) (prev_after prev (w ++ [c])) t (i + length (w ++ [c])).
Proof.
  intros Hw Hc Hu Hne. apply exec_from_skip. intros a b E Hb.
  apply app_eq_app in E as (l & [[-> ->]|[-> E]]).
  - rewrite forallb_app in Hw. apply andb_true_iff in Hw as [_ Hl].
    rewrite <- !app_assoc. cbn [app]. apply unit_fails_at; auto.
  - (* [b] lies within [[c]] *)
    destruct l as [|c' l].
    + cbn [app] in E. subst b. cbn [app]. apply (unit_fails_at u0 u _ [] c t); auto.
    + injection E as <- E. symmetry in E. apply app_eq_nil in E as [_ ->]. congruence.
Qed.

Lemma exec_from_here_caps r prev s i pv rest caps :
  match_at r prev s = Some (mk_rstate pv rest caps) ->
  exists m, exec_from r prev s i = Some m /\ m_caps m = caps.
Proof.
  intros H. rewrite (exec_from_here _ _ _ _ _ H). eexists. split; reflexivity.
Qed.

Lemma exec_from_nil r prev i : match_at r prev [] = None -> exec_from r prev [] i = None.
Proof. intros H. cbn [exec_from]. rewrite H. reflexivity. Qed.

(** The three searches on [w ++ "s"], [w ++ "m" ++ v ++ "s"] and [w ++ "ms"] *)
Lemma exec_units_s w :
  is_decimal w = true ->
  exec (App.re_unit (lit "m")) (w ++ lit "s") = None
  /\ exists m, exec (App.re_unit (lit "s")) (w ++ lit "s") = Some m /\ m_caps m = [(1, w)].
Proof.
  intros Hw. destruct (decimal_word_chars _ (is_decimal_word _ Hw)) as [Hc _]. split.
  - unfold exec. rewrite <- (app_nil_r (w ++ lit "s")).
    change (lit "s") with [115%N]. change (lit "m") with [109%N].
    rewrite unit_skip by (auto; discriminate).
    apply exec_from_nil, unit_fails_short. simpl. lia.
  - unfold exec. change (lit "s") with ([115%N] ++ []) at 2.
    destruct (unit_match_here 115 [] w None [] Hw eq_refl) as (pv & H).
    exact (exec_from_here_caps _ _ _ _ _ _ _ H).
Qed.

Lemma exec_units_ms w v :
  is_decimal w = true -> is_decimal v = true ->
  (exists m, exec (App.re_unit (lit "m")) (w ++ lit "m" ++ v ++ lit "s") = Some m
             /\ m_caps m = [(1, w)])
  /\ (exists m, exec (App.re_unit (lit "s")) (w ++ lit "m" ++ v ++ lit "s") = Some m
                /\ m_caps m = [(1, v)]).
Proof.
  intros Hw Hv. destruct (decimal_word_chars _ (is_decimal_word _ Hw)) as [Hc _]. split.
  - unfold exec.
    destruct (unit_match_here 109 [] w None (v ++ lit "s") Hw eq_refl) as (pv & H).
    exact (exec_from_here_caps _ _ _ _ _ _ _ H).
  - unfold exec. change (lit "m") with [109%N]. rewrite app_assoc.
    change (lit "s") with [115%N] at 1.
    rewrite unit_skip by (auto; discriminate).
    destruct (unit_match_here 115 [] v (prev_after None (w ++ [109%N])) [] Hv eq_refl)
      as (pv & H).
    change (lit "s") with ([115%N] ++ []).
    exact (exec_from_here_caps _ _ _ _ _ _ _ H).
Qed.

Lemma exec_units_milli w :
  is_decimal w = true ->
  (exists m, exec (App.re_unit (lit "m")) (w ++ lit "ms") = Some m /\ m_caps m = [(1, w)])
  /\ exec (App.re_unit (lit "s")) (w ++ lit "ms") = None
  /\ (exists m, exec (App.re_unit (lit "ms")) (w ++ lit "ms") = Some m
                /\ m_caps m = [(1, w)]).
Proof.
  intros Hw. destruct (decimal_word_chars _ (is_decimal_word _ Hw)) as [Hc _].
  split; [|split].
  - unfold exec.
    destruct (unit_match_here 109 [] w None (lit "s") Hw eq_refl) as (pv & H).
    exact (exec_from_here_caps _ _ _ _ _ _ _ H).
  - unfold exec. change (lit "ms") with ([109%N] ++ [115%N]). rewrite app_assoc.
    change (lit "s") with [115%N].
    rewrite unit_skip by (auto; discriminate).
    cbn [exec_from]. rewrite unit_fails_short by (simpl; lia).
    rewrite unit_fails_short by (simpl; lia). reflexivity.
  - unfold exec.
    destruct (unit_match_here 109 [115%N] w None [] Hw eq_refl) as (pv & H).
    change (lit "ms") with ([109%N; 115%N] ++ []) at 2.
    exact (exec_from_here_caps _ _ _ _ _ _ _ H).
Qed.

Lemma add_zero_l x : nonneg x -> add zero x = x.
Proof. destruct x as [[]|[]| |[] m e]; simpl; intros; try contradiction; reflexivity. Qed.

Lemma Number_decimal_nonneg w : is_decimal w = true -> nonneg (Number w).
Proof.
  intros Hw. destruct (parse_decimal_word _ (is_decimal_word _ Hw)) as (ip & fp & E).
  unfold Number. rewrite E. apply of_decimal_nonneg.
Qed.

Lemma trim_fixed c x d :
  is_white_space c = false -> is_white_space d = false ->
  trim (c :: x ++ [d]) = c :: x ++ [d].
Proof.
  intros Hc Hd. unfold trim, trimStart. cbn [drop_while]. rewrite Hc.
  rewrite app_comm_cons, trimEnd_app_stop by exact Hd. reflexivity.
Qed.

Lemma decimal_head_not_space w :
  is_decimal w = true -> exists c x, w = c :: x /\ is_white_space c = false.
Proof.
  intros Hw. destruct (decimal_word_head _ (is_decimal_word _ Hw)) as (c & x & -> & Hc).
  exists c, x. split; [reflexivity|].
  unfold is_digit in Hc. apply andb_true_iff in Hc as [H1 H2].
  apply N.leb_le in H1, H2. unfold is_white_space, is_line_terminator.
  repeat (apply orb_false_iff; split);
    try (apply N.eqb_neq; lia).
  apply andb_false_iff. left. apply N.leb_gt. lia.
Qed.

Lemma cap_value i t rest w :
  parseFloat_of (group 1 (mk_rmatch i t [(1, w)] rest)) = Number w.
Proof. reflexivity. Qed.

Lemma caps_value m w : m_caps m = [(1, w)] -> parseFloat_of (group 1 m) = Number w.
Proof. destruct m as [i t caps rest]. cbn [m_caps]. intros ->. reflexivity. Qed.

(** [parseDurationToSeconds] on the three well-formed shapes *)
Lemma parseDuration_shapes (w v : jsstring) :
  is_decimal w = true -> is_decimal v = true ->
  App.parseDurationToSeconds (Some (w ++ lit "s")) = or_null (Number w)
  /\ App.parseDurationToSeconds (Some (w ++ lit "m" ++ v ++ lit "s"))
     = or_null (add (mul (Number w) (num "60")) (Number v))
  /\ App.parseDurationToSeconds (Some (w ++ lit "ms"))
     = or_null (add (mul (Number w) (num "60")) (div (Number w) (num "1000"))).
Proof.
  intros Hw Hv.
  destruct (decimal_head_not_space _ Hw) as (c & x & -> & Hc).
  assert (H60 : nonneg (mul (Number (c :: x)) (num "60")))
    by (apply mul_nonneg; [apply Number_decimal_nonneg, Hw | exact I]).
  assert (Hfalsy : forall y, falsy (Some ((c :: x) ++ y)) = false) by reflexivity.
  unfold App.parseDurationToSeconds. rewrite !Hfalsy.
  change (default [] (Some ?s)) with s.
  split; [|split].
  - change (lit "s") with [115%N]. cbn [app]. rewrite trim_fixed by auto.
    destruct (exec_units_s _ Hw) as (Hm & ms & Hs & Hcs).
    change (lit "s") with [115%N] in Hm, Hs. cbn [app] in Hm, Hs.
    unfold App.duration_sum. change (lit "s") with [115%N]. rewrite Hm, Hs.
    rewrite (caps_value _ _ Hcs), add_zero_l by (apply Number_decimal_nonneg, Hw).
    reflexivity.
  - destruct (exec_units_ms _ _ Hw Hv) as ((mm & Hm & Hcm) & (ms & Hs & Hcs)).
    replace ((c :: x) ++ lit "m" ++ v ++ lit "s")
      with (c :: (x ++ lit "m" ++ v) ++ [115%N]) in *
      by (cbn [app]; rewrite <- !app_assoc; reflexivity).
    rewrite trim_fixed by auto.
    unfold App.duration_sum. rewrite Hm, Hs.
    rewrite (caps_value _ _ Hcm), (caps_value _ _ Hcs), add_zero_l by exact H60.
    reflexivity.
  - destruct (exec_units_milli _ Hw) as ((mm & Hm & Hcm) & Hs & (ml & Hl & Hcl)).
    replace ((c :: x) ++ lit "ms") with (c :: (x ++ [109%N]) ++ [115%N]) in *
      by (cbn [app]; rewrite <- !app_assoc; reflexivity).
    rewrite trim_fixed by auto.
    unfold App.duration_sum. rewrite Hm, Hs, Hl.
    rewrite (caps_value _ _ Hcm), (caps_value _ _ Hcl), add_zero_l by exact H60.
    reflexivity.
Qed.

End UnitFacts.
Import UnitFacts.

(** ** The first signed decimal of a string *)

Module RateFacts.

(** A star takes the whole run when the rest of the pattern cannot fail. *)
Lemma star_from_all p prev s caps (k : cont) :
  (forall st, k st <> None) ->
  star_from p prev s caps k
  = k (mk_rstate (prev_after prev (take_while p s)) (drop_while p s) caps).
Proof.
  intros Hk. revert prev. induction s as [|c s IH]; intros prev; [reflexivity|].
  cbn [star_from take_while drop_while]. destruct (p c); [|reflexivity].
  rewrite IH. cbn [prev_after].
  destruct (k _) eqn:E; [reflexivity|]. exfalso. exact (Hk _ E).
Qed.

Lemma plus_digits_all prev s caps (k : cont) :
  (forall st, k st <> None) -> starts_with_digit s = true ->
  exists pv,
    re_plus is_digit (mk_rstate prev s caps) k
    = k (mk_rstate pv (drop_while is_digit s) caps).
Proof.
  intros Hk Hs. destruct s as [|c s]; [discriminate|]. cbn [starts_with_digit] in Hs.
  unfold re_plus, re_seq, re_class. cbn [r_rest r_caps drop_while]. rewrite Hs.
  unfold re_star. cbn [r_prev r_rest r_caps]. rewrite star_from_all by exact Hk.
  eexists. reflexivity.
Qed.

Lemma plus_digits_none prev s caps (k : cont) :
  starts_with_digit s = false -> re_plus is_digit (mk_rstate prev s caps) k = None.
Proof.
  intros Hs. unfold re_plus, re_seq, re_class. cbn [r_rest].
  destruct s as [|c s]; [reflexivity|]. cbn [starts_with_digit] in Hs. rewrite Hs. reflexivity.
Qed.

Lemma leading_decimal_split s :
  exists rest, s = leading_decimal s ++ rest
    /\ rest = match drop_while is_digit s with
              | c :: fp => if (c =? 46)%N && starts_with_digit fp
                           then drop_while is_digit fp else c :: fp
              | [] => []
              end.
Proof.
  unfold leading_decimal. pose proof (take_drop_while is_digit s) as E.
  destruct (drop_while is_digit s) as [|c fp].
  - exists []. auto.
  - destruct ((c =? 46)%N && starts_with_digit fp).
    + exists (drop_while is_digit fp). split; [|reflexivity].
      rewrite <- app_assoc. cbn [app]. rewrite take_drop_while. auto.
    + exists (c :: fp). auto.
Qed.

(** The unsigned part of the number pattern at a digit *)
Lemma decimal_match_all prev s caps (k : cont) :
  (forall st, k st <> None) -> starts_with_digit s = true ->
  exists rest pv,
    s = leading_decimal s ++ rest
    /\ re_seq (re_plus is_digit) (re_opt (re_seq (re_char 46) (re_plus is_digit)))
         (mk_rstate prev s caps) k
       = k (mk_rstate pv rest caps).
Proof.
  intros Hk Hs. destruct (leading_decimal_split s) as (rest & E & Hrest).
  unfold re_seq at 1.
  assert (Hopt : forall st, re_opt (re_seq (re_char 46) (re_plus is_digit)) st k <> None).
  { intros st. unfold re_opt, re_alt. destruct (re_seq _ _ st k); [discriminate|].
    unfold re_eps. apply Hk. }
  destruct (plus_digits_all prev s caps _ Hopt Hs) as (pv & ->).
  unfold re_opt, re_alt. unfold re_seq at 1, re_char, re_class at 1. cbn [r_rest r_caps].
  destruct (drop_while is_digit s) as [|c fp].
  - subst rest. exists [], pv. auto.
  - destruct (c =? 46)%N eqn:Ec.
    + rewrite N.eqb_sym, Ec. cbn [andb] in Hrest.
      destruct (starts_with_digit fp) eqn:Hfp.
      * destruct (plus_digits_all (Some c) fp caps k Hk Hfp) as (pv' & ->).
        destruct (k _) eqn:Ek; [|exfalso; exact (Hk _ Ek)].
        subst rest. exists (drop_while is_digit fp), pv'. auto.
      * rewrite (plus_digits_none (Some c) fp caps k Hfp).
        subst rest. exists (c :: fp), pv. auto.
    + rewrite N.eqb_sym, Ec. cbn [andb] in Hrest. subst rest.
      exists (c :: fp), pv. auto.
Qed.

Lemma decimal_match_none prev s caps (k : cont) :
  starts_with_digit s = false ->
  re_seq (re_plus is_digit) (re_opt (re_seq (re_char 46) (re_plus is_digit)))
    (mk_rstate prev s caps) k = None.
Proof. intros Hs. unfold re_seq at 1. apply plus_digits_none, Hs. Qed.

Lemma number_unfold prev c s' caps (k : cont) :
  App.re_number (mk_rstate prev (c :: s') caps) k
  = match (if (45 =? c)%N
           then re_seq (re_plus is_digit) (re_opt (re_seq (re_char 46) (re_plus is_digit)))
                  (mk_rstate (Some c) s' caps) k
           else None) with
    | Some r => Some r
    | None => re_seq (re_plus is_digit) (re_opt (re_seq (re_char 46) (re_plus is_digit)))
                (mk_rstate prev (c :: s') caps) k
    end.
Proof. reflexivity. Qed.

(** The number pattern at a position: what it reads, or that it fails *)
Lemma number_match_all prev s caps (k : cont) :
  (forall st, k st <> None) ->
  match s with
  | [] => App.re_number (mk_rstate prev s caps) k = None
  | c :: s' =>
      if is_digit c then
        exists rest pv, s = leading_decimal s ++ rest
          /\ App.re_number (mk_rstate prev s caps) k = k (mk_rstate pv rest caps)
      else if (c =? 45)%N && starts_with_digit s' then
        exists rest pv, s = c :: leading_decimal s' ++ rest
          /\ App.re_number (mk_rstate prev s caps) k = k (mk_rstate pv rest caps)
      else App.re_number (mk_rstate prev s caps) k = None
  end.
Proof.
  intros Hk. destruct s as [|c s']; [apply decimal_match_none; reflexivity|].
  rewrite !number_unfold.
  destruct (is_digit c) eqn:Hc.
  - rewrite N.eqb_sym, (digit_not_minus _ Hc).
    apply (decimal_match_all prev (c :: s') caps k Hk Hc).
  - destruct (c =? 45)%N eqn:E45.
    + rewrite N.eqb_sym, E45. cbn [andb].
      destruct (starts_with_digit s') eqn:Hs'.
      * destruct (decimal_match_all (Some c) s' caps k Hk Hs') as (rest & pv & E & ->).
        destruct (k _) eqn:Ek; [|exfalso; exact (Hk _ Ek)].
        exists rest, pv. split; [|symmetry; exact Ek]. cbn [app]. f_equal. exact E.
      * rewrite (decimal_match_none (Some c) s' caps k Hs').
        apply decimal_match_none. exact Hc.
    + rewrite N.eqb_sym, E45. cbn [andb]. apply decimal_match_none. exact Hc.
Qed.

(** What [match(/(-?\d+(?:\.\d+)?)/)?.[1]] finds *)
Lemma exec_number_group_from prev s i :
  exec_from (re_group 1 App.re_number) prev s i ≫= group 1 = first_signed_decimal s.
Proof.
  revert prev i. induction s as [|c s IH]; intros prev i.
  - cbn [exec_from first_signed_decimal]. unfold match_at, re_group.
    set (st0 := mk_rstate prev [] []).
    set (K := fun st' => Some (mk_rstate (r_prev st') (r_rest st')
                                 ((1, consumed st0 st') :: r_caps st'))).
    assert (HK : forall st, K st <> None) by discriminate.
    pose proof (number_match_all prev [] [] K HK) as H. cbv beta iota in H.
    fold st0 in H. rewrite H. reflexivity.
  - cbn [exec_from first_signed_decimal]. unfold match_at, re_group.
    set (st0 := mk_rstate prev (c :: s) []).
    set (K := fun st' => Some (mk_rstate (r_prev st') (r_rest st')
                                 ((1, consumed st0 st') :: r_caps st'))).
    assert (HK : forall st, K st <> None) by discriminate.
    pose proof (number_match_all prev (c :: s) [] K HK) as H.
    cbv beta iota in H. fold st0 in H.
    destruct (is_digit c).
    + destruct H as (rest & pv & E & ->). subst K.
      cbn [mbind option_bind group m_caps r_caps lookup_cap Nat.eqb].
      f_equal. apply consumed_app. exact E.
    + destruct ((c =? 45)%N && starts_with_digit s).
      * destruct H as (rest & pv & E & ->). subst K.
        cbn [mbind option_bind group m_caps r_caps lookup_cap Nat.eqb].
        f_equal. apply consumed_app. exact E.
      * rewrite H. apply IH.
Qed.

Lemma rate_of_field v : App.rate_of v = rate_field v.
Proof.
  unfold App.rate_of, rate_field. destruct v as [[|c s]|]; try reflexivity.
  cbn [falsy]. change (default [] (Some (c :: s))) with (c :: s).
  unfold exec. rewrite exec_number_group_from.
  destruct (first_signed_decimal (c :: s)); reflexivity.
Qed.

Lemma first_signed_decimal_none s :
  first_signed_decimal s = None <-> has_digit s = false.
Proof.
  unfold has_digit. induction s as [|c s IH]; [split; reflexivity|].
  cbn [first_signed_decimal existsb]. destruct (is_digit c) eqn:Hc; [split; discriminate|].
  cbn [orb]. destruct ((c =? 45)%N && starts_with_digit s) eqn:E; [|exact IH].
  split; [discriminate|]. intros H. exfalso.
  apply andb_true_iff in E as [_ E]. destruct s as [|d s]; [discriminate|].
  cbn [starts_with_digit] in E. cbn [existsb] in H. rewrite E in H. discriminate.
Qed.

Lemma leading_decimal_word s :
  starts_with_digit s = true -> decimal_word (leading_decimal s).
Proof.
  intros Hs. unfold leading_decimal.
  assert (Hrun : forall x, starts_with_digit x = true -> all_digits (take_while is_digit x) = true).
  { intros x Hx. apply all_digits_plus. split.
    - clear. induction x as [|c x IH]; [reflexivity|]. simpl.
      destruct (is_digit c) eqn:E; [simpl; rewrite E; exact IH | reflexivity].
    - destruct x as [|c x]; [discriminate|]. cbn [starts_with_digit] in Hx.
      cbn [take_while]. rewrite Hx. discriminate. }
  exists (take_while is_digit s).
  destruct (drop_while is_digit s) as [|c fp].
  - exists []. split; [apply Hrun, Hs|]. left. auto.
  - destruct ((c =? 46)%N && starts_with_digit fp) eqn:E.
    + apply andb_true_iff in E as [Ec Hfp]. apply N.eqb_eq in Ec. subst c.
      exists (take_while is_digit fp). split; [apply Hrun, Hs|]. right.
      split; [apply Hrun, Hfp | reflexivity].
    + exists []. split; [apply Hrun, Hs|]. left. auto.
Qed.

Lemma first_signed_decimal_word s t :
  first_signed_decimal s = Some t -> signed_decimal_word t.
Proof.
  induction s as [|c s IH]; [discriminate|]. cbn [first_signed_decimal].
  destruct (is_digit c) eqn:Hc.
  - intros [= <-]. left. apply leading_decimal_word. exact Hc.
  - destruct ((c =? 45)%N && starts_with_digit s) eqn:E; [|exact IH].
    apply andb_true_iff in E as [Ec Hs]. apply N.eqb_eq in Ec. subst c.
    intros [= <-]. right. eexists. split; [reflexivity|]. apply leading_decimal_word, Hs.
Qed.

End RateFacts.
Import RateFacts.

(** ** The texts of the page *)

Module ViewFacts.

Section Render.

Variable toFixed : number -> nat -> jsstring.
Variable floor : number -> number.
Variable ToString : number -> jsstring.

(** What [fmtSeconds] shows for a value is longer than the dash. *)
Lemma fmtSeconds_length sec :
  is_missing sec = false -> 2 <= length (AppView.fmtSeconds toFixed floor ToString sec).
Proof.
  intros H. unfold AppView.fmtSeconds. rewrite H. cbv zeta.
  destruct (lt _ _); [|destruct (lt _ _)]; rewrite !length_app; simpl; lia.
Qed.

Lemma fmtSeconds_absent sec :
  AppView.fmtSeconds toFixed floor ToString sec = dash <-> is_missing sec = true.
Proof.
  split.
  - intros H. destruct (is_missing sec) eqn:E; [reflexivity|].
    pose proof (fmtSeconds_length sec E) as Hl. rewrite H in Hl. simpl in Hl. lia.
  - intros H. unfold AppView.fmtSeconds. rewrite H. reflexivity.
Qed.

Lemma finite_not_absent v : isFinite_of v = true -> is_missing v = false.
Proof. destruct v as [[]|]; simpl; congruence. Qed.

Lemma or_dash_long s : 2 <= length s -> or_dash (Some s) <> dash.
Proof. intros H. destruct s as [|c [|d s]]; simpl in H; try lia. discriminate. Qed.

(** A cell of bits shows the dash exactly when there is no bit. *)
Lemma bits_dash count duration :
  or_dash (Some (join bullet (AppView.bits toFixed floor ToString count duration))) = dash
  <-> isFinite_of count = false /\ isFinite_of duration = false.
Proof.
  unfold AppView.bits.
  destruct (isFinite_of count) eqn:Hc, (isFinite_of duration) eqn:Hd; cbn [app join].
  - split; [|intros [? _]; discriminate]. intros H. exfalso.
    revert H. apply or_dash_long. rewrite !length_app. simpl. lia.
  - split; [|intros [? _]; discriminate]. intros H. exfalso.
    revert H. apply or_dash_long. rewrite !length_app. simpl. lia.
  - split; [|intros [_ ?]; discriminate]. intros H. exfalso.
    revert H. apply or_dash_long. apply fmtSeconds_length, finite_not_absent, Hd.
  - split; auto.
Qed.

End Render.

(** The marks when a value is missing *)
Lemma sub_diag x : isFinite x = true -> sub x x = zero \/ sub x x = S754_zero true.
Proof.
  destruct x as [[]| | |s m e]; try discriminate; intros _; cbn; auto.
  left. unfold sub, SFsub. rewrite Z.sub_diag. reflexivity.
Qed.

Lemma marks_zero x :
  x = zero \/ x = S754_zero true \/ x = NaN -> marks (Some x) = (false, false).
Proof. intros [->|[->| ->]]; reflexivity. Qed.

Lemma duration_marks_missing x :
  isFinite x = true ->
  marks (Some (duration_better (Some x) None)) = (true, false)
  /\ marks (Some (duration_better None (Some x))) = (false, true).
Proof. destruct x as [[]| | |s m e]; try discriminate; intros _; split; reflexivity. Qed.

Lemma duration_marks_same v : marks (Some (duration_better v v)) = (false, false).
Proof.
  destruct v as [x|]; [|reflexivity]. unfold duration_better. cbn [nullish].
  destruct (isFinite x) eqn:E.
  - apply marks_zero. destruct (sub_diag x E); auto.
  - destruct x as [[]|[]| |]; try discriminate; reflexivity.
Qed.

Lemma count_marks_missing x :
  lt zero x = true ->
  marks (Some (count_better (Some x) None)) = (true, false)
  /\ marks (Some (count_better None (Some x))) = (false, true).
Proof.
  destruct x as [[]|[]| |[] m e]; try discriminate; intros _; split; reflexivity.
Qed.

Lemma count_marks_nan v :
  marks (Some (count_better (Some NaN) v)) = (false, false)
  /\ marks (Some (count_better v (Some NaN))) = (false, false).
Proof.
  unfold count_better. cbn [nullish]. split.
  - destruct (nullish v zero) as [[]|[]| |]; reflexivity.
  - destruct (nullish v zero) as [[]|[]| |]; reflexivity.
Qed.

(** [find] by name and membership of the name *)
Lemma find_name_some (models : list ModelRecord) n :
  In n (map (fun m => name (raw m)) models)
  <-> exists A, List.find (fun m => Part000.str_eq (name (raw m)) n) models = Some A.
Proof.
  induction models as [|m models IH]; simpl.
  - split; [tauto | intros [? ?]; discriminate].
  - unfold Part000.str_eq at 1. destruct (bool_decide_reflect (name (raw m) = n)) as [E|E].
    + split; eauto.
    + rewrite <- IH. split; [intros [?|?]; [contradiction|assumption] | auto].
Qed.

Lemma find_name_eq (models : list ModelRecord) n A :
  List.find (fun m => Part000.str_eq (name (raw m)) n) models = Some A ->
  In A models /\ name (raw A) = n.
Proof.
  intros H. apply find_some in H as [Hin H]. split; [exact Hin|].
  unfold Part000.str_eq in H. apply bool_decide_eq_true in H. exact H.
Qed.

Lemma parsed_name_nonempty txt m : In m (App.parse_report txt) -> name (raw m) <> [].
Proof.
  intros Hin. apply (in_map (fun m => name (raw m))) in Hin.
  rewrite parsed_names in Hin. apply in_map_iff in Hin as (l & <- & Hl).
  apply filter_In in Hl as [_ Hl]. apply header_nonempty, Hl.
Qed.

(** Records without a value for the sort key keep their order. *)
Lemma sort_insert_missing cfg x l :
  List.filter (missing cfg) (Part000.sort_insert (Part000.compare_models cfg) x l)
  = List.filter (missing cfg) (x :: l).
Proof.
  induction l as [|y l IH]; [reflexivity|].
  cbn [Part000.sort_insert].
  destruct (gt (Part000.compare_models cfg x y) zero) eqn:E; [|reflexivity].
  cbn [List.filter] in *. rewrite IH.
  destruct (missing cfg x) eqn:Hx.
  - destruct (missing cfg y) eqn:Hy; [|reflexivity].
    rewrite (compare_missing_both cfg x y Hx Hy) in E. discriminate.
  - rewrite (compare_missing_right cfg x y Hx E). reflexivity.
Qed.

Lemma sort_missing cfg l :
  List.filter (missing cfg) (Part000.sort (Part000.compare_models cfg) l)
  = List.filter (missing cfg) l.
Proof.
  induction l as [|x l IH]; [reflexivity|].
  unfold Part000.sort in *. cbn [fold_right]. rewrite sort_insert_missing.
  cbn [List.filter]. rewrite IH. reflexivity.
Qed.

End ViewFacts.
Import ViewFacts.

(** ** Where the stored values come from *)

Module ProvenanceFacts.

Lemma build_invariant_in (P : RawModelRecord -> Prop) n ls :
  P (mk_raw n None None ∅) ->
  (forall c k raw, In raw ls -> P c -> P (build_line c k raw)) ->
  P (build (mk_segment n ls)).
Proof.
  induction ls as [|l ls IH] using rev_ind; intros H0 Hstep; [exact H0|].
  rewrite build_snoc. apply Hstep; [apply in_or_app; right; left; reflexivity|].
  apply IH; [exact H0|]. intros c k raw Hin. apply Hstep, in_or_app. left. exact Hin.
Qed.

(** The body lines of the segments are lines of the input. *)
Lemma segment_fold_lines (L ls : list jsstring) st :
  (forall raw, In raw ls -> In raw L) ->
  (forall s, In s (fst st ++ option_list (snd st)) ->
             forall l, In l (bodyLines s) -> In l L) ->
  forall s, In s (fst (fold_left segment_step ls st)
                  ++ option_list (snd (fold_left segment_step ls st))) ->
            forall l, In l (bodyLines s) -> In l L.
Proof.
  revert st. induction ls as [|raw ls IH]; intros st Hls Hst; [exact Hst|].
  cbn [fold_left]. apply IH; [intros r Hr; apply Hls; right; exact Hr|].
  destruct st as [done cur]. unfold segment_step. cbn [fst snd] in *.
  destruct (classify raw).
  - exact Hst.
  - cbn [fst snd option_list]. intros s Hs l Hl.
    apply in_app_or in Hs as [Hs|[<-|[]]]; [exact (Hst s Hs l Hl)|destruct Hl].
  - destruct cur as [[n body]|]; [|exact Hst].
    cbn [fst snd option_list seg_name bodyLines] in *. intros s Hs l Hl.
    apply in_app_or in Hs as [Hs|[<-|[]]].
    + apply (Hst s); [apply in_or_app; left; exact Hs | exact Hl].
    + cbn [bodyLines] in Hl. apply in_app_or in Hl as [Hl|[<-|[]]].
      * apply (Hst (mk_segment n body)); [apply in_or_app; right; left; reflexivity | exact Hl].
      * apply Hls. left. reflexivity.
Qed.

Lemma segments_lines lines s l :
  In s (segments lines) -> In l (bodyLines s) -> In l lines.
Proof.
  intros Hs Hl. unfold segments in Hs.
  exact (segment_fold_lines lines lines ([], None) (fun _ H => H)
           (fun s H => match H with end) s Hs l Hl).
Qed.

Lemma build_line_from_lines L c k raw :
  In raw L -> from_lines L c -> from_lines L (build_line c k raw).
Proof.
  intros Hin [Ha Hm]. split.
  - intros a. unfold build_line.
    destruct (falsy (answerLine c) && (k <=? 6) && App.early_answer (trim raw)) eqn:E1.
    + cbn [App.with_answer answerLine]. intros [= <-].
      apply andb_true_iff in E1 as [_ E1]. exists raw. repeat split; auto. left. exact E1.
    + destruct (exec App.re_metric raw); [exact (Ha a)|].
      destruct (falsy (answerLine c) && test App.re_standalone (trim raw)
                && negb (test App.re_metric_word (trim raw))) eqn:E2; [|exact (Ha a)].
      cbn [App.with_answer answerLine]. intros [= <-].
      apply andb_true_iff in E2 as [E2 E3]. apply andb_true_iff in E2 as [_ E2].
      apply negb_true_iff in E3. exists raw. repeat split; auto. right. auto.
  - intros key v. rewrite build_line_metrics.
    destruct (falsy (answerLine c) && (k <=? 6) && App.early_answer (trim raw));
      [exact (Hm key v)|].
    destruct (metric_of raw) as [[k' v']|] eqn:E; [|exact (Hm key v)].
    destruct (decide (k' = key)) as [->|Hne].
    + rewrite lookup_insert_eq. intros [= <-]. exists raw. auto.
    + rewrite lookup_insert_ne by exact Hne. exact (Hm key v).
Qed.

Lemma scan_from_lines lines : Forall (from_lines lines) (App.scan lines).
Proof.
  rewrite scan_segments. apply Forall_map, Forall_forall. intros [n body] Hs.
  apply list_elem_of_In in Hs.
  apply build_invariant_in.
  - split; [discriminate|]. intros k v H. cbn [metrics] in H.
    rewrite lookup_empty in H. discriminate.
  - intros c k raw Hin. apply build_line_from_lines.
    exact (segments_lines lines _ raw Hs Hin).
Qed.

End ProvenanceFacts.
Import ProvenanceFacts.

(** ** Tokens on the two sides of a separator *)

Module SeparatorFacts.

Lemma take_while_app_stop p (s : jsstring) c t :
  p c = false ->
  take_while p (s ++ c :: t)
  = take_while p s.
Proof.
  intros Hc. induction s as [|x s IH]; simpl; [rewrite Hc; reflexivity|].
  destruct (p x); [rewrite IH|]; reflexivity.
Qed.

Lemma starts_with_digit_app s c t :
  is_digit c = false -> starts_with_digit (s ++ c :: t) = starts_with_digit s.
Proof. intros Hc. destruct s; simpl; [exact Hc | reflexivity]. Qed.

Lemma leading_decimal_app s c t :
  breaks c = true -> leading_decimal (s ++ c :: t) = leading_decimal s.
Proof.
  intros Hb. unfold breaks in Hb. apply andb_true_iff in Hb as [Hb _].
  apply andb_true_iff in Hb as [Hd Hp]. apply negb_true_iff in Hd, Hp.
  unfold leading_decimal. rewrite (take_while_app_stop _ _ _ _ Hd).
  rewrite (drop_while_app_stop _ _ _ _ Hd).
  destruct (drop_while is_digit s) as [|x fp]; cbn [app].
  - rewrite Hp. reflexivity.
  - rewrite (starts_with_digit_app _ _ _ Hd), (take_while_app_stop _ _ _ _ Hd). reflexivity.
Qed.

Lemma number_fails_at_break prev c t :
  breaks c = true -> match_at App.re_number prev (c :: t) = None.
Proof.
  intros Hb. unfold breaks in Hb. apply andb_true_iff in Hb as [Hb Hm].
  apply andb_true_iff in Hb as [Hd _]. apply negb_true_iff in Hd, Hm.
  pose proof (number_match_all prev (c :: t) [] Some ltac:(discriminate)) as H.
  cbv beta iota in H. rewrite Hd, Hm in H. exact H.
Qed.

Lemma number_fails_at_end prev : match_at App.re_number prev [] = None.
Proof. exact (number_match_all prev [] [] Some ltac:(discriminate)). Qed.

(** A match before a breaking character is the match without what
    follows. *)
Lemma match_at_number_app prev s c t :
  breaks c = true ->
  match match_at App.re_number prev s with
  | Some st =>
      exists pv, match_at App.re_number prev (s ++ c :: t)
                 = Some (mk_rstate pv (r_rest st ++ c :: t) [])
  | None => match_at App.re_number prev (s ++ c :: t) = None
  end.
Proof.
  intros Hb. destruct s as [|x s]; [rewrite number_fails_at_end; apply number_fails_at_break, Hb|].
  pose proof (number_match_all prev (x :: s) [] Some ltac:(discriminate)) as H1.
  pose proof (number_match_all prev ((x :: s) ++ c :: t) [] Some ltac:(discriminate)) as H2.
  cbv beta iota in H1, H2. cbn [app] in H2. unfold match_at. cbn [app].
  assert (Hd : is_digit c = false).
  { unfold breaks in Hb. apply andb_true_iff in Hb as [Hb _].
    apply andb_true_iff in Hb as [Hd _]. apply negb_true_iff in Hd. exact Hd. }
  destruct (is_digit x).
  - destruct H1 as (rest & pv & E1 & ->). destruct H2 as (rest' & pv' & E2 & ->).
    exists pv'. do 2 f_equal. cbn [r_rest].
    rewrite app_comm_cons, (leading_decimal_app _ _ _ Hb) in E2.
    rewrite E1 in E2 at 1. rewrite <- app_assoc in E2. apply app_inv_head in E2. auto.
  - rewrite (starts_with_digit_app _ _ _ Hd) in H2.
    destruct ((x =? 45)%N && starts_with_digit s).
    + destruct H1 as (rest & pv & E1 & ->). destruct H2 as (rest' & pv' & E2 & ->).
      exists pv'. do 2 f_equal. cbn [r_rest].
      rewrite (leading_decimal_app _ _ _ Hb) in E2.
      injection E1 as E1. injection E2 as E2. rewrite E1 in E2 at 1.
      rewrite <- app_assoc in E2. apply app_inv_head in E2. auto.
    + rewrite H1. exact H2.
Qed.

Lemma match_at_number_length prev s st :
  match_at App.re_number prev s = Some st ->
  1 <= length s - length (r_rest st) <= length s.
Proof.
  intros H. pose proof (match_at_consumed _ _ _ _ _ consumes_number H) as Hw.
  assert (Hne : take (length s - length (r_rest st)) s <> []).
  { intros E. rewrite E in Hw. apply signed_word_has_digit in Hw. discriminate. }
  destruct (length s - length (r_rest st)) eqn:El; [exfalso; apply Hne; reflexivity|]. lia.
Qed.

(** The pattern does not look at what stands before the position. *)
Lemma match_at_number_prev prev prev' s :
  match match_at App.re_number prev s with
  | Some st => exists pv, match_at App.re_number prev' s = Some (mk_rstate pv (r_rest st) [])
  | None => match_at App.re_number prev' s = None
  end.
Proof.
  pose proof (number_match_all prev s [] Some ltac:(discriminate)) as H1.
  pose proof (number_match_all prev' s [] Some ltac:(discriminate)) as H2.
  cbv beta iota in H1, H2. unfold match_at.
  destruct s as [|x s]; [rewrite H1; exact H2|].
  destruct (is_digit x).
  - destruct H1 as (rest & pv & E1 & ->). destruct H2 as (rest' & pv' & E2 & ->).
    exists pv'. do 2 f_equal. cbn [r_rest]. rewrite E1 in E2 at 1.
    apply app_inv_head in E2. auto.
  - destruct ((x =? 45)%N && starts_with_digit s).
    + destruct H1 as (rest & pv & E1 & ->). destruct H2 as (rest' & pv' & E2 & ->).
      exists pv'. do 2 f_equal. cbn [r_rest].
      injection E1 as E1. injection E2 as E2. rewrite E1 in E2 at 1.
      apply app_inv_head in E2. auto.
    + rewrite H1. exact H2.
Qed.

Lemma match_all_number_prev prev prev' s skip :
  match_all_from App.re_number prev s skip = match_all_from App.re_number prev' s skip.
Proof.
  revert prev prev' skip. induction s as [|x s IH]; intros prev prev' skip.
  - cbn [match_all_from]. rewrite !number_fails_at_end. reflexivity.
  - cbn [match_all_from]. destruct skip as [|n]; [|reflexivity].
    pose proof (match_at_number_prev prev prev' (x :: s)) as H.
    destruct (match_at App.re_number prev (x :: s)) as [st|].
    + destruct H as (pv & ->). reflexivity.
    + rewrite H. reflexivity.
Qed.

Lemma match_all_number_app prev s c t skip :
  breaks c = true -> skip <= length s ->
  match_all_from App.re_number prev (s ++ c :: t) skip
  = match_all_from App.re_number prev s skip ++ match_all_from App.re_number None t 0.
Proof.
  intros Hb. revert prev skip. induction s as [|x s IH]; intros prev skip Hskip.
  - simpl in Hskip. assert (skip = 0) by lia. subst skip.
    cbn [app match_all_from]. rewrite number_fails_at_end, (number_fails_at_break _ _ _ Hb).
    apply match_all_number_prev.
  - cbn [app match_all_from]. destruct skip as [|n].
    + pose proof (match_at_number_app prev (x :: s) c t Hb) as H. cbn [app] in H.
      destruct (match_at App.re_number prev (x :: s)) as [st|] eqn:E.
      * destruct H as (pv & ->). cbn [r_rest].
        pose proof (match_at_number_length _ _ _ E) as Hl. cbn [length] in Hl.
        replace (length (x :: s ++ c :: t) - length (r_rest st ++ c :: t))
          with (length (x :: s) - length (r_rest st))
          by (cbn [length]; rewrite !length_app; cbn [length]; lia).
        cbn [length]. rewrite IH by lia. cbn [app]. f_equal.
        destruct (S (length s) - length (r_rest st)) as [|k] eqn:Ek; [lia|].
        cbn [take]. f_equal. rewrite take_app_le by lia. reflexivity.
      * rewrite H. apply IH. lia.
    + apply IH. simpl in Hskip. lia.
Qed.

Lemma tokens_split a b c :
  is_separator c = true ->
  numeric_tokens (a ++ c :: b) = numeric_tokens a ++ numeric_tokens b.
Proof.
  intros Hc. unfold numeric_tokens, match_all, replace_class.
  rewrite map_app. cbn [map]. rewrite Hc.
  apply match_all_number_app; [reflexivity | lia].
Qed.

Lemma match_all_skip_all prev s :
  match_all_from App.re_number prev s (length s) = [].
Proof.
  revert prev. induction s as [|x s IH]; intros prev.
  - cbn [match_all_from length]. rewrite number_fails_at_end. reflexivity.
  - cbn [match_all_from length]. apply IH.
Qed.

Lemma digit_not_separator ds :
  forallb is_digit ds = true -> replace_class is_separator 32 ds = ds.
Proof.
  unfold replace_class. induction ds as [|d ds IH]; [reflexivity|]. cbn [forallb map].
  intros H. apply andb_true_iff in H as [Hd Hds]. rewrite (IH Hds).
  destruct (is_separator d) eqn:E; [|reflexivity].
  rewrite (separator_not_digit _ E) in Hd. discriminate.
Qed.

Lemma leading_decimal_digits ds : forallb is_digit ds = true -> leading_decimal ds = ds.
Proof.
  intros H. unfold leading_decimal.
  destruct (take_drop_while_stop is_digit ds [] H I) as [Ht Hd].
  rewrite app_nil_r in Ht, Hd. rewrite Ht, Hd. reflexivity.
Qed.

(** A run of digits is one token. *)
Lemma tokens_digits ds : all_digits ds = true -> numeric_tokens ds = [ds].
Proof.
  intros H. destruct (all_digits_cons _ H) as (d & ds' & -> & Hd & Hds).
  assert (Hall : forallb is_digit (d :: ds') = true) by (simpl; rewrite Hd; exact Hds).
  unfold numeric_tokens, match_all. rewrite (digit_not_separator _ Hall).
  cbn [match_all_from].
  pose proof (number_match_all None (d :: ds') [] Some ltac:(discriminate)) as Hm.
  cbv beta iota in Hm. rewrite Hd in Hm. destruct Hm as (rest & pv & E & Hm).
  unfold match_at. rewrite Hm. cbn [r_rest].
  rewrite (leading_decimal_digits _ Hall) in E.
  rewrite <- (app_nil_r (d :: ds')) in E at 1. apply app_inv_head in E. subst rest.
  cbn [length]. rewrite Nat.sub_0_r. cbn [Nat.sub]. rewrite Nat.sub_0_r.
  rewrite match_all_skip_all. f_equal.
  change (d :: take (length ds') ds' = d :: ds'). rewrite firstn_all. reflexivity.
Qed.

Lemma big_integer_digits ds :
  all_digits ds = true -> is_big_integer ds = (3 <=? length ds).
Proof.
  intros H. destruct (all_digits_cons _ H) as (d & ds' & -> & Hd & Hds).
  unfold is_big_integer, unsigned_part. rewrite (digit_not_minus _ Hd).
  cbn [forallb]. rewrite Hd, Hds. reflexivity.
Qed.

End SeparatorFacts.
Import SeparatorFacts.

(** ** Literals under the [i] flag, forwards *)

Module LiteralFacts.

Lemma ci_eq_spec p c : is_upper p = false -> ci_eq p c = (lower_unit c =? p)%N.
Proof.
  intros Hp. destruct (ci_eq p c) eqn:E.
  - symmetry. apply N.eqb_eq. apply ci_eq_lower; assumption.
  - symmetry. apply N.eqb_neq. intros H. unfold ci_eq in E. rewrite Hp in E.
    cbn [andb] in E. rewrite orb_false_r in E. apply orb_false_iff in E as [E1 E2].
    apply N.eqb_neq in E1. unfold lower_unit in H.
    destruct (is_upper c) eqn:Hc.
    + subst p. apply andb_false_iff in E2 as [E2|E2].
      * unfold is_upper in Hc. apply andb_true_iff in Hc as [H1 H2].
        apply N.leb_le in H1, H2. unfold is_lower in E2.
        apply andb_false_iff in E2 as [E2|E2]; apply N.leb_gt in E2; lia.
      * apply N.eqb_neq in E2. lia.
    + congruence.
Qed.

Lemma ci_eq_lowered p c : ci_eq p c = (lower_unit c =? lower_unit p)%N.
Proof.
  destruct (is_upper p) eqn:Hp.
  - unfold ci_eq, lower_unit. rewrite Hp.
    assert (Hl : is_lower p = false).
    { unfold is_upper in Hp. apply andb_true_iff in Hp as [H1 H2]. apply N.leb_le in H1, H2.
      unfold is_lower. apply andb_false_iff. left. apply N.leb_gt. lia. }
    rewrite Hl. cbn [andb]. rewrite orb_false_r.
    unfold is_upper in Hp. apply andb_true_iff in Hp as [H1 H2]. apply N.leb_le in H1, H2.
    destruct (is_upper c) eqn:Hc.
    + unfold is_upper in Hc. apply andb_true_iff in Hc as [H3 H4]. apply N.leb_le in H3, H4.
      destruct (c =? p)%N eqn:E1, (c =? p + 32)%N eqn:E2, (c + 32 =? p + 32)%N eqn:E3;
        try reflexivity;
        try apply N.eqb_eq in E1; try apply N.eqb_eq in E2; try apply N.eqb_eq in E3;
        try apply N.eqb_neq in E1; try apply N.eqb_neq in E2; try apply N.eqb_neq in E3; lia.
    + destruct (c =? p)%N eqn:E1; [|reflexivity].
      apply N.eqb_eq in E1. subst c.
      assert (is_upper p = true)
        by (unfold is_upper; apply andb_true_iff; split; apply N.leb_le; lia).
      congruence.
  - rewrite (ci_eq_spec _ _ Hp). unfold lower_unit at 3. rewrite Hp. reflexivity.
Qed.

Lemma str_ci_match L w prev x caps (k : cont) :
  toLowerCase w = toLowerCase L ->
  re_str_ci L (mk_rstate prev (w ++ x) caps) k = k (mk_rstate (prev_after prev w) x caps).
Proof.
  revert w prev. induction L as [|p L IH]; intros w prev Hw.
  - destruct w; [reflexivity|discriminate].
  - destruct w as [|c w]; [discriminate|]. injection Hw as Hc Hw.
    cbn [re_str_ci app prev_after]. unfold re_seq, re_char_ci, re_class. cbn [r_rest r_caps].
    rewrite ci_eq_lowered, Hc, N.eqb_refl. apply IH; assumption.
Qed.

Lemma str_ci_fail L s prev caps (k : cont) :
  startsWith (toLowerCase L) (toLowerCase s) = false ->
  re_str_ci L (mk_rstate prev s caps) k = None.
Proof.
  revert s prev. induction L as [|p L IH]; intros s prev Hs; [discriminate|].
  cbn [re_str_ci]. unfold re_seq, re_char_ci, re_class. cbn [r_rest r_caps].
  destruct s as [|c s]; [reflexivity|]. cbn [toLowerCase map startsWith] in Hs.
  rewrite ci_eq_lowered, N.eqb_sym.
  destruct (lower_unit p =? lower_unit c)%N; [|reflexivity]. cbn [andb] in Hs.
  apply IH; assumption.
Qed.

(** [startsWith] and [includes], in terms of concatenation *)
Lemma startsWith_app p x : startsWith p (p ++ x) = true.
Proof. induction p as [|a p IH]; [destruct x; reflexivity|]. simpl. rewrite N.eqb_refl. exact IH. Qed.

Lemma startsWith_split p s : startsWith p s = true -> s = p ++ drop (length p) s.
Proof.
  revert s. induction p as [|a p IH]; intros s H; [reflexivity|].
  destruct s as [|b s]; [discriminate|]. cbn [startsWith] in H.
  apply andb_true_iff in H as [E H]. apply N.eqb_eq in E. subst b.
  cbn [length drop app]. f_equal. apply IH, H.
Qed.

Lemma includes_spec s q :
  Part000.includes s q = true <-> exists a b, s = a ++ q ++ b.
Proof.
  induction s as [|c s IH].
  - cbn [Part000.includes]. rewrite orb_false_r. split.
    + intros H. exists [], []. destruct q; [reflexivity|discriminate].
    + intros (a & b & E). symmetry in E. apply app_eq_nil in E as [_ E].
      apply app_eq_nil in E as [-> _]. reflexivity.
  - cbn [Part000.includes]. rewrite orb_true_iff, IH. split.
    + intros [H|(a & b & ->)].
      * exists [], (drop (length q) (c :: s)). apply startsWith_split, H.
      * exists (c :: a), b. reflexivity.
    + intros (a & b & E). destruct a as [|x a].
      * left. cbn [app] in E. rewrite E. apply startsWith_app.
      * right. injection E as _ ->. eauto.
Qed.

Lemma startsWith_lower_split L s :
  startsWith L (toLowerCase s) = true ->
  exists w x, s = w ++ x /\ toLowerCase w = L.
Proof.
  revert s. induction L as [|p L IH]; intros s H; [exists [], s; auto|].
  destruct s as [|c s]; [discriminate|]. cbn [toLowerCase map startsWith] in H.
  apply andb_true_iff in H as [E H]. apply N.eqb_eq in E.
  destruct (IH s H) as (w & x & -> & Hw). exists (c :: w), x.
  split; [reflexivity|].
  change (toLowerCase (c :: w)) with (lower_unit c :: toLowerCase w).
  rewrite Hw, E. reflexivity.
Qed.

(** [/lit/i.test(s)] asks whether the lower-cased string holds the
    lower-cased literal. *)
Lemma test_str_ci L s :
  test (re_str_ci L) s = Part000.includes (toLowerCase s) (toLowerCase L).
Proof.
  unfold test, exec. generalize 0 at 1. generalize (@None N).
  induction s as [|c s IH]; intros prev i.
  - cbn [exec_from toLowerCase map Part000.includes]. rewrite orb_false_r. unfold match_at.
    destruct (startsWith (toLowerCase L) []) eqn:E.
    + destruct L; [reflexivity|discriminate].
    + rewrite (str_ci_fail L [] prev [] Some E). reflexivity.
  - change (toLowerCase (c :: s)) with (lower_unit c :: toLowerCase s).
    cbn [exec_from Part000.includes]. unfold match_at.
    destruct (startsWith (toLowerCase L) (lower_unit c :: toLowerCase s)) eqn:E.
    + destruct (startsWith_lower_split (toLowerCase L) (c :: s) E) as (w & x & Ews & Hw).
      rewrite Ews, (str_ci_match L w prev x [] Some Hw). reflexivity.
    + rewrite (str_ci_fail L (c :: s) prev [] Some E). cbn [orb]. apply IH.
Qed.

(** A search finds a match when there is one somewhere. *)
Lemma exec_from_some r prev a s i :
  match_at r (prev_after prev a) s <> None -> exec_from r prev (a ++ s) i <> None.
Proof.
  revert prev i. induction a as [|c a IH]; intros prev i H.
  - cbn [app prev_after] in *. destruct s; cbn [exec_from];
      destruct (match_at r prev _); try discriminate; congruence.
  - cbn [app exec_from]. destruct (match_at r prev (c :: a ++ s)); [discriminate|].
    apply IH. exact H.
Qed.

(** A star gives the whole run to the rest of the pattern when that
    succeeds there. *)
Lemma star_from_max_success p prev w rest caps (k : cont) r :
  forallb p w = true ->
  match rest with [] => True | c :: _ => p c = false end ->
  k (mk_rstate (prev_after prev w) rest caps) = Some r ->
  star_from p prev (w ++ rest) caps k = Some r.
Proof.
  intros Hw Hrest. revert prev. induction w as [|x w IH]; intros prev Hk.
  - cbn [app prev_after] in *. destruct rest as [|c rest]; [exact Hk|].
    cbn [star_from]. rewrite Hrest. exact Hk.
  - cbn [forallb] in Hw. apply andb_true_iff in Hw as [Hx Hw].
    cbn [app star_from]. rewrite Hx. rewrite (IH Hw (Some x) Hk). reflexivity.
Qed.

(** It gives one character back when the rest of the pattern fails at the
    end of the run and succeeds one character before. *)
Lemma star_from_backtrack_one p prev w c caps (k : cont) r :
  forallb p w = true -> p c = true ->
  k (mk_rstate (Some c) [] caps) = None ->
  k (mk_rstate (prev_after prev w) [c] caps) = Some r ->
  star_from p prev (w ++ [c]) caps k = Some r.
Proof.
  intros Hw Hc Hend. revert prev. induction w as [|x w IH]; intros prev Hk.
  - cbn [app prev_after star_from] in *. rewrite Hc, Hend. exact Hk.
  - cbn [forallb] in Hw. apply andb_true_iff in Hw as [Hx Hw].
    cbn [app star_from]. rewrite Hx. rewrite (IH Hw (Some x) Hk). reflexivity.
Qed.

End LiteralFacts.
Import LiteralFacts.

(** ** The marker patterns and the metric pattern, forwards *)

Module ForwardFacts.

Lemma consumes_str_ci_any s :
  consumes (re_str_ci s) (fun w => toLowerCase w = toLowerCase s).
Proof.
  induction s as [|p s IH]; cbn [re_str_ci].
  { eapply consumes_weaken; [apply consumes_eps|]. intros w ->. reflexivity. }
  eapply consumes_weaken.
  - apply consumes_seq; [apply consumes_class | exact IH].
  - intros w (u & v & -> & (d & -> & Hd) & Hv).
    rewrite ci_eq_lowered in Hd. apply N.eqb_eq in Hd.
    change (toLowerCase ([d] ++ v)) with (lower_unit d :: toLowerCase v).
    change (toLowerCase (p :: s)) with (lower_unit p :: toLowerCase s).
    rewrite Hd, Hv. reflexivity.
Qed.

(** A pattern tests true exactly on the strings that hold one of its
    words, when it matches wherever a word stands. *)
Lemma test_holds r (L : jsstring -> Prop) x :
  consumes r L ->
  (forall prev w rest, L w -> match_at r prev (w ++ rest) <> None) ->
  test r x = true <-> exists a w b, x = a ++ w ++ b /\ L w.
Proof.
  intros Hs Hf. unfold test. split.
  - destruct (exec r x) as [m|] eqn:E; [intros _|discriminate].
    apply exec_from_sound in E as (pre & prev' & s' & st & -> & _ & Hm & _).
    destruct (Hs _ _ _ Hm) as (w & st' & Hw & _ & Lw & _). cbn [r_rest] in Hw.
    exists pre, w, (r_rest st'). rewrite Hw. auto.
  - intros (a & w & b & -> & Lw). unfold exec.
    destruct (exec_from r None (a ++ w ++ b) 0) eqn:E; [reflexivity|].
    exfalso. exact (exec_from_some r None a (w ++ b) 0 (Hf _ w b Lw) E).
Qed.

Lemma space_not_upper c : is_white_space c = true -> is_upper c = false.
Proof.
  intros H. destruct (is_upper c) eqn:E; [|reflexivity].
  assert (Hn : is_name_char c = true) by (unfold is_name_char; rewrite E; reflexivity).
  rewrite (name_char_not_space _ Hn) in H. discriminate.
Qed.

(** A literal whose first character is no white space fails on white
    space. *)
Lemma str_ci_stop p L prev c s caps (k : cont) :
  is_white_space (lower_unit p) = false -> is_white_space c = true ->
  re_str_ci (p :: L) (mk_rstate prev (c :: s) caps) k = None.
Proof.
  intros Hp Hc. apply str_ci_fail.
  change (toLowerCase (p :: L)) with (lower_unit p :: toLowerCase L).
  change (toLowerCase (c :: s)) with (lower_unit c :: toLowerCase s).
  cbn [startsWith]. unfold lower_unit at 2. rewrite (space_not_upper _ Hc).
  destruct (lower_unit p =? c)%N eqn:E; [|reflexivity].
  apply N.eqb_eq in E. congruence.
Qed.

Lemma lowered_head_not_space p L w :
  toLowerCase w = p :: L -> is_white_space p = false ->
  match w with [] => True | c :: _ => is_white_space c = false end.
Proof.
  destruct w as [|c w]; [auto|]. intros [= Hc _] Hp.
  destruct (is_white_space c) eqn:E; [|reflexivity].
  unfold lower_unit in Hc. rewrite (space_not_upper _ E) in Hc. congruence.
Qed.

Lemma lowered_digits v : toLowerCase v = lit "5:" -> v = lit "5:".
Proof.
  destruct v as [|a [|b [|c v]]]; try discriminate. intros [= Ha Hb].
  assert (H : forall x y, lower_unit x = y -> is_lower y = false -> x = y).
  { intros x y Hx Hy. unfold lower_unit in Hx. destruct (is_upper x) eqn:E; [|exact Hx].
    exfalso. subst y. unfold is_upper in E. apply andb_true_iff in E as [H1 H2].
    apply N.leb_le in H1, H2. unfold is_lower in Hy.
    apply andb_false_iff in Hy as [Hy|Hy]; apply N.leb_gt in Hy; lia. }
  rewrite (H _ _ Ha eq_refl), (H _ _ Hb eq_refl). reflexivity.
Qed.

Lemma consumes_step5 : consumes App.re_step5 step5_word.
Proof.
  eapply consumes_weaken.
  - apply consumes_seq; [apply consumes_str_ci_any|].
    apply consumes_seq; [apply consumes_star | apply consumes_str_ci_any].
  - intros w (u & v' & -> & Hu & (ws & v & -> & Hws & Hv)).
    exists u, ws. rewrite (lowered_digits _ Hv). auto.
Qed.

Lemma consumes_trains : consumes App.re_the_trains trains_word.
Proof.
  eapply consumes_weaken.
  - apply consumes_seq; [apply consumes_str_ci_any|].
    apply consumes_seq; [apply consumes_plus | apply consumes_str_ci_any].
  - intros w (u & v' & -> & Hu & (ws & v & -> & [Hws Hne] & Hv)).
    exists u, ws, v. auto.
Qed.

Lemma step5_forward prev w rest : step5_word w -> match_at App.re_step5 prev (w ++ rest) <> None.
Proof.
  intros (u & ws & -> & Hu & Hws). unfold match_at, App.re_step5. unfold re_seq at 1.
  rewrite <- !app_assoc. rewrite (str_ci_match (lit "Step") u) by exact Hu.
  unfold re_seq, re_star. cbn [r_prev r_rest r_caps].
  rewrite star_from_longest
    by (intros pv c s' Hc; apply str_ci_stop; [reflexivity | exact Hc]).
  destruct (take_drop_while_stop is_white_space ws (lit "5:" ++ rest) Hws eq_refl) as [-> ->].
  rewrite (str_ci_match (lit "5:") (lit "5:")) by reflexivity. discriminate.
Qed.

Lemma trains_forward prev w rest :
  trains_word w -> match_at App.re_the_trains prev (w ++ rest) <> None.
Proof.
  intros (u & ws & v & -> & Hu & Hne & Hws & Hv). unfold match_at, App.re_the_trains.
  unfold re_seq at 1. rewrite <- !app_assoc.
  rewrite (str_ci_match (lit "The") u) by exact Hu.
  destruct ws as [|c ws]; [congruence|]. cbn [forallb] in Hws.
  apply andb_true_iff in Hws as [Hc Hws].
  unfold re_seq, re_plus, re_seq, re_class, re_star. cbn [app r_prev r_rest r_caps].
  rewrite Hc.
  rewrite star_from_longest
    by (intros pv d s' Hd; apply str_ci_stop; [reflexivity | exact Hd]).
  assert (Hhead : match v ++ rest with [] => True | d :: _ => is_white_space d = false end).
  { pose proof (lowered_head_not_space _ _ _ Hv eq_refl) as H.
    destruct v; [discriminate|exact H]. }
  destruct (take_drop_while_stop is_white_space ws (v ++ rest) Hws Hhead) as [-> ->].
  rewrite (str_ci_match (lit "trains") v) by exact Hv. discriminate.
Qed.

Lemma answer_forward prev w rest :
  toLowerCase w = lit "answer" -> match_at App.re_answer prev (w ++ rest) <> None.
Proof.
  intros Hw. unfold match_at, App.re_answer.
  rewrite (str_ci_match (lit "answer") w) by exact Hw. discriminate.
Qed.

(** *** The metric pattern *)

Lemma startsWith_stop p a c x :
  forallb (fun d => negb (d =? c)%N) p = true ->
  startsWith p (a ++ c :: x) = startsWith p a.
Proof.
  revert a. induction p as [|d p IH]; intros a Hp; [destruct a; reflexivity|].
  cbn [forallb] in Hp. apply andb_true_iff in Hp as [Hd Hp]. apply negb_true_iff in Hd.
  destruct a as [|b a]; cbn [app startsWith]; [rewrite Hd; reflexivity|].
  rewrite (IH a Hp). reflexivity.
Qed.

(** An alternative for another label fails on the line. *)
Lemma label_alt_fail L lab x prev caps (k : cont) :
  startsWith (toLowerCase L) (toLowerCase lab) = false ->
  forallb (fun d => negb (d =? 58)%N) (toLowerCase L) = true ->
  re_str_ci L (mk_rstate prev (lab ++ 58%N :: x) caps) k = None.
Proof.
  intros Hs Hc. apply str_ci_fail. unfold toLowerCase at 2. rewrite map_app.
  change (map lower_unit (58%N :: x)) with (58%N :: map lower_unit x).
  rewrite (startsWith_stop _ _ _ _ Hc). exact Hs.
Qed.

Lemma label_match lab x prev caps (k : cont) :
  In (toLowerCase lab) labels ->
  App.re_label (mk_rstate prev (lab ++ 58%N :: x) caps) k
  = k (mk_rstate (prev_after prev lab) (58%N :: x) caps).
Proof.
  intros Hin. unfold labels in Hin. unfold App.re_label, re_alt.
  repeat (destruct Hin as [Hin|Hin];
    [ symmetry in Hin;
      repeat first
        [ rewrite (str_ci_match (lit "total duration") lab) by exact Hin
        | rewrite (str_ci_match (lit "load duration") lab) by exact Hin
        | rewrite (str_ci_match (lit "prompt eval count") lab) by exact Hin
        | rewrite (str_ci_match (lit "prompt eval duration") lab) by exact Hin
        | rewrite (str_ci_match (lit "prompt eval rate") lab) by exact Hin
        | rewrite (str_ci_match (lit "eval count") lab) by exact Hin
        | rewrite (str_ci_match (lit "eval duration") lab) by exact Hin
        | rewrite (str_ci_match (lit "eval rate") lab) by exact Hin
        | rewrite (label_alt_fail (lit "total duration") lab)
            by (try rewrite Hin; reflexivity)
        | rewrite (label_alt_fail (lit "load duration") lab)
            by (try rewrite Hin; reflexivity)
        | rewrite (label_alt_fail (lit "prompt eval count") lab)
            by (try rewrite Hin; reflexivity)
        | rewrite (label_alt_fail (lit "prompt eval duration") lab)
            by (try rewrite Hin; reflexivity)
        | rewrite (label_alt_fail (lit "prompt eval rate") lab)
            by (try rewrite Hin; reflexivity)
        | rewrite (label_alt_fail (lit "eval count") lab)
            by (try rewrite Hin; reflexivity)
        | rewrite (label_alt_fail (lit "eval duration") lab)
            by (try rewrite Hin; reflexivity)
        | rewrite (label_alt_fail (lit "eval rate") lab)
            by (try rewrite Hin; reflexivity) ];
      destruct (k _); reflexivity
    | ]).
  destruct Hin.
Qed.

(** The value part of the metric pattern, [\s*(.+)$], on white space
    followed by a value without line terminators *)
Lemma trim_all_space v : forallb is_white_space v = true -> trim v = [].
Proof.
  intros H. unfold trim, trimStart. rewrite <- (app_nil_r v), drop_while_all by exact H.
  reflexivity.
Qed.

Lemma dots_drop p v : forallb is_dot v = true -> forallb is_dot (drop_while p v) = true.
Proof.
  induction v as [|c v IH]; [auto|]. cbn [forallb drop_while]. intros H.
  apply andb_true_iff in H as [Hc Hv]. destruct (p c); [auto|].
  cbn [forallb]. rewrite Hc, Hv. reflexivity.
Qed.

Lemma value_group prev g caps :
  g <> [] -> forallb is_dot g = true ->
  exists pv,
    re_seq (re_group 2 (re_plus is_dot)) re_eol (mk_rstate prev g caps) Some
    = Some (mk_rstate pv [] ((2, g) :: caps)).
Proof.
  intros Hne Hg. destruct g as [|c R]; [congruence|]. cbn [forallb] in Hg.
  apply andb_true_iff in Hg as [Hc HR].
  unfold re_seq at 1, re_group, re_plus, re_seq, re_class, re_star.
  cbn [r_prev r_rest r_caps]. rewrite Hc.
  match goal with
  | |- context [star_from is_dot (Some c) R ?cp ?K] =>
      pose proof (star_from_max_success is_dot (Some c) R [] cp K _ HR I eq_refl) as H
  end.
  rewrite app_nil_r in H. rewrite H. cbn [r_prev r_rest r_caps].
  unfold consumed. cbn [r_rest length].
  rewrite Nat.sub_0_r. change (take (S (length R)) (c :: R)) with (c :: take (length R) R).
  rewrite firstn_all. eexists. reflexivity.
Qed.

Lemma value_group_none prev caps :
  re_seq (re_group 2 (re_plus is_dot)) re_eol (mk_rstate prev [] caps) Some = None.
Proof. reflexivity. Qed.

Lemma value_match prev ws v caps :
  forallb is_white_space ws = true -> v <> [] -> forallb is_dot v = true ->
  exists g pv,
    re_star is_white_space (mk_rstate prev (ws ++ v) caps)
      (fun st => re_seq (re_group 2 (re_plus is_dot)) re_eol st Some)
    = Some (mk_rstate pv [] ((2, g) :: caps))
    /\ trim g = trim v.
Proof.
  intros Hws Hne Hv. unfold re_star. cbn [r_prev r_rest r_caps].
  destruct (drop_while is_white_space v) as [|c R] eqn:ER.
  - (* the value is white space: the star gives its last character back *)
    assert (Hall : forallb is_white_space (ws ++ v) = true).
    { rewrite forallb_app, Hws. cbn [andb].
      rewrite <- (take_drop_while is_white_space v), ER, app_nil_r.
      clear. induction v as [|c v IH]; [reflexivity|]. cbn [take_while].
      destruct (is_white_space c) eqn:E; [cbn [forallb]; rewrite E; exact IH | reflexivity]. }
    assert (Hv' : forallb is_white_space v = true).
    { rewrite forallb_app in Hall. apply andb_true_iff in Hall as [_ H]. exact H. }
    destruct (exists_last Hne) as (v0 & c & ->).
    rewrite forallb_app in Hv, Hv'. cbn [forallb] in Hv, Hv'. rewrite !andb_true_r in *.
    apply andb_true_iff in Hv as [_ Hc]. apply andb_true_iff in Hv' as [Hv0 Hcs].
    destruct (value_group (prev_after prev (ws ++ v0)) [c] caps ltac:(discriminate))
      as (pv & Hg); [cbn [forallb]; rewrite Hc; reflexivity|].
    exists [c], pv. split.
    + rewrite app_assoc. apply star_from_backtrack_one.
      * rewrite forallb_app, Hws, Hv0. reflexivity.
      * exact Hcs.
      * apply value_group_none.
      * exact Hg.
    + rewrite !trim_all_space; [reflexivity | | ].
      * rewrite forallb_app, Hv0. cbn [forallb]. rewrite Hcs. reflexivity.
      * cbn [forallb]. rewrite Hcs. reflexivity.
  - (* the star takes the white space, the group what follows *)
    pose proof (take_drop_while is_white_space v) as Ev. rewrite ER in Ev.
    assert (HR : forallb is_dot (c :: R) = true) by (rewrite <- ER; apply dots_drop, Hv).
    assert (Hc : is_white_space c = false) by exact (drop_while_head _ _ _ _ ER).
    destruct (value_group (prev_after prev (ws ++ take_while is_white_space v)) (c :: R) caps
                ltac:(discriminate) HR) as (pv & Hg).
    exists (c :: R), pv. split.
    + rewrite <- Ev, app_assoc. apply star_from_max_success.
      * rewrite forallb_app, Hws. cbn [andb]. clear.
        induction v as [|d v IH]; [reflexivity|]. cbn [take_while].
        destruct (is_white_space d) eqn:E; [cbn [forallb]; rewrite E; exact IH | reflexivity].
      * exact Hc.
      * exact Hg.
    + unfold trim, trimStart. rewrite ER. cbn [drop_while]. rewrite Hc. reflexivity.
Qed.

(** A line of the shape of a metric line is matched. *)
Lemma metric_forward lab ws v :
  In (toLowerCase lab) labels ->
  forallb is_white_space ws = true -> v <> [] -> forallb is_dot v = true ->
  exists m g, exec App.re_metric (lab ++ 58%N :: ws ++ v) = Some m
              /\ group 1 m = Some lab /\ group 2 m = Some g /\ trim g = trim v.
Proof.
  intros Hlab Hws Hne Hv. unfold App.re_metric. rewrite exec_bol.
  unfold re_seq at 1, re_group at 1.
  rewrite (label_match lab (ws ++ v) None [] _ Hlab).
  cbn [r_prev r_rest r_caps]. unfold re_seq at 1, re_char, re_class.
  cbn [r_prev r_rest r_caps]. rewrite N.eqb_refl. unfold re_seq at 1.
  rewrite (consumed_app _ _ lab) by reflexivity.
  destruct (value_match (Some 58%N) ws v [(1, lab)] Hws Hne Hv) as (g & pv & -> & Hg).
  eexists. exists g. split; [reflexivity|]. unfold group. cbn [m_caps r_caps lookup_cap Nat.eqb].
  auto.
Qed.

Lemma metric_line_iff raw k val :
  metric_of raw = Some (k, val) <-> metric_line raw k val.
Proof.
  unfold metric_of, metric_line. split.
  - destruct (exec App.re_metric raw) as [m|] eqn:E; [|discriminate]. intros [= <- <-].
    destruct (metric_match _ _ E) as (lab & ws & v & -> & -> & -> & Hk & Hws & Hne & Hv).
    exists lab, ws, v. repeat split; auto.
  - intros (lab & ws & v & -> & <- & Hk & Hws & Hne & Hv & ->).
    destruct (metric_forward lab ws v Hk Hws Hne Hv) as (m & g & -> & -> & -> & Hg).
    change (default [] (Some lab)) with lab. change (default [] (Some g)) with g.
    rewrite Hg. reflexivity.
Qed.

End ForwardFacts.
Import ForwardFacts.

(** ** The properties *)

(** ** Header lines *)

(** X1. [isModelHeader] accepts a line exactly when, once trimmed, it
    starts with a non-empty run of letters, digits, dots, underscores and
    hyphens, followed by a colon and one more such character; what comes
    after is not looked at.  The same holds in the later revision, and the
    name of every parsed record has this shape. *)
Theorem header_line_shape :
  (forall line, App.isModelHeader line = is_header_shape (trim line))
  /\ (forall line, Part000.isModelHeader line = is_header_shape (trim line))
  /\ (forall txt, Forall (fun m => is_header_shape (name (raw m)) = true)
                    (App.parse_report txt)).
Proof.
  split; [intros line; apply header_test_shape|].
  split; [intros line; apply header_test_shape|].
  intros txt. apply Forall_forall. intros m Hin. apply list_elem_of_In in Hin.
  apply (in_map (fun m => name (raw m))) in Hin.
  rewrite parsed_names in Hin. apply in_map_iff in Hin as (l & <- & Hl).
  apply filter_In in Hl as [_ Hl]. unfold is_header, App.isModelHeader in Hl.
  rewrite trim_idem, header_test_shape in Hl. exact Hl.
Qed.

(** ** What [loadData] answers *)

(** X2. [loadData] fails exactly on a response that is not ok; otherwise it
    gives one record for each header line of the text, and so no record
    exactly when the text has no header line. *)
Theorem loadData_outcome (res : Response) :
  (ok res = false <-> App.loadData res = inl "Failed to load data.md"%string)
  /\ (ok res = true ->
      exists ms, App.loadData res = inr ms
                 /\ length ms = length (List.filter is_header (split_lines (text res)))
                 /\ (ms = [] <-> Forall (fun l => is_header l = false)
                                   (split_lines (text res)))).
Proof.
  unfold App.loadData. split.
  - destruct (ok res); simpl; split; intros; congruence.
  - intros ->. simpl. eexists. split; [reflexivity|].
    pose proof (parsed_names (text res)) as Hn.
    apply (f_equal (@length _)) in Hn. rewrite !length_map in Hn.
    split; [exact Hn|].
    destruct (App.parse_report (text res)) as [|m ms].
    + split; [intros _|reflexivity].
      simpl in Hn. symmetry in Hn. apply length_zero_iff_nil in Hn.
      clear -Hn. induction (split_lines (text res)) as [|l ls IH]; [constructor|].
      simpl in Hn. destruct (is_header l) eqn:E; [discriminate|]. constructor; auto.
    + split; [discriminate|]. intros Hall. exfalso.
      simpl in Hn. clear -Hn Hall. induction Hall as [|l ls Hl _ IH]; [discriminate|].
      simpl in Hn. rewrite Hl in Hn. auto.
Qed.

(** ** Invariants of the parsed records *)

(** X3. In every parsed record the answer fields agree: an answer line is a
    non-empty trimmed string, the numeric answer is what
    [extractNumberFromText] gives on that line and, when present, a finite
    number; without an answer line there is no numeric answer. *)
Theorem parsed_answers_consistent (txt : jsstring) :
  Forall (fun m =>
            match answerLine (raw m) with
            | Some a =>
                a <> [] /\ trim a = a
                /\ numericAnswer (raw m) = App.extractNumberFromText (Some a)
                /\ match numericAnswer (raw m) with
                   | Some x => isFinite x = true
                   | None => True
                   end
            | None => numericAnswer (raw m) = None
            end)
    (App.parse_report txt).
Proof.
  unfold App.parse_report. apply Forall_map.
  apply (scan_invariant answer_consistent), build_consistent.
Qed.

(** X4. The metrics of every parsed record have keys among the eight
    lower-case labels only, and every stored value is a trimmed string. *)
Theorem parsed_metrics_wellformed (txt : jsstring) :
  Forall (fun m => forall k v, metrics (raw m) !! k = Some v ->
                               In k labels /\ trim v = v)
    (App.parse_report txt).
Proof.
  unfold App.parse_report. apply Forall_map.
  apply (scan_invariant metrics_wellformed), build_wellformed.
Qed.

(** X5. The first answer wins: once a record has an answer line, no text
    that follows in the report changes the record's name, answer line or
    numeric answer, and the record keeps its place. *)
Theorem first_answer_wins (lines more : list jsstring) (i : nat)
    (c : RawModelRecord) (a : jsstring) :
  App.scan lines !! i = Some c -> answerLine c = Some a ->
  exists c', App.scan (lines ++ more) !! i = Some c'
             /\ name c' = name c /\ answerLine c' = Some a
             /\ numericAnswer c' = numericAnswer c.
Proof.
  rewrite !scan_segments. unfold segments. rewrite fold_left_app.
  destruct (fold_left segment_step lines ([], None)) as [done cur].
  destruct (segment_fold_extends more done cur) as (ext & tail & ->).
  cbn [fst snd]. rewrite !map_app. intros Hi Ha.
  destruct (decide (i < length (map build done))) as [Hlt|Hge].
  - rewrite lookup_app_l in Hi by exact Hlt. rewrite lookup_app_l by exact Hlt.
    exists c. auto.
  - rewrite lookup_app_r in Hi by lia. rewrite lookup_app_r by lia.
    destruct cur as [[n ls]|]; [|destruct (i - _); discriminate].
    cbn [option_list map seg_name bodyLines] in *.
    destruct (i - length (map build done)) as [|j]; [|destruct j; discriminate].
    injection Hi as <-. cbn [app lookup list_lookup].
    eexists. split; [reflexivity|].
    rewrite !build_name. split; [reflexivity|].
    apply build_app_keeps_answer, Ha.
Qed.



Lemma first_answer_wins_witness :
  exists c', App.scan ([lit "m:a"; lit "Step 5: 3600"] ++ [lit "the answer is 4500"; lit "m:b"])
             !! 0 = Some c'
             /\ name c' = lit "m:a" /\ answerLine c' = Some (lit "Step 5: 3600")
             /\ numericAnswer c' = Some (num "3600").
Proof.
  exact (first_answer_wins [lit "m:a"; lit "Step 5: 3600"] [lit "the answer is 4500"; lit "m:b"]
           0 (mk_raw (lit "m:a") (Some (lit "Step 5: 3600")) (Some (num "3600")) ∅)
           (lit "Step 5: 3600") eq_refl eq_refl).
Defined.

(** X7. A line that opens with white space never sets a metric: the metric
    pattern is anchored at the start of the untrimmed line.  If such a line
    is not a header, the loop leaves the metrics of the open record as they
    are. *)
Theorem indented_line_sets_no_metric (st : loop_state) (raw : jsstring) :
  indented raw = true ->
  exec App.re_metric raw = None
  /\ (is_header raw = false ->
      metrics <$> cur (App.loop_body st raw) = metrics <$> cur st).
Proof.
  intros Hi. pose proof (indented_no_metric _ Hi) as Hm. split; [exact Hm|].
  unfold is_header. intros Hh. unfold App.loop_body. rewrite Hh, Hm.
  destruct (falsy (Some (trim raw))); [reflexivity|].
  destruct (startsWith _ _); [reflexivity|].
  destruct (cur st) as [c|] eqn:Hc; [|rewrite Hc; reflexivity].
  destruct (falsy (answerLine c) && _ && _); [reflexivity|].
  destruct (falsy (answerLine c) && _ && _); reflexivity.
Qed.

Lemma indented_line_sets_no_metric_witness :
  exec App.re_metric (lit "  eval count: 512") = None
  /\ (is_header (lit "  eval count: 512") = false ->
      metrics <$> cur (App.loop_body (mk_loop [] (Some (mk_raw (lit "m:a") None None ∅)) 9)
                         (lit "  eval count: 512"))
      = metrics <$> cur (mk_loop [] (Some (mk_raw (lit "m:a") None None ∅)) 9)).
Proof.
  exact (indented_line_sets_no_metric
           (mk_loop [] (Some (mk_raw (lit "m:a") None None ∅)) 9)
           (lit "  eval count: 512") eq_refl).
Defined.

(** ** Line endings *)

(** X8. Windows line endings change nothing: for a text without carriage
    returns, writing every line feed as carriage return and line feed
    gives the same lines and the same records. *)
Theorem crlf_invariance (txt : jsstring) :
  has_cr txt = false ->
  split_lines (to_crlf txt) = split_lines txt
  /\ App.parse_report (to_crlf txt) = App.parse_report txt.
Proof.
  intros H. assert (E : split_lines (to_crlf txt) = split_lines txt)
    by exact (split_lines_crlf [] txt H).
  split; [exact E|]. unfold App.parse_report. rewrite E. reflexivity.
Qed.

Lemma crlf_invariance_witness :
  split_lines (to_crlf (lit "m:a" ++ LF ++ lit "eval count: 512"))
  = split_lines (lit "m:a" ++ LF ++ lit "eval count: 512")
  /\ App.parse_report (to_crlf (lit "m:a" ++ LF ++ lit "eval count: 512"))
     = App.parse_report (lit "m:a" ++ LF ++ lit "eval count: 512").
Proof.
  exact (crlf_invariance (lit "m:a" ++ LF ++ lit "eval count: 512") eq_refl).
Defined.

(** X9. The lines of a text: there is at least one, none holds a line
    feed, and joined by line feeds they give the text back, up to the
    carriage returns that stood before a line feed. *)
Theorem split_lines_join (txt : jsstring) :
  split_lines txt <> []
  /\ Forall (fun l => has_lf l = false) (split_lines txt)
  /\ join_lines (split_lines txt) = strip_cr txt.
Proof.
  split; [|split].
  - unfold split_lines. destruct (split_lines_from_cons [] txt) as (l & ls & ->). discriminate.
  - apply split_lines_no_lf. reflexivity.
  - exact (join_split_from [] txt).
Qed.

(** X10. Conversely, a non-empty list of lines without line feeds, none
    but the last ending with a carriage return, is what the text made of
    them, joined by line feeds, is split into. *)
Theorem split_lines_of_join (l : jsstring) (ls : list jsstring) :
  Forall (fun x => has_lf x = false) (l :: ls) ->
  Forall (fun x => ends_with_cr x = false) (removelast (l :: ls)) ->
  split_lines (join_lines (l :: ls)) = l :: ls.
Proof.
  intros Hlf Hcr. inversion Hlf; subst.
  exact (split_join_from [] l ls ltac:(assumption) ltac:(assumption) Hcr).
Qed.

Lemma split_lines_of_join_witness :
  split_lines (join_lines [lit "m:a"; lit ""; lit "eval count: 512"])
  = [lit "m:a"; lit ""; lit "eval count: 512"].
Proof.
  apply (split_lines_of_join (lit "m:a") [lit ""; lit "eval count: 512"]).
  - repeat constructor.
  - repeat constructor.
Defined.

(** ** Numbers read from the text *)

(** X11. [extractNumberFromText] finds a token exactly when the text holds
    a digit: without a digit it answers [null], and a number it answers is
    finite and is the Number of one of the tokens of the text. *)
Theorem extractNumber_needs_digit (text : jsstring) :
  (numeric_tokens text = [] <-> has_digit text = false)
  /\ (has_digit text = false -> App.extractNumberFromText (Some text) = None)
  /\ (forall x, App.extractNumberFromText (Some text) = Some x ->
                isFinite x = true
                /\ exists tok, In tok (numeric_tokens text) /\ x = Number tok).
Proof.
  split; [apply tokens_iff_digit|]. rewrite extractNumber_chosen. split.
  - intros H. apply tokens_iff_digit in H. rewrite H. reflexivity.
  - intros x. destruct (numeric_tokens text) as [|t ts] eqn:E; [discriminate|].
    unfold finite_or_null.
    set (ch := match List.find is_big_integer (t :: ts) with
               | Some b => b
               | None => List.last (t :: ts) []
               end).
    assert (Hin : In ch (t :: ts)).
    { subst ch. destruct (List.find is_big_integer (t :: ts)) as [b|] eqn:Hb.
      - apply find_some in Hb. apply Hb.
      - clear. revert t. induction ts as [|u ts IH]; intros t; [left; reflexivity|].
        right. apply (IH u). }
    destruct (isFinite (Number ch)) eqn:Hf; [|discriminate].
    intros [= <-]. split; [exact Hf|]. exists ch. auto.
Qed.

(** X12. A duration is [null] or a number above zero: [parseDurationToSeconds]
    never answers zero, a negative number or NaN, and so the four duration
    fields of every parsed record are [null] or above zero. *)
Theorem durations_positive :
  (forall raw x, App.parseDurationToSeconds raw = Some x -> lt zero x = true)
  /\ (forall txt,
        Forall (fun m => forall x,
                  In (Some x) [totalSeconds m; loadSeconds m;
                               promptDurationSeconds m; evalDurationSeconds m] ->
                  lt zero x = true)
          (App.parse_report txt)).
Proof.
  split; [exact parseDuration_positive|].
  intros txt. unfold App.parse_report. apply Forall_map, Forall_forall.
  intros c _ x Hin. cbn in Hin.
  destruct Hin as [H|[H|[H|[H|[]]]]]; exact (parseDuration_positive _ _ H).
Qed.

(** X13. [parseDurationToSeconds] on the well-formed shapes, for unsigned
    decimals [w] and [v]: seconds alone give the Number of [w]; minutes and
    seconds give [w * 60 + v]; on milliseconds alone the minutes pattern
    matches as well, so that [w * 60 + w / 1000] is answered.  In each case
    a zero sum is answered as [null]. *)
Theorem duration_formats (w v : jsstring) :
  is_decimal w = true -> is_decimal v = true ->
  App.parseDurationToSeconds (Some (w ++ lit "s")) = or_null (Number w)
  /\ App.parseDurationToSeconds (Some (w ++ lit "m" ++ v ++ lit "s"))
     = or_null (add (mul (Number w) (num "60")) (Number v))
  /\ App.parseDurationToSeconds (Some (w ++ lit "ms"))
     = or_null (add (mul (Number w) (num "60")) (div (Number w) (num "1000"))).
Proof. apply parseDuration_shapes. Qed.

Lemma duration_formats_witness :
  App.parseDurationToSeconds (Some (lit "36.477755333" ++ lit "s"))
  = or_null (Number (lit "36.477755333"))
  /\ App.parseDurationToSeconds (Some (lit "36.477755333" ++ lit "m" ++ lit "0" ++ lit "s"))
     = or_null (add (mul (Number (lit "36.477755333")) (num "60")) (Number (lit "0")))
  /\ App.parseDurationToSeconds (Some (lit "36.477755333" ++ lit "ms"))
     = or_null (add (mul (Number (lit "36.477755333")) (num "60"))
                  (div (Number (lit "36.477755333")) (num "1000"))).
Proof.
  exact (duration_formats (lit "36.477755333") (lit "0") eq_refl eq_refl).
Defined.

(** X14. The rate fields: [null] when the label is missing or its value is
    empty; otherwise the Number of the first signed decimal of the value
    (a minus sign counts only right before a digit, a point only between
    digits), which is NaN exactly when the value holds no digit. *)
Theorem rate_fields (r : RawModelRecord) :
  promptRate (App.normalize r) = rate_field (metrics r !! lit "prompt eval rate")
  /\ evalRate (App.normalize r) = rate_field (metrics r !! lit "eval rate")
  /\ (forall s, first_signed_decimal s = None <-> has_digit s = false)
  /\ (forall s t, first_signed_decimal s = Some t -> isNaN (Number t) = false).
Proof.
  split; [apply rate_of_field|]. split; [apply rate_of_field|].
  split; [exact first_signed_decimal_none|].
  intros s t H. destruct (parse_signed_word _ (first_signed_decimal_word _ _ H))
    as (sg & ip & fp & E).
  unfold Number. rewrite E. apply of_decimal_not_nan.
Qed.

(** ** The page *)

(** X15. [fmtSeconds] shows the dash exactly for [null] and NaN, whatever
    the engine's conversions answer; both revisions have the same
    function.  A duration field of a parsed record is never NaN, so its
    text is the dash exactly when the field is [null]. *)
Theorem fmtSeconds_dash (toFixed : number -> nat -> jsstring) (floor : number -> number)
    (ToString : number -> jsstring) :
  (forall sec, AppView.fmtSeconds toFixed floor ToString sec = dash <-> is_missing sec = true)
  /\ (forall sec, Part000View.fmtSeconds toFixed floor ToString sec
                  = AppView.fmtSeconds toFixed floor ToString sec)
  /\ (forall raw, AppView.fmtSeconds toFixed floor ToString (App.parseDurationToSeconds raw)
                  = dash
                  <-> App.parseDurationToSeconds raw = None).
Proof.
  split; [apply fmtSeconds_absent|]. split; [reflexivity|].
  intros raw. rewrite fmtSeconds_absent.
  destruct (App.parseDurationToSeconds raw) as [x|] eqn:E; [|split; reflexivity].
  apply parseDuration_positive in E. destruct x as [[]|[]| |[] m e]; try discriminate;
    split; discriminate.
Qed.

(** X16. The cells of a card: the prompt and the generation cell show the
    dash exactly when neither the count nor the duration is a finite
    number, the total and load cells exactly when the field is [null] or
    NaN, and the badge reads Correct exactly for a correct record. *)
Theorem card_cells (toFixed : number -> nat -> jsstring) (floor : number -> number)
    (ToString : number -> jsstring) (m : ModelRecord) :
  (card_prompt (AppView.createCard toFixed floor ToString m) = dash
   <-> isFinite_of (promptCount m) = false /\ isFinite_of (promptDurationSeconds m) = false)
  /\ (card_gen (AppView.createCard toFixed floor ToString m) = dash
      <-> isFinite_of (evalCount m) = false /\ isFinite_of (evalDurationSeconds m) = false)
  /\ (card_total (AppView.createCard toFixed floor ToString m) = dash
      <-> is_missing (totalSeconds m) = true)
  /\ (card_load (AppView.createCard toFixed floor ToString m) = dash
      <-> is_missing (loadSeconds m) = true)
  /\ (card_badge (AppView.createCard toFixed floor ToString m) = lit "Correct"
      <-> correct m = true).
Proof.
  cbn [AppView.createCard card_prompt card_gen card_total card_load card_badge].
  split; [apply bits_dash|]. split; [apply bits_dash|].
  split; [apply fmtSeconds_absent|]. split; [apply fmtSeconds_absent|].
  destruct (correct m); split; intros; try reflexivity; discriminate.
Qed.

(** X17. The card of a parsed record shows its answer line when it has
    one, and the dash otherwise. *)
Theorem card_answer_parsed (toFixed : number -> nat -> jsstring) (floor : number -> number)
    (ToString : number -> jsstring) (txt : jsstring) :
  Forall (fun m => card_answer (AppView.createCard toFixed floor ToString m)
                   = default dash (answerLine (raw m)))
    (App.parse_report txt).
Proof.
  unfold App.parse_report. apply Forall_map.
  eapply Forall_impl; [apply (scan_invariant answer_consistent), build_consistent|].
  intros c Hc. cbn [AppView.createCard card_answer App.normalize raw].
  unfold answer_consistent in Hc. destruct (answerLine c) as [[|x a]|]; try reflexivity.
  destruct Hc as [Hne _]. congruence.
Qed.

(** X18. The marks of the comparison when a value is missing.  On a
    duration row a finite duration is marked against a missing one, and
    nothing is marked when both are missing or both are the same.  On a
    token row a count above zero is marked against a missing one, which
    counts as zero; a NaN count is never marked, nor is the other side. *)
Theorem compare_marks_missing :
  (forall x, isFinite x = true ->
     marks (Some (duration_better (Some x) None)) = (true, false)
     /\ marks (Some (duration_better None (Some x))) = (false, true))
  /\ (forall v, marks (Some (duration_better v v)) = (false, false))
  /\ (forall x, lt zero x = true ->
        marks (Some (count_better (Some x) None)) = (true, false)
        /\ marks (Some (count_better None (Some x))) = (false, true))
  /\ (forall v, marks (Some (count_better (Some NaN) v)) = (false, false)
                /\ marks (Some (count_better v (Some NaN))) = (false, false))
  /\ marks (Some (count_better None None)) = (false, false).
Proof.
  split; [exact duration_marks_missing|]. split; [exact duration_marks_same|].
  split; [exact count_marks_missing|]. split; [exact count_marks_nan|]. reflexivity.
Qed.

(** X19. [renderCompare] asks to pick two models unless both selected
    values are names of records; it then shows eight rows for two records
    of these names.  The empty value of the placeholder option is the name
    of no parsed record. *)
Theorem compare_needs_two (toFixed : number -> nat -> jsstring) (floor : number -> number)
    (ToString : number -> jsstring) (models : list ModelRecord) (a b : jsstring) :
  (AppView.renderCompare toFixed floor ToString models a b = PickTwo
   <-> ~ (In a (map (fun m => name (raw m)) models)
          /\ In b (map (fun m => name (raw m)) models)))
  /\ (forall chips rows,
        AppView.renderCompare toFixed floor ToString models a b = Compared chips rows ->
        length rows = 8
        /\ exists A B, In A models /\ In B models /\ name (raw A) = a /\ name (raw B) = b
             /\ rows = AppView.compare_rows toFixed floor ToString AppView.compareRow A B)
  /\ (forall txt,
        AppView.renderCompare toFixed floor ToString (App.parse_report txt) [] b = PickTwo
        /\ AppView.renderCompare toFixed floor ToString (App.parse_report txt) a []
           = PickTwo).
Proof.
  assert (Hempty : forall txt,
            List.find (fun m => Part000.str_eq (name (raw m)) []) (App.parse_report txt)
            = None).
  { intros txt. destruct (List.find _ _) as [A|] eqn:E; [|reflexivity].
    apply find_name_eq in E as [Hin E]. exfalso. exact (parsed_name_nonempty _ _ Hin E). }
  split; [|split].
  - unfold AppView.renderCompare. rewrite !find_name_some.
    destruct (List.find _ models) as [A|] eqn:EA.
    + destruct (List.find (fun m => Part000.str_eq (name (raw m)) b) models) as [B|] eqn:EB.
      * split; [discriminate|]. intros H. exfalso. apply H. eauto.
      * split; [|reflexivity]. intros _ [_ [B HB]]. discriminate.
    + split; [|reflexivity]. intros _ [[A HA] _]. discriminate.
  - intros chips rows. unfold AppView.renderCompare.
    destruct (List.find _ models) as [A|] eqn:EA; [|discriminate].
    destruct (List.find (fun m => Part000.str_eq (name (raw m)) b) models) as [B|] eqn:EB;
      [|discriminate].
    intros [= <- <-]. split; [reflexivity|].
    apply find_name_eq in EA as [? ?]. apply find_name_eq in EB as [? ?].
    exists A, B. auto.
  - intros txt. unfold AppView.renderCompare. rewrite !Hempty.
    split; [reflexivity|]. destruct (List.find _ _); reflexivity.
Qed.

(** X20. Sorting the grid leaves the records without a value for the sort
    key in the order they had, whatever the key and the direction. *)
Theorem missing_keep_order (lower : jsstring -> jsstring) (cfg : Part000.SortState)
    (models : list ModelRecord) (filter : jsstring) :
  List.filter (missing cfg) (Part000.renderGrid lower cfg models filter)
  = List.filter (missing cfg)
      (if falsy (Some (lower (trim filter))) then models
       else List.filter (fun m => Part000.includes (lower (name (raw m)))
                                    (lower (trim filter))) models).
Proof. unfold Part000.renderGrid. apply sort_missing. Qed.

(** X21. The direction of the sort is always asc or desc; a click on the
    direction button changes it, a second click restores [SORT], and the
    text of the button follows the direction. *)
Theorem sort_direction_toggle (cfg : Part000.SortState) :
  Part000View.reachable cfg ->
  (Part000.sort_dir cfg = lit "asc" \/ Part000.sort_dir cfg = lit "desc")
  /\ Part000.sort_dir (Part000View.on_sortDir_click cfg) <> Part000.sort_dir cfg
  /\ Part000View.on_sortDir_click (Part000View.on_sortDir_click cfg) = cfg
  /\ (Part000View.sortDir_text cfg = lit "Asc" <-> Part000.sort_dir cfg = lit "asc").
Proof.
  intros H.
  assert (Hdir : Part000.sort_dir cfg = lit "asc" \/ Part000.sort_dir cfg = lit "desc").
  { induction H as [|cfg value _ IH|cfg _ IH]; [left; reflexivity|exact IH|].
    destruct cfg as [by_ dir]. cbn in *. destruct IH as [->| ->]; [right|left]; reflexivity. }
  split; [exact Hdir|]. destruct cfg as [by_ dir]. cbn in Hdir.
  destruct Hdir as [->| ->]; repeat split; try reflexivity; try discriminate.
Qed.

Lemma sort_direction_toggle_witness :
  (Part000.sort_dir Part000.SORT = lit "asc" \/ Part000.sort_dir Part000.SORT = lit "desc")
  /\ Part000.sort_dir (Part000View.on_sortDir_click Part000.SORT)
     <> Part000.sort_dir Part000.SORT
  /\ Part000View.on_sortDir_click (Part000View.on_sortDir_click Part000.SORT) = Part000.SORT
  /\ (Part000View.sortDir_text Part000.SORT = lit "Asc"
      <-> Part000.sort_dir Part000.SORT = lit "asc").
Proof. exact (sort_direction_toggle Part000.SORT Part000View.reach_init). Defined.

(** X22. What the later revision changes on the page: a card has the same
    texts and a logo; the comparison has the same rows, without the titles
    of the cells, under the chips of the two records; the grid shows the
    same records, sorted. *)
Theorem view_revisions_agree (toFixed : number -> nat -> jsstring)
    (floor : number -> number) (ToString : number -> jsstring)
    (lower : jsstring -> jsstring) :
  (forall m,
     Part000View.createCard toFixed floor ToString lower m
     = let c := AppView.createCard toFixed floor ToString m in
       mk_card (card_name c) (Part000View.logo_of lower (name (raw m)))
         (card_badge c) (card_badge_class c) (card_answer c) (card_total c)
         (card_load c) (card_prompt c) (card_gen c))
  /\ (forall label aVal bVal betterFn,
        Part000View.compareRow label aVal bVal betterFn
        = without_titles (AppView.compareRow label aVal bVal betterFn))
  /\ (forall models a b,
        match AppView.renderCompare toFixed floor ToString models a b,
              Part000View.renderCompare toFixed floor ToString lower models a b with
        | PickTwo, PickTwo => True
        | Compared chips rows, Compared chips' rows' =>
            chips = [] /\ map snd chips' = [a; b] /\ rows' = map without_titles rows
        | _, _ => False
        end)
  /\ (forall cfg models filter,
        match AppView.renderGrid toFixed floor ToString lower models filter,
              Part000View.renderGrid toFixed floor ToString lower cfg models filter with
        | NoMatch s t, NoMatch s' t' => s = s' /\ t = t'
        | Cards s t cards, Cards s' t' cards' =>
            s = s' /\ t = t' /\ Permutation (map card_name cards) (map card_name cards')
        | _, _ => False
        end).
Proof.
  split; [reflexivity|]. split; [reflexivity|]. split.
  - intros models a b. unfold AppView.renderCompare, Part000View.renderCompare.
    destruct (List.find _ models) as [A|] eqn:EA; [|exact I].
    destruct (List.find (fun m => Part000.str_eq (name (raw m)) b) models) as [B|] eqn:EB;
      [|exact I].
    apply find_name_eq in EA as [_ <-]. apply find_name_eq in EB as [_ <-].
    split; [reflexivity|]. split; reflexivity.
  - intros cfg models filter.
    unfold AppView.renderGrid, Part000View.renderGrid, Part000.renderGrid.
    set (filtered := if falsy (Some (lower (trim filter))) then models else _).
    pose proof (sort_perm (Part000.compare_models cfg) filtered) as Hp.
    destruct filtered as [|m ms].
    + cbn. auto.
    + destruct (Part000.sort _ _) as [|m' ms'] eqn:E.
      * apply Permutation_nil in Hp. discriminate.
      * split; [exact (eq_sym (Permutation_length Hp))|]. split; [reflexivity|].
        rewrite !map_map. cbn [AppView.createCard Part000View.createCard card_name].
        symmetry. apply Permutation_map. exact Hp.
Qed.

(** X23. Where the stored values come from: the answer line of a parsed
    record is the trimmed text of a line of the report that carries one of
    the three markers, or a standalone number of three digits or more and
    none of the words duration, count, rate; every stored metric is the
    lower-cased label and the trimmed value of a line of the report that
    the metric pattern matches. *)
Theorem parsed_values_provenance (txt : jsstring) :
  Forall (fun m =>
            (forall a, answerLine (raw m) = Some a ->
               exists l, In l (split_lines txt) /\ a = trim l
                 /\ (App.early_answer a = true
                     \/ (test App.re_standalone a = true
                         /\ test App.re_metric_word a = false)))
            /\ (forall k v, metrics (raw m) !! k = Some v ->
                  exists l, In l (split_lines txt) /\ metric_of l = Some (k, v)))
    (App.parse_report txt).
Proof.
  unfold App.parse_report. apply Forall_map.
  exact (scan_from_lines (split_lines txt)).
Qed.

(** X24. A comma, a caret or a line feed ends a token and starts none: the
    tokens of a text around such a character are the tokens of the part
    before it followed by the tokens of the part after it. *)
Theorem separators_split_tokens (a b : jsstring) (c : N) :
  is_separator c = true ->
  numeric_tokens (a ++ c :: b) = numeric_tokens a ++ numeric_tokens b.
Proof. apply tokens_split. Qed.

Lemma separators_split_tokens_witness :
  numeric_tokens (lit "1.5" ++ 94%N :: lit "2 and -7")
  = numeric_tokens (lit "1.5") ++ numeric_tokens (lit "2 and -7").
Proof. exact (separators_split_tokens (lit "1.5") (lit "2 and -7") 94%N eq_refl). Defined.

(** X25. A number written with a thousands separator is read as its last
    group: for a run [a] of one or two digits and a run [b] of three
    digits or more, the text [a,b] has the tokens [a] and [b], and the
    answer is the Number of [b]. *)
Theorem thousands_separator (a b : jsstring) :
  all_digits a = true -> all_digits b = true ->
  length a < 3 -> 3 <= length b ->
  numeric_tokens (a ++ 44%N :: b) = [a; b]
  /\ App.extractNumberFromText (Some (a ++ 44%N :: b)) = finite_or_null (Number b).
Proof.
  intros Ha Hb Hla Hlb.
  assert (Ht : numeric_tokens (a ++ 44%N :: b) = [a; b]).
  { rewrite tokens_split by reflexivity. rewrite (tokens_digits _ Ha), (tokens_digits _ Hb).
    reflexivity. }
  split; [exact Ht|]. rewrite extractNumber_chosen, Ht. cbn [List.find].
  rewrite (big_integer_digits _ Ha), (big_integer_digits _ Hb).
  apply Nat.leb_le in Hlb. rewrite Hlb.
  replace (3 <=? length a) with false by (symmetry; apply Nat.leb_gt; exact Hla).
  reflexivity.
Qed.

Lemma thousands_separator_witness :
  numeric_tokens (lit "3" ++ 44%N :: lit "600") = [lit "3"; lit "600"]
  /\ App.extractNumberFromText (Some (lit "3" ++ 44%N :: lit "600"))
     = finite_or_null (Number (lit "600")).
Proof.
  apply (thousands_separator (lit "3") (lit "600")).
  - reflexivity.
  - reflexivity.
  - simpl. lia.
  - simpl. lia.
Defined.

(** ** The line rules, in full *)

(** X26. The early answer test is a search for one of three words anywhere
    in the trimmed line, the letters in either case: [step], white space or
    none, [5:]; [answer], also inside a longer word; [the], white space,
    [trains]. *)
Theorem early_answer_markers (x : jsstring) :
  App.early_answer x = true
  <-> holds step5_word x \/ holds answer_word x \/ holds trains_word x.
Proof.
  unfold App.early_answer, holds. rewrite !orb_true_iff.
  rewrite (test_holds _ _ x consumes_step5 step5_forward).
  rewrite (test_holds _ _ x (consumes_str_ci_any (lit "answer")) answer_forward).
  rewrite (test_holds _ _ x consumes_trains trains_forward).
  unfold answer_word. change (toLowerCase (lit "answer")) with (lit "answer"). tauto.
Qed.

(** X27. The metric pattern gives the key [k] and the value [val] exactly
    on the lines made of a label in either case, whose lower-case form is
    [k], a colon, white space or none, and a non-empty text without line
    terminators, of which [val] is the trimmed form. *)
Theorem metric_line_shape (raw k val : jsstring) :
  metric_of raw = Some (k, val) <-> metric_line raw k val.
Proof. apply metric_line_iff. Qed.

(** X28. The search of the grid is a substring test: a record is shown
    exactly when it is a record of the report and its lower-cased name holds
    the lower-cased, trimmed query. *)
Theorem search_is_substring (lower : jsstring -> jsstring) (cfg : Part000.SortState)
    (models : list ModelRecord) (filter : jsstring) (m : ModelRecord) :
  In m (Part000.renderGrid lower cfg models filter)
  <-> In m models
      /\ exists a b, lower (name (raw m)) = a ++ lower (trim filter) ++ b.
Proof.
  unfold Part000.renderGrid.
  set (filtered := if falsy (Some (lower (trim filter))) then models else _).
  assert (Hs : In m (Part000.sort (Part000.compare_models cfg) filtered) <-> In m filtered).
  { split; apply Permutation_in; [|symmetry]; apply sort_perm. }
  rewrite Hs. subst filtered.
  destruct (lower (trim filter)) as [|c q] eqn:E; cbn [falsy].
  - split; [|tauto]. intros H. split; [exact H|]. exists [], (lower (name (raw m))). reflexivity.
  - rewrite filter_In, includes_spec. reflexivity.
Qed.

(** X29. End to end for the total duration: when the last line of a record
    that sets the total duration reads label, colon, white space, an
    unsigned decimal and [s], the [totalSeconds] of the record is the Number
    of the decimal, or [null] if that is zero. *)
Theorem total_duration_end_to_end (pre body : list jsstring) (lab ws w : jsstring) :
  existsb is_header pre = true ->
  toLowerCase lab = lit "total duration" ->
  forallb is_white_space ws = true ->
  is_decimal w = true ->
  App.early_answer (trim (lab ++ 58%N :: ws ++ w ++ lit "s")) = false ->
  Forall (fun l => is_header l = false
                   /\ forall v, metric_of l <> Some (lit "total duration", v)) body ->
  exists c, last (App.scan (pre ++ (lab ++ 58%N :: ws ++ w ++ lit "s") :: body)) = Some c
            /\ totalSeconds (App.normalize c) = or_null (Number w).
Proof.
  intros Hpre Hlab Hws Hw He Hbody.
  set (raw := lab ++ 58%N :: ws ++ w ++ lit "s") in *.
  destruct (decimal_head_not_space _ Hw) as (c0 & x & Ew & Hc0).
  assert (Hv : forallb is_dot (w ++ lit "s") = true).
  { rewrite forallb_app. apply andb_true_iff. split; [|reflexivity].
    destruct (decimal_word_chars _ (is_decimal_word _ Hw)) as [Hc _].
    rewrite forallb_forall in *. intros d Hd. specialize (Hc d Hd).
    unfold is_decimal_char, is_digit in Hc. unfold is_dot, is_line_terminator.
    apply negb_true_iff. apply orb_true_iff in Hc.
    repeat (apply orb_false_iff; split); apply N.eqb_neq; intros ->;
      destruct Hc as [Hc|Hc]; discriminate. }
  assert (Hm : metric_of raw = Some (lit "total duration", w ++ lit "s")).
  { apply metric_line_iff. exists lab, ws, (w ++ lit "s").
    split; [reflexivity|]. split; [exact Hlab|]. split; [left; reflexivity|].
    split; [exact Hws|]. split; [destruct w; discriminate|]. split; [exact Hv|].
    rewrite Ew. change (lit "s") with [115%N].
    cbn [app]. rewrite trim_fixed by auto. reflexivity. }
  assert (Hc : classify raw = Content).
  { unfold metric_of in Hm. destruct (exec App.re_metric raw) eqn:E; [|discriminate].
    exact (metric_line_content _ _ E). }
  assert (Hh : Forall (fun l => is_header l = false) (raw :: body)).
  { constructor.
    - rewrite <- headed_is_header. unfold headed. rewrite Hc. reflexivity.
    - eapply Forall_impl; [exact Hbody|]. intros l [H _]. exact H. }
  destruct (scan_open_segment pre (raw :: body) Hpre Hh) as (n & ls & _ & ->).
  eexists. split; [reflexivity|].
  cbn [App.normalize totalSeconds]. cbn [List.filter]. unfold is_content at 1. rewrite Hc.
  rewrite (build_metric_last n ls raw _ _ _ Hm He).
  - exact (proj1 (parseDuration_shapes w w Hw Hw)).
  - clear -Hbody. induction Hbody as [|l body [_ Hl] _ IH]; [constructor|].
    cbn [List.filter]. destruct (is_content l); [constructor|]; auto.
Qed.

Lemma total_duration_end_to_end_witness :
  exists c, last (App.scan ([lit "llama3:8b"; lit "Step 5: 3600"]
                            ++ (lit "Total Duration" ++ 58%N :: lit "  " ++ lit "36.5"
                                ++ lit "s")
                               :: [lit "eval count: 512"])) = Some c
            /\ totalSeconds (App.normalize c) = or_null (Number (lit "36.5")).
Proof.
  apply (total_duration_end_to_end [lit "llama3:8b"; lit "Step 5: 3600"]
           [lit "eval count: 512"] (lit "Total Duration") (lit "  ") (lit "36.5")).
  - vm_compute. reflexivity.
  - reflexivity.
  - reflexivity.
  - reflexivity.
  - vm_compute. reflexivity.
  - repeat constructor. intros v. vm_compute. discriminate.
Defined.
